(** * Familienpass tools: sign-up windows, event grouping, calendar export, fetch retry

    A shallow embedding of the parsing-and-reconciliation core of the
    Familienpass scraper ([scraper.py], [create_calendar.py],
    [create_reminder.py], [utils.py], [config.py]) together with the
    properties its specification states.

    Python values are modelled as follows.
    - A [str] is the list of its Unicode code points ([list N]); [len] is
      [length], comparison is code point order, literals are written with
      [lit] from an ASCII string.
    - A spreadsheet cell is an [option value] ([None] for an empty cell),
      where a [value] is a text or a value of another type, given by its
      truth value and its text.
    - A dictionary used as a record with a fixed key set is a [Record];
      the [OrderedDict] of the grouper is an association list in insertion
      order; the prior-selections dictionary is a [gmap].
    - Calls that raise are functions into [option] or a result type, and
      [time.sleep] / [requests.get] calls are recorded in a trace.
    - The HTML parser, the navigation of a parsed document, the digest,
      [str.lower], [urljoin] and the workbook's taking of a value and
      writing of the file are parameters. *)

From stdpp Require Import gmap list strings sorting.
From Stdlib Require Import NArith ZArith Lia DecimalString.

Local Open Scope N_scope.
Local Open Scope list_scope.

(** ** Python strings *)

Module PyStr.

Abbreviation str := (list N).

(** A string literal (ASCII text). *)
Definition lit (s : string) : str :=
  Ascii.N_of_ascii <$> String.list_ascii_of_string s.

(** [str.isspace] on one code point: the characters removed by
    [str.strip()] and matched by [\s] in a [str] pattern. *)
Definition is_space (c : N) : bool :=
  ((9 <=? c) && (c <=? 13)) || ((28 <=? c) && (c <=? 32))
  || (c =? 133) || (c =? 160) || (c =? 5760)
  || ((8192 <=? c) && (c <=? 8202))
  || (c =? 8232) || (c =? 8233) || (c =? 8239) || (c =? 8287)
  || (c =? 12288).

(** [s.lstrip()] *)
Fixpoint lstrip (s : str) : str :=
  match s with
  | [] => []
  | c :: s' => if is_space c then lstrip s' else s
  end.

(** [s.rstrip()]: a character is dropped when it is whitespace and
    everything after it is dropped. *)
Fixpoint rstrip (s : str) : str :=
  match s with
  | [] => []
  | c :: s' =>
      match rstrip s' with
      | [] => if is_space c then [] else [c]
      | r => c :: r
      end
  end.

(** [s.strip()] *)
Definition strip (s : str) : str := rstrip (lstrip s).

(** [s.startswith(p)] *)
Fixpoint starts_with (p s : str) : bool :=
  match p, s with
  | [], _ => true
  | _ :: _, [] => false
  | a :: p', b :: s' => (a =? b) && starts_with p' s'
  end.

(** [s.find(p)] as an option: the index of the first occurrence. *)
Fixpoint find_sub (p s : str) : option nat :=
  if starts_with p s then Some 0%nat
  else match s with
       | [] => None
       | _ :: s' => S <$> find_sub p s'
       end.

(** [p in s] *)
Definition contains (p s : str) : bool :=
  match find_sub p s with Some _ => true | None => false end.

(** [s.split(sep, 1)] for a non-empty [sep]: [None] stands for the
    one-element list [[s]], [Some (a, b)] for the list [[a, b]]. *)
Definition split_once (sep s : str) : option (str * str) :=
  (λ i, (take i s, drop (i + length sep) s)) <$> find_sub sep s.

(** [s.split(c)] for a one-character separator: never the empty list. *)
Fixpoint split_char (c : N) (s : str) : list str :=
  match s with
  | [] => [[]]
  | x :: s' =>
      if x =? c then [] :: split_char c s'
      else match split_char c s' with
           | p :: ps => (x :: p) :: ps
           | [] => [[x]]
           end
  end.

(** [s.replace(old, new)] for a non-empty [old]: occurrences are replaced
    left to right without overlap; [skip] counts the characters of an
    occurrence that are still to be dropped. *)
Fixpoint replace_from (old new : str) (skip : nat) (s : str) : str :=
  match s with
  | [] => []
  | c :: s' =>
      match skip with
      | S k => replace_from old new k s'
      | O =>
          if starts_with old s
          then new ++ replace_from old new (length old - 1) s'
          else c :: replace_from old new 0 s'
      end
  end.

Definition replace (old new s : str) : str := replace_from old new 0 s.

(** [sep.join(parts)] *)
Fixpoint join (sep : str) (parts : list str) : str :=
  match parts with
  | [] => []
  | [p] => p
  | p :: ps => p ++ sep ++ join sep ps
  end.

(** Comparison of two strings, code point by code point. *)
Fixpoint compare (a b : str) : comparison :=
  match a, b with
  | [], [] => Eq
  | [], _ :: _ => Lt
  | _ :: _, [] => Gt
  | x :: a', y :: b' =>
      match N.compare x y with
      | Eq => compare a' b'
      | c => c
      end
  end.

(** [re.sub(r'\s+', ' ', s)]: [in_run] tells that the previous character
    was whitespace and has already been replaced. *)
Fixpoint collapse_ws (in_run : bool) (s : str) : str :=
  match s with
  | [] => []
  | c :: s' =>
      if is_space c
      then (if in_run then collapse_ws true s' else 32 :: collapse_ws true s')
      else c :: collapse_ws false s'
  end.

(** Decimal rendering of [n] on exactly [w] digits (most significant
    digits beyond [w] are dropped), as [%0wd] does for [n < 10^w]. *)
Fixpoint digits (w : nat) (n : N) : str :=
  match w with
  | O => []
  | S w' => digits w' (n / 10) ++ [48 + n mod 10]
  end.

End PyStr.

Import PyStr.

(** ** Configuration ([config.py]) *)

Module Config.
Definition MAX_RETRIES : Z := 3.
Definition INITIAL_BACKOFF : Z := 2.
(** The glyph U+2197 shown in the name cell of a continuation row. *)
Definition CONTINUATION_LINK_MARKER : str := [8599].
End Config.

(** ** [utils.clean_text] *)

(** [clean_text]: collapse every whitespace run to one space, then strip. *)
Definition clean_text (text : str) : str :=
  match text with
  | [] => []
  | _ => strip (collapse_ws false text)
  end.


(** ** Calendar dates

    [parse_date_range] produces [datetime] values whose time of day is
    always midnight, so a value is determined by its calendar date. *)

Module Date.

Record date := mk { year : N; month : N; day : N }.

#[global] Instance date_eq_dec : EqDecision date.
Proof. solve_decision. Defined.

Definition is_leap (y : N) : bool :=
  (y mod 4 =? 0) && (negb (y mod 100 =? 0) || (y mod 400 =? 0)).

Definition days_in_month (y m : N) : N :=
  match m with
  | 1 | 3 | 5 | 7 | 8 | 10 | 12 => 31
  | 4 | 6 | 9 | 11 => 30
  | 2 => if is_leap y then 29 else 28
  | _ => 0
  end.

(** The argument check of the [datetime.date] constructor
    ([MINYEAR = 1], [MAXYEAR = 9999]); [False] stands for [ValueError]. *)
Definition valid (y m d : N) : bool :=
  (1 <=? y) && (y <=? 9999) && (1 <=? m) && (m <=? 12)
  && (1 <=? d) && (d <=? days_in_month y m).

Definition wf (x : date) : Prop := valid (year x) (month x) (day x) = true.

(** Order of two dates, as [datetime.__le__] / [__lt__]. *)
Definition compare (a b : date) : comparison :=
  match N.compare (year a) (year b) with
  | Eq => match N.compare (month a) (month b) with
          | Eq => N.compare (day a) (day b)
          | c => c
          end
  | c => c
  end.

Definition leb (a b : date) : bool :=
  match compare a b with Gt => false | _ => true end.

Definition le (a b : date) : Prop := leb a b = true.

(** [x + timedelta(days=1)]; [None] stands for the [OverflowError]
    raised past 31.12.9999. *)
Definition add_day (x : date) : option date :=
  if day x <? days_in_month (year x) (month x)
  then Some (mk (year x) (month x) (day x + 1))
  else if month x <? 12 then Some (mk (year x) (month x + 1) 1)
  else if year x <? 9999 then Some (mk (year x + 1) 1 1)
  else None.

(** The notation [DD.MM.YYYY] of a date, each field padded with zeros to
    its width.  This is what [x.strftime('%d.%m.%Y')] prints for the
    years from 1000 on; whether a smaller year is padded depends on the
    platform. *)
Definition strftime_dmY (x : date) : str :=
  digits 2 (day x) ++ [46] ++ digits 2 (month x) ++ [46] ++ digits 4 (year x).

(** [x.isoformat()] of a [datetime] at midnight. *)
Definition isoformat (x : date) : str :=
  digits 4 (year x) ++ [45] ++ digits 2 (month x) ++ [45] ++ digits 2 (day x)
  ++ lit "T00:00:00".

End Date.

Import Date.

(** ** Sign-up window normalizer ([create_calendar.parse_date_range]) *)

Module SignUp.

Definition NOT_SPECIFIED : str := lit "Not specified".
Definition DIRECT_PHRASE : str := lit "direkt beim Veranstalter".
Definition RANGE_SEP : str := lit " - ".

Section Dates.

(** The decimal value of a non-ASCII code point of Unicode category Nd
    (a table of the interpreter's Unicode database): [\d] in a [str]
    pattern and [int] accept these characters besides [0]..[9]. *)
Context (nd_value : N → option N).

Definition digit_value (c : N) : option N :=
  if (48 <=? c) && (c <=? 57) then Some (c - 48)
  else if c <? 128 then None
  else nd_value c.

Definition is_digit (c : N) : bool :=
  match digit_value c with Some _ => true | None => false end.

Definition in_range (lo hi c : N) : bool := (lo <=? c) && (c <=? hi).

(** [re.match(r'\d{2}\.\d{2}\.\d{4}', s)], returning [m.group()]. *)
Definition re_match_date (s : str) : option str :=
  match s with
  | a :: b :: p :: c :: d :: q :: e :: f :: g :: h :: _ =>
      if is_digit a && is_digit b && (p =? 46)
         && is_digit c && is_digit d && (q =? 46)
         && is_digit e && is_digit f && is_digit g && is_digit h
      then Some [a; b; p; c; d; q; e; f; g; h]
      else None
  | _ => None
  end.

(** The [%d] directive on two characters:
    [3[0-1]|[1-2]\d|0[1-9]]. *)
Definition day_field (a b : N) : option N :=
  if (a =? 51) && in_range 48 49 b then Some (30 + (b - 48))
  else if in_range 49 50 a
  then v ← digit_value b; Some (10 * (a - 48) + v)
  else if (a =? 48) && in_range 49 57 b then Some (b - 48)
  else None.

(** The [%m] directive on two characters: [1[0-2]|0[1-9]]. *)
Definition month_field (a b : N) : option N :=
  if (a =? 49) && in_range 48 50 b then Some (10 + (b - 48))
  else if (a =? 48) && in_range 49 57 b then Some (b - 48)
  else None.

(** The [%Y] directive: [\d\d\d\d], converted with [int]. *)
Definition year_field (a b c d : N) : option N :=
  va ← digit_value a; vb ← digit_value b;
  vc ← digit_value c; vd ← digit_value d;
  Some (1000 * va + 100 * vb + 10 * vc + vd).

(** [datetime.strptime(m, '%d.%m.%Y')] on a ten-character string, the
    only shape [parse_date] passes to it; [None] stands for
    [ValueError]. *)
Definition strptime_dmY (m : str) : option date :=
  match m with
  | [a; b; p; c; d; q; e; f; g; h] =>
      if (p =? 46) && (q =? 46) then
        dd ← day_field a b;
        mm ← month_field c d;
        yy ← year_field e f g h;
        if valid yy mm dd then Some (Date.mk yy mm dd) else None
      else None
  | _ => None
  end.

(** The inner function [parse_date]. *)
Definition parse_date (s : str) : option date :=
  match re_match_date (strip s) with
  | Some m =>
      match strptime_dmY m with
      | Some x => Some x
      | None => None
      end
  | None => None
  end.

(** [parse_date_range]: the argument is a cell value. *)
Definition parse_date_range (date_str : option str) : option (date * date) :=
  match date_str with
  | None => None
  | Some s =>
      if bool_decide (s = []) || bool_decide (s = NOT_SPECIFIED) then None
      else if contains DIRECT_PHRASE s then None
      else
        let s := strip s in
        if contains RANGE_SEP s then
          match split_once RANGE_SEP s with
          | Some (part0, part1) =>
              match parse_date part0, parse_date part1 with
              | Some start_date, Some end_date => Some (start_date, end_date)
              | _, _ => None
              end
          | None => None
          end
        else
          match parse_date s with
          | Some x => Some (x, x)
          | None => None
          end
  end.

(** A date component that has the [DD.MM.YYYY] shape and is rejected by
    the calendar check (day 32, 30 February, year 0000 ...). *)
Definition fails_validation (part : str) : Prop :=
  ∃ m, re_match_date (strip part) = Some m ∧ strptime_dmY m = None.

End Dates.

(** The ordering property as the specification words it: every text
    [D1 - D2] whose two parts carry a valid date yields a window with
    [start <= end]. *)
Definition range_is_ordered : Prop :=
  ∀ (nd_value : N → option N) (D1 D2 : str) (d1 d2 : date),
    parse_date nd_value D1 = Some d1 →
    parse_date nd_value D2 = Some d2 →
    ∃ start_date end_date,
      parse_date_range nd_value (Some (D1 ++ RANGE_SEP ++ D2))
        = Some (start_date, end_date)
      ∧ Date.le start_date end_date.

End SignUp.

(** ** Event grouper and spreadsheet writer ([scraper.py]) *)

Module Scraper.

(** The dictionary built by [parse_event_page] / [scrape_event_details]:
    always the same eight keys. *)
Record event_data := mk_event {
  name : str;
  age : str;
  place : str;
  date : str;
  time : str;
  sign_up_date : str;
  event_url : str;
  description : str
}.

#[global] Instance event_data_eq_dec : EqDecision event_data.
Proof. solve_decision. Defined.

(** An element of the list returned by [group_events_by_name]: the eight
    keys and the flag ['is_continuation']. *)
Record grouped_event := mk_grouped {
  data : event_data;
  is_continuation : bool
}.

#[global] Instance grouped_event_eq_dec : EqDecision grouped_event.
Proof. solve_decision. Defined.

(** *** Grouping by name *)

(** [if name not in grouped: grouped[name] = []] followed by
    [grouped[name].append(event)] on the [OrderedDict]. *)
Fixpoint od_append (n : str) (e : event_data)
    (grouped : list (str * list event_data)) : list (str * list event_data) :=
  match grouped with
  | [] => [(n, [e])]
  | (k, v) :: rest =>
      if decide (k = n) then (k, v ++ [e]) :: rest
      else (k, v) :: od_append n e rest
  end.

Definition group_loop (events_data : list event_data)
    : list (str * list event_data) :=
  foldl (λ grouped event, od_append (name event) event grouped) [] events_data.

(** *** Sort key *)

Definition sort_key : Type := str * str * str.

Definition UNKNOWN_DATE_KEY : sort_key := (lit "9999", lit "99", lit "99").

(** The inner function [parse_date_for_sort]. *)
Definition parse_date_for_sort (date_str : str) : sort_key :=
  match split_char 46 date_str with
  | [p0; p1; p2] => (p2, p1, p0)
  | _ => UNKNOWN_DATE_KEY
  end.

(** Comparison of two key tuples: the first differing component decides. *)
Definition key_compare (a b : sort_key) : comparison :=
  let '(a1, a2, a3) := a in
  let '(b1, b2, b3) := b in
  match PyStr.compare a1 b1 with
  | Eq => match PyStr.compare a2 b2 with
          | Eq => PyStr.compare a3 b3
          | c => c
          end
  | c => c
  end.

Definition key_ltb (a b : sort_key) : bool :=
  match key_compare a b with Lt => true | _ => false end.

Definition key_of (e : event_data) : sort_key := parse_date_for_sort (date e).

(** [occurrences.sort(key=...)]: the stable sort that compares keys with
    [<] only.  An element is inserted in front of an already sorted
    suffix and moves past exactly the elements with a strictly smaller
    key, so elements with equal keys keep their order. *)
Fixpoint sort_insert (x : event_data) (l : list event_data) : list event_data :=
  match l with
  | [] => [x]
  | y :: l' =>
      if key_ltb (key_of y) (key_of x) then y :: sort_insert x l'
      else x :: l
  end.

Definition sort_by_date (l : list event_data) : list event_data :=
  foldr sort_insert [] l.

(** *** Primary and continuation rows *)

Definition continuation (n : str) (event : event_data) : event_data :=
  {| name := n;
     event_url := event_url event;
     description := [];
     age := [];
     place := [];
     date := date event;
     time := time event;
     sign_up_date := sign_up_date event |}.

(** The body of [for idx, event in enumerate(occurrences)]. *)
Definition emit (n : str) (idx : nat) (event : event_data) : grouped_event :=
  if decide (idx = 0%nat) then mk_grouped event false
  else mk_grouped (continuation n event) true.

Definition emit_group (g : str * list event_data) : list grouped_event :=
  imap (emit g.1) (sort_by_date g.2).

Definition group_events_by_name (events_data : list event_data)
    : list grouped_event :=
  group_loop events_data ≫= emit_group.

(** *** Notions of the specification *)

(** The names of a list in the order in which they are first seen. *)
Fixpoint nub_first (names : list str) : list str :=
  match names with
  | [] => []
  | n :: rest => n :: filter (λ k, k ≠ n) (nub_first rest)
  end.

(** The occurrences that carry the name [n], in input order. *)
Definition named (n : str) (events_data : list event_data) : list event_data :=
  filter (λ e, name e = n) events_data.

(** The order on keys that the sort establishes: not [b < a]. *)
Definition key_le (a b : sort_key) : Prop := key_ltb b a = false.

Definition ascii_digit (c : N) : bool := (48 <=? c) && (c <=? 57).

(** A date string of the shape [DD.MM.YYYY]. *)
Definition is_ddmmyyyy (date_str : str) : bool :=
  match date_str with
  | [a; b; p; c; d; q; e; f; g; h] =>
      ascii_digit a && ascii_digit b && (p =? 46)
      && ascii_digit c && ascii_digit d && (q =? 46)
      && ascii_digit e && ascii_digit f && ascii_digit g && ascii_digit h
  | _ => false
  end.

(** *** Spreadsheet rows *)

(** The value of a worksheet cell that is not empty: a text, or a value
    of another type (a number, a truth value, a date, a time).  Of a value
    of another type the tools use the truth value [bool(v)] and the text
    [str(v)]; it is equal to no text. *)
Inductive value :=
| Text (s : str)
| Other (truth : bool) (repr : str).

#[global] Instance value_eq_dec : EqDecision value.
Proof. solve_decision. Defined.

(** The cells of one data row that the tools read or write: the values of
    the eight columns, [None] for an empty cell, and the hyperlink of the
    name cell: [None] when the cell has no hyperlink, [Some target] when
    it has one, whose target may be missing. *)
Record sheet_row := mk_row {
  col_selected : option value;
  col_event_name : option value;
  name_hyperlink : option (option str);
  col_description : option value;
  col_age : option value;
  col_place : option value;
  col_date : option value;
  col_time : option value;
  col_sign_up : option value
}.

#[global] Instance sheet_row_eq_dec : EqDecision sheet_row.
Proof. solve_decision. Defined.

(** Truth value of a text or [None]. *)
Definition truthy (c : option str) : bool :=
  match c with
  | Some (_ :: _) => true
  | _ => false
  end.

(** [bool(v)] of a cell value. *)
Definition cell_truthy (c : option value) : bool :=
  match c with
  | Some (Text s) => truthy (Some s)
  | Some (Other truth _) => truth
  | None => false
  end.

(** [str(v)] of a cell value. *)
Definition cell_str (c : option value) : str :=
  match c with
  | Some (Text s) => s
  | Some (Other _ repr) => repr
  | None => lit "None"
  end.

(** [str(v).strip()] of a cell value. *)
Definition cell_stripped (c : option value) : str := strip (cell_str c).

(** [cell.hyperlink.target if cell.hyperlink else None] *)
Definition hyperlink_target (r : sheet_row) : option str :=
  match name_hyperlink r with
  | Some target => target
  | None => None
  end.

(** The body of the row loop of [save_to_excel]: the values assigned to
    the cells of one data row and the hyperlink set on its name cell.
    [selections.get(name, '')] is the Selected value of a first row; the
    cells of a continuation row that get an alignment only stay empty. *)
Definition write_row (selections : gmap str value) (event : grouped_event)
    : sheet_row :=
  let e := data event in
  if is_continuation event then
    {| col_selected := None;
       col_event_name := Some (Text Config.CONTINUATION_LINK_MARKER);
       name_hyperlink := Some (Some (event_url e));
       col_description := None;
       col_age := None;
       col_place := None;
       col_date := Some (Text (date e));
       col_time := Some (Text (time e));
       col_sign_up := Some (Text (sign_up_date e)) |}
  else
    {| col_selected := Some (default (Text []) (selections !! name e));
       col_event_name := Some (Text (name e));
       name_hyperlink := Some (Some (event_url e));
       col_description := Some (Text (description e));
       col_age := Some (Text (age e));
       col_place := Some (Text (place e));
       col_date := Some (Text (date e));
       col_time := Some (Text (time e));
       col_sign_up := Some (Text (sign_up_date e)) |}.

(** The data rows (row 2 onwards) that the row loop of [save_to_excel]
    fills. *)
Definition data_rows (events_data : list event_data)
    (selections : gmap str value) : list sheet_row :=
  write_row selections <$> group_events_by_name events_data.

(** The values assigned to the cells of a row. *)
Definition assigned (r : sheet_row) : list value :=
  omap id [col_selected r; col_event_name r; col_description r; col_age r;
           col_place r; col_date r; col_time r; col_sign_up r].

Section Workbook.

(** Whether the assignment of a value to a cell returns: the workbook
    library raises for a text with certain control characters. *)
Context (accepts : value → bool).
(** Whether [os.makedirs] and [wb.save] return for a sheet with these
    data rows. *)
Context (wb_save : list sheet_row → bool).

(** [save_to_excel]: the data rows of the sheet that is written, or
    [None] when an exception leaves the function and no sheet is
    written. *)
Definition save_to_excel (events_data : list event_data)
    (selections : gmap str value) : option (list sheet_row) :=
  let rows := data_rows events_data selections in
  if forallb (λ r, forallb accepts (assigned r)) rows && wb_save rows
  then Some rows
  else None.

End Workbook.

(** [load_existing_selections]: [None] is a missing file or a file that
    cannot be read.  The result holds the entries of the dictionary whose
    key is a text: [save_to_excel] looks up event names, which are texts,
    and a value of another type is equal to no text. *)
Definition load_existing_selections (sheet : option (list sheet_row))
    : gmap str value :=
  match sheet with
  | None => ∅
  | Some rows =>
      foldl (λ selections r,
               if cell_truthy (col_event_name r) && cell_truthy (col_selected r)
                  && truthy (Some (cell_stripped (col_selected r)))
               then match col_event_name r, col_selected r with
                    | Some (Text event_name), Some selected =>
                        <[event_name := selected]> selections
                    | _, _ => selections
                    end
               else selections) ∅ rows
  end.

End Scraper.

(** ** Fetch with retry ([utils.make_request_with_retry]) *)

Module Retry.

(** The exceptions the handlers distinguish, each with its message
    [str(e)]: [Timeout] and [HTTPError] are subclasses of
    [RequestException]; [RequestException] here is any other member of
    that hierarchy; [OtherError] is an exception outside of it. *)
Inductive exn :=
| Timeout (msg : str)
| HTTPError (status_code : Z) (msg : str)
| RequestException (msg : str)
| OtherError (msg : str).

Definition exn_str (e : exn) : str :=
  match e with
  | Timeout m | HTTPError _ m | RequestException m | OtherError m => m
  end.

(** What one [requests.get(...)] followed by [raise_for_status()] does. *)
Inductive outcome :=
| Response (text : str)
| Fails (e : exn).

Inductive result :=
| Returned (text : str)
| Raised (e : exn).

(** The observable calls of one invocation, in order. *)
Inductive call :=
| Get (url : str)
| Sleep (seconds : Z).

#[global] Instance call_eq_dec : EqDecision call.
Proof. solve_decision. Defined.

(** [str(n)] of an integer. *)
Definition int_str (n : Z) : str :=
  lit (DecimalString.NilZero.string_of_int (Z.to_int n)).

(** [time.sleep(seconds)] followed by [k]; a negative argument makes
    [time.sleep] raise [ValueError]. *)
Definition sleep (seconds : Z) (k : list call * result) : list call * result :=
  if (seconds <? 0)%Z
  then ([], Raised (OtherError (lit "sleep length must be non-negative")))
  else (Sleep seconds :: k.1, k.2).

Section Loop.

Context (url : str) (max_retries delay : Z).
(** [env i] is the outcome of the request made by attempt [i]. *)
Context (env : nat → outcome).

(** The [for attempt in range(max_retries)] loop with [remaining]
    iterations to go, and the [raise] after it. *)
Fixpoint attempt_loop (remaining : nat) (attempt : Z) : list call * result :=
  match remaining with
  | O =>
      ([], Raised (RequestException
                     (lit "Failed to fetch " ++ url ++ lit " after "
                      ++ int_str max_retries ++ lit " attempts")))
  | S remaining' =>
      let next := attempt_loop remaining' (attempt + 1)%Z in
      let handled :=
        match env (Z.to_nat attempt) with
        | Response text => ([], Returned text)
        | Fails (Timeout m) =>
            if (attempt <? max_retries - 1)%Z
            then sleep (delay * 2 ^ attempt)%Z next
            else ([], Raised (Timeout m))
        | Fails (HTTPError status_code m) =>
            if (status_code =? 429)%Z || (status_code =? 503)%Z
            then sleep (delay * 2)%Z
                       (if (attempt <? max_retries - 1)%Z then next
                        else ([], Raised (HTTPError status_code m)))
            else ([], Raised (HTTPError status_code m))
        | Fails (RequestException m) =>
            if (attempt <? max_retries - 1)%Z
            then sleep delay next
            else ([], Raised (RequestException m))
        | Fails (OtherError m) => ([], Raised (OtherError m))
        end in
      (Get url :: handled.1, handled.2)
  end.

Definition make_request_with_retry : list call * result :=
  attempt_loop (Z.to_nat max_retries) 0%Z.

End Loop.

(** The requests and the waits of a trace. *)
Definition is_get (c : call) : bool :=
  match c with Get _ => true | Sleep _ => false end.

Definition attempts (t : list call) : nat :=
  length (filter (λ c, is_get c = true) t).

Definition waits (t : list call) : list Z :=
  omap (λ c, match c with Sleep s => Some s | Get _ => None end) t.

End Retry.

(** ** Detail parser ([utils.extract_field_by_header],
       [scraper.parse_event_page], [scraper.scrape_event_details]) *)

Module Detail.

Import Scraper.

(** The part of the parsed-document library the detail parser calls.
    [tag] is an element, [node] any page element (element or string).
    [find_all s n] lists the elements named [n] in document order, so
    [s.find(n)] is its head; [find_next_siblings t] lists the sibling
    elements after [t], nearest first, so [t.find_next_sibling()] is its
    head and repeating [find_next_sibling] walks down this list;
    [node_get_text] is [None] for a page element without [get_text]. *)
Class Bs4 (soup tag node : Type) := {
  find_all : soup → str → list tag;
  tag_name : tag → str;
  get_text : tag → str;
  find_next_siblings : tag → list tag;
  next_siblings : tag → list node;
  node_name : node → option str;
  node_get_text : node → option str
}.

Definition NO_DESCRIPTION : str := lit "No description available".
Definition DIRECT_REGISTRATION : str :=
  lit "Die Anmeldung erfolgt direkt beim Veranstalter.".
Definition ERROR_PREFIX : str := lit "ERROR: ".
Definition FAILED_PREFIX : str := lit "Scraping failed: ".

(** What [BeautifulSoup(html_content, 'html.parser')] does: it returns
    the parsed document, or it raises because the parser rejects the
    markup; [msg] is the text [str(e)] of the exception. *)
Inductive parse (soup : Type) :=
| Parsed (s : soup)
| Rejected (msg : str).

Arguments Parsed {soup} s.
Arguments Rejected {soup} msg.

(** What [parse_event_page] does: it returns a record, or the exception of
    the parser leaves it. *)
Inductive page_result :=
| Page (r : event_data)
| PageError (msg : str).

Section Parser.

Context `{Bs4 soup tag node}.
(** [BeautifulSoup(html_content, 'html.parser')] and [str.lower]. *)
Context (html_parser : str → parse soup) (lower : str → str).

(** The header that a label selects: [header_text.lower() in
    header.get_text().lower()]. *)
Definition header_matches (header_text : str) (header : tag) : bool :=
  contains (lower header_text) (lower (get_text header)).

(** The texts gathered from [header.next_siblings] up to the next
    [h3]. *)
Fixpoint sibling_content (siblings : list node) : list str :=
  match siblings with
  | [] => []
  | sibling :: rest =>
      if bool_decide (node_name sibling = Some (lit "h3")) then []
      else match node_get_text sibling with
           | Some t => t :: sibling_content rest
           | None => sibling_content rest
           end
  end.

(** The [for header in headers] loop of [extract_field_by_header]. *)
Fixpoint header_loop (header_text : str) (headers : list tag) : str :=
  match headers with
  | [] => []
  | header :: rest =>
      if header_matches header_text header then
        match find_next_siblings header with
        | next_elem :: _ => clean_text (get_text next_elem)
        | [] =>
            match sibling_content (next_siblings header) with
            | [] => header_loop header_text rest
            | content => clean_text (join (lit " ") content)
            end
        end
      else header_loop header_text rest
  end.

Definition extract_field_by_header (s : soup) (header_text : str) : str :=
  header_loop header_text (find_all s (lit "h3")).

(** The [while current] walk over the siblings after the title. *)
Fixpoint description_after_title (siblings : list tag) : str :=
  match siblings with
  | [] => []
  | current :: rest =>
      if bool_decide (tag_name current = lit "h3") then []
      else if bool_decide (tag_name current = lit "p")
      then let text := clean_text (get_text current) in
           if (50 <? length text)%nat then text
           else description_after_title rest
      else description_after_title rest
  end.

(** The fallback [for p in paragraphs] loop. *)
Fixpoint first_substantial (paragraphs : list tag) : str :=
  match paragraphs with
  | [] => []
  | p :: rest =>
      let text := clean_text (get_text p) in
      if (50 <? length text)%nat then text else first_substantial rest
  end.

Definition nonempty (s : str) : bool :=
  match s with [] => false | _ => true end.

(** Step 6 of [parse_event_page]: the sign-up text. *)
Definition extract_sign_up (s : soup) : str :=
  let anmeldebeginn := extract_field_by_header s (lit "Anmeldebeginn") in
  let sign_up :=
    if nonempty anmeldebeginn
       && contains (lit "Verlosungszeitraum") anmeldebeginn
    then
      let sign_up :=
        match split_once (lit ":") anmeldebeginn with
        | Some (_, rest) => strip rest
        | None => anmeldebeginn
        end in
      replace (lit " bis ") (lit " - ") sign_up
    else [] in
  let sign_up :=
    if nonempty sign_up then sign_up
    else
      let anmeldung := extract_field_by_header s (lit "Anmeldung") in
      if nonempty anmeldung && contains SignUp.DIRECT_PHRASE anmeldung
      then DIRECT_REGISTRATION
      else sign_up in
  if nonempty sign_up then sign_up else SignUp.NOT_SPECIFIED.

(** Step 8 of [parse_event_page]: the description. *)
Definition extract_description (s : soup) (h2 : option tag) : str :=
  let description :=
    match h2 with
    | Some t => description_after_title (find_next_siblings t)
    | None => []
    end in
  let description :=
    if nonempty description then description
    else first_substantial (find_all s (lit "p")) in
  if nonempty description then description else NO_DESCRIPTION.

(** The [try] block of [parse_event_page]: the record filled from a
    parsed document.  The calls of the interface return a value on every
    parsed document, so the handler of the block, which keeps the record
    as it is filled when a call raises, has nothing to catch here. *)
Definition extract_event_data (s : soup) (event_url : str) : event_data :=
  let h2 := head (find_all s (lit "h2")) in
  {| name := match h2 with
             | Some t => clean_text (get_text t)
             | None => []
             end;
     age := extract_field_by_header s (lit "Alter");
     place := extract_field_by_header s (lit "Treffpunkt");
     date := extract_field_by_header s (lit "Datum");
     time := extract_field_by_header s (lit "Uhrzeit");
     sign_up_date := extract_sign_up s;
     event_url := event_url;
     description := extract_description s h2 |}.

(** [parse_event_page]: the document is parsed before the [try] block,
    so an exception of the parser leaves the function. *)
Definition parse_event_page (html_content event_url : str) : page_result :=
  match html_parser html_content with
  | Parsed s => Page (extract_event_data s event_url)
  | Rejected msg => PageError msg
  end.

(** The record of the [except] branch of [scrape_event_details]; [msg]
    is the text [str(e)] of the exception caught. *)
Definition error_record (event_url listing_date msg : str) : event_data :=
  {| name := ERROR_PREFIX ++ event_url;
     age := [];
     place := [];
     date := listing_date;
     time := [];
     sign_up_date := [];
     event_url := event_url;
     description := FAILED_PREFIX ++ msg |}.

(** [scrape_event_details]: [env] gives the outcome of each request.  The
    fetch and the parse stand in one [try] block, whose handler returns
    the record with the error marker. *)
Definition scrape_event_details (env : nat → Retry.outcome)
    (event_url listing_date : str) : event_data :=
  match (Retry.make_request_with_retry event_url Config.MAX_RETRIES
           Config.INITIAL_BACKOFF env).2 with
  | Retry.Returned text =>
      match parse_event_page text event_url with
      | Page event_data =>
          if negb (nonempty (date event_data)) && nonempty listing_date
          then {| name := name event_data;
                  age := age event_data;
                  place := place event_data;
                  date := listing_date;
                  time := time event_data;
                  sign_up_date := sign_up_date event_data;
                  event_url := Scraper.event_url event_data;
                  description := description event_data |}
          else event_data
      | PageError msg => error_record event_url listing_date msg
      end
  | Retry.Raised e => error_record event_url listing_date (Retry.exn_str e)
  end.

(** *** Notions of the specification *)

(** The document has no section for a label: no [h3] heading contains it. *)
Definition no_section (s : soup) (header_text : str) : Prop :=
  Forall (λ header, header_matches header_text header = false)
         (find_all s (lit "h3")).

Definition substantial (p : tag) : Prop :=
  (50 < length (clean_text (get_text p)))%nat.

(** The document has no description: no paragraph, among the elements
    after the title or anywhere in the document, has a text of more than
    50 characters. *)
Definition no_description (s : soup) : Prop :=
  Forall (λ p, ¬ substantial p) (find_all s (lit "p"))
  ∧ ∀ h2, head (find_all s (lit "h2")) = Some h2 →
          Forall (λ p, tag_name p = lit "p" → ¬ substantial p)
                 (find_next_siblings h2).

End Parser.

(** *** A document with one level of elements

    A simple instance of the interface, used to run the parser: the
    document is the sequence of its top-level elements, each given by its
    name and its text; an element is located by the elements after it. *)
Module Flat.

Definition flat_soup : Type := list (str * str).
Record flat_tag := mk_tag {
  ft_name : str;
  ft_text : str;
  ft_rest : list (str * str)
}.

Fixpoint locate (doc : list (str * str)) : list flat_tag :=
  match doc with
  | [] => []
  | (n, t) :: rest => mk_tag n t rest :: locate rest
  end.

#[global] Instance flat_bs4 : Bs4 flat_soup flat_tag flat_tag := {|
  find_all s n := filter (λ t, ft_name t = n) (locate s);
  tag_name := ft_name;
  get_text := ft_text;
  find_next_siblings t := locate (ft_rest t);
  next_siblings t := locate (ft_rest t);
  node_name t := Some (ft_name t);
  node_get_text t := Some (ft_text t)
|}.

(** [str.lower] on ASCII letters. *)
Definition ascii_lower (s : str) : str :=
  (λ c, if (65 <=? c) && (c <=? 90) then c + 32 else c) <$> s.

(** A parser that reads every text as the document [doc]. *)
Definition reads_as (doc : flat_soup) (html_content : str) : parse flat_soup :=
  Parsed doc.

(** A parser that rejects the text [<![x[], an unfinished marked section,
    and reads every other text as the document [doc]. *)
Definition UNFINISHED_SECTION : str := lit "<![x[".

Definition strict (doc : flat_soup) (html_content : str) : parse flat_soup :=
  if bool_decide (html_content = UNFINISHED_SECTION)
  then Rejected (lit "The markup you provided was rejected by the parser.")
  else Parsed doc.

End Flat.

(** The contract of the detail parser as the specification words it: for
    every markup string and URL it returns a record and does not raise. *)
Definition parser_never_raises : Prop :=
  ∀ (html_parser : str → parse Flat.flat_soup) (lower : str → str)
    (html_content event_url : str),
    ∃ r, parse_event_page html_parser lower html_content event_url = Page r.

End Detail.

(** ** Calendar export ([create_calendar.create_calendar_events]) *)

Module Calendar.

Import Scraper.

Definition UID_SUFFIX : str := lit "@familienpass".
Definition SUMMARY_PREFIX : str := lit "Anmeldung Familienpass: ".

(** The [VALARM] component added to every entry. *)
Record alarm := mk_alarm {
  alarm_action : str;
  alarm_trigger_days : Z;
  alarm_description : str
}.

(** One [VEVENT] of the calendar, without its [dtstamp], which is the
    wall-clock time of the run. *)
Record vevent := mk_vevent {
  summary : str;
  dtstart : Date.date;
  dtend : Date.date;
  uid : str;
  url : option str;
  valarm : alarm
}.

(** The variables the row loop updates. *)
Record state := mk_state {
  cal : list vevent;
  events_created : nat;
  events_skipped : nat;
  current_selected_event : option value;
  current_event_url : option str
}.

Definition initial_state : state := mk_state [] 0 0 None None.

(** [not event_name or str(event_name).strip() in ('', MARKER)] *)
Definition is_continuation_row (r : sheet_row) : bool :=
  negb (cell_truthy (col_event_name r))
  || bool_decide (cell_stripped (col_event_name r) = [])
  || bool_decide (cell_stripped (col_event_name r) = Config.CONTINUATION_LINK_MARKER).

(** [selected and str(selected).strip() != ''] *)
Definition is_selected (r : sheet_row) : bool :=
  cell_truthy (col_selected r)
  && negb (bool_decide (cell_stripped (col_selected r) = [])).

Section RowLoop.

Context (nd_value : N → option N).
(** [hashlib.sha256(s.encode()).hexdigest()] *)
Context (sha256_hexdigest : str → str).

(** [parse_date_range] on the value of a Sign-Up cell.  On an empty cell
    and on a text it is [SignUp.parse_date_range].  A value of another
    type that is false is taken for a missing text by the first test of
    the function; one that is true passes that test, and the [in] of the
    next one raises [TypeError], for which [None] stands. *)
Definition parse_date_range_cell (c : option value)
    : option (option (Date.date * Date.date)) :=
  match c with
  | None => Some (SignUp.parse_date_range nd_value None)
  | Some (Text s) => Some (SignUp.parse_date_range nd_value (Some s))
  | Some (Other truth _) => if truth then None else Some None
  end.

(** The stable identifier of an entry. *)
Definition make_uid (event : str) (start_date end_date : Date.date) : str :=
  let uid_source :=
    event ++ lit "-" ++ Date.isoformat start_date
          ++ lit "-" ++ Date.isoformat end_date in
  take 32 (sha256_hexdigest uid_source) ++ UID_SUFFIX.

(** The entry built for one occurrence; [None] stands for the
    [OverflowError] of [end_date + timedelta(days=1)]. *)
Definition make_event (event : str) (row_url : option str)
    (start_date end_date : Date.date) : option vevent :=
  match Date.add_day end_date with
  | Some next_day =>
      Some {| summary := SUMMARY_PREFIX ++ event;
              dtstart := start_date;
              dtend := next_day;
              uid := make_uid event start_date end_date;
              url := if truthy row_url then row_url else None;
              valarm := mk_alarm (lit "DISPLAY") 0 (SUMMARY_PREFIX ++ event) |}
  | None => None
  end.

(** The body of the row loop; [None] stands for an exception leaving the
    function.  The name of the selected event is kept as the value of its
    cell and enters the entry as [str(v)]. *)
Definition step (st : state) (r : sheet_row) : option state :=
  let is_continuation := is_continuation_row r in
  let st :=
    if negb is_continuation then
      if is_selected r
      then mk_state (cal st) (events_created st) (events_skipped st)
                    (col_event_name r) (hyperlink_target r)
      else mk_state (cal st) (events_created st) (events_skipped st) None None
    else st in
  if cell_truthy (current_selected_event st) then
    let event := cell_str (current_selected_event st) in
    let row_url :=
      if is_continuation && bool_decide (is_Some (name_hyperlink r))
      then hyperlink_target r
      else current_event_url st in
    match parse_date_range_cell (col_sign_up r) with
    | None => None
    | Some None =>
        Some (mk_state (cal st) (events_created st) (S (events_skipped st))
                       (current_selected_event st) (current_event_url st))
    | Some (Some (start_date, end_date)) =>
        match make_event event row_url start_date end_date with
        | Some entry =>
            Some (mk_state (cal st ++ [entry]) (S (events_created st))
                           (events_skipped st)
                           (current_selected_event st) (current_event_url st))
        | None => None
        end
    end
  else Some st.

(** The row loop over the data rows of the sheet. *)
Fixpoint run (st : state) (rows : list sheet_row) : option state :=
  match rows with
  | [] => Some st
  | r :: rest =>
      match step st r with
      | Some st' => run st' rest
      | None => None
      end
  end.

(** [create_calendar_events]: the calendar and the two counters at the end
    of the loop.  The calendar file is written when [events_created] is
    positive. *)
Definition create_calendar_events (rows : list sheet_row) : option state :=
  run initial_state rows.

(** *** The export as the specification describes it *)

(** The row that owns the row [r] coming after the rows [before]: the
    nearest row, [r] included, that is not a continuation row. *)
Definition owner (before : list sheet_row) (r : sheet_row) : option sheet_row :=
  head (filter (λ x, is_continuation_row x = false) (r :: reverse before)).

(** The hyperlink recorded for an entry. *)
Definition entry_url (p r : sheet_row) : option str :=
  if is_continuation_row r && bool_decide (is_Some (name_hyperlink r))
  then hyperlink_target r
  else hyperlink_target p.

(** The sign-up window of a row, if its Sign-Up cell holds one. *)
Definition window (r : sheet_row) : option (Date.date * Date.date) :=
  match parse_date_range_cell (col_sign_up r) with
  | Some w => w
  | None => None
  end.

(** A row that makes the export raise when it belongs to a selected
    event: its Sign-Up cell holds a value that is not a text and is true,
    or a window that ends on 31.12.9999, after which there is no day. *)
Definition row_raises (r : sheet_row) : bool :=
  match parse_date_range_cell (col_sign_up r) with
  | None => true
  | Some (Some (_, end_date)) => bool_decide (end_date = Date.mk 9999 12 31)
  | Some None => false
  end.

(** The entry demanded for the row [r] coming after the rows [before],
    where [chosen] tells whether an owning row counts as selected. *)
Definition expected_entry (chosen : sheet_row → bool)
    (before : list sheet_row) (r : sheet_row) : option vevent :=
  p ← owner before r;
  let event := cell_str (col_event_name p) in
  if chosen p then
    '(start_date, end_date) ← window r;
    next_day ← Date.add_day end_date;
    Some {| summary := SUMMARY_PREFIX ++ event;
            dtstart := start_date;
            dtend := next_day;
            uid := make_uid event start_date end_date;
            url := if truthy (entry_url p r) then entry_url p r else None;
            valarm := mk_alarm (lit "DISPLAY") 0 (SUMMARY_PREFIX ++ event) |}
  else None.

(** Whether the row [r] is counted as skipped. *)
Definition expected_skip (chosen : sheet_row → bool)
    (before : list sheet_row) (r : sheet_row) : bool :=
  match owner before r with
  | Some p => chosen p && negb (bool_decide (is_Some (window r)))
  | None => false
  end.

(** Every row of a sheet together with the rows before it. *)
Fixpoint positions (before rows : list sheet_row)
    : list (list sheet_row * sheet_row) :=
  match rows with
  | [] => []
  | r :: rest => (before, r) :: positions (before ++ [r]) rest
  end.




(** The last row of [before] that is not a continuation row. *)
Definition last_primary (before : list sheet_row) : option sheet_row :=
  head (filter (λ x, is_continuation_row x = false) (reverse before)).

(** Whether the row [r], coming after the rows [before], belongs to a
    selected event: its owning row has a Selected value that is not
    blank. *)
Definition owned_by_selected (before : list sheet_row) (r : sheet_row) : bool :=
  match owner before r with
  | Some p => is_selected p
  | None => false
  end.

(** Whether the row belongs to a selected event and makes the export
    raise. *)
Definition raises (before : list sheet_row) (r : sheet_row) : bool :=
  owned_by_selected before r && row_raises r.

(** What the two loop variables hold after the rows [before]. *)
Definition loop_invariant (before : list sheet_row) (st : state) : Prop :=
  current_selected_event st
    = (p ← last_primary before; if is_selected p then col_event_name p else None)
  ∧ current_event_url st
    = (p ← last_primary before; if is_selected p then hyperlink_target p else None)
  ∧ events_created st = length (cal st).

End RowLoop.


End Calendar.

(** ** Sample data *)

Module Samples.

Import Scraper.

Definition ferienlager (date_str url : string) : event_data :=
  {| name := lit "Ferienlager";
     age := lit "6-10";
     place := lit "Jugendzeltplatz";
     date := lit date_str;
     time := lit "09:00 - 16:00";
     sign_up_date := lit "01.05.2024 - 10.05.2024";
     event_url := lit url;
     description := lit "Eine Woche Zeltlager am See." |}.

Definition untitled (date_str url about : string) : event_data :=
  {| name := [];
     age := lit "ab 8";
     place := lit "Rathaus";
     date := lit date_str;
     time := lit "14:00";
     sign_up_date := lit "Not specified";
     event_url := lit url;
     description := lit about |}.

Definition zoo_besuch : event_data :=
  {| name := lit "Zoo Besuch";
     age := lit "4-12";
     place := lit "Tierpark";
     date := lit "20.07.2024";
     time := lit "10:00";
     sign_up_date := lit "01.06.2024 - 15.06.2024";
     event_url := lit "/event/7";
     description := lit "Ein Tag im Tierpark Hellabrunn." |}.

(** A data row of a sheet with the given Selected, Event Name and Sign-Up
    Period cells, linked to [/event/7]. *)
Definition sheet_line (selected event_name sign_up : option str) : sheet_row :=
  {| col_selected := Text <$> selected;
     col_event_name := Text <$> event_name;
     name_hyperlink := Some (Some (lit "/event/7"));
     col_description := None;
     col_age := None;
     col_place := None;
     col_date := Some (Text (lit "20.07.2024"));
     col_time := Some (Text (lit "10:00"));
     col_sign_up := Text <$> sign_up |}.

(** The same row with a Sign-Up cell that holds a number or a date: a
    value that is not a text and is true. *)
Definition sheet_line_with (selected event_name : option str) (sign_up : value)
    : sheet_row :=
  {| col_selected := Text <$> selected;
     col_event_name := Text <$> event_name;
     name_hyperlink := Some (Some (lit "/event/7"));
     col_description := None;
     col_age := None;
     col_place := None;
     col_date := Some (Text (lit "20.07.2024"));
     col_time := Some (Text (lit "10:00"));
     col_sign_up := Some sign_up |}.

(** A number and a date as cell values. *)
Definition number_45413 : value := Other true (lit "45413").
Definition date_2024_05_01 : value := Other true (lit "2024-05-01 00:00:00").
Definition number_0 : value := Other false (lit "0").

(** No non-ASCII digits, and a stand-in for the digest. *)
Definition ascii_digits : N → option N := λ _, None.
Definition plain_digest : str → str := λ s, s.

End Samples.

(** * create_reminder.py: [read_selected_events] *)

Module Reminder.

Import Scraper.

Definition TITLE_PREFIX : str := lit "Anmeldung Familienpass: ".

(** One dict of the list [read_selected_events] returns. *)
Record reminder := mk_reminder {
  title : str;
  url : option str;
  sign_up_period : option value;
  date : str;
  time : str;
  start_date : Date.date
}.

(** The variables the row loop updates. *)
Record state := mk_state {
  events : list reminder;
  current_selected_event : option value;
  current_event_url : option str
}.

Definition initial_state : state := mk_state [] None None.

(** [cell.value or ''] *)
Definition value_or_empty (c : option value) : option value :=
  if cell_truthy c then c else Some (Text []).

Section RowLoop.

Context (nd_value : N → option N).

(** The body of the row loop; [None] stands for an exception leaving the
    function, which [parse_date_range] raises on a Sign-Up cell holding a
    value that is not a text and is true.  The tests on the name and on
    the Selected cell are the expressions of the calendar export, written
    out again in this file. *)
Definition step (st : state) (r : sheet_row) : option state :=
  let is_continuation := Calendar.is_continuation_row r in
  let st :=
    if negb is_continuation then
      if Calendar.is_selected r
      then mk_state (events st) (col_event_name r) (hyperlink_target r)
      else mk_state (events st) None None
    else st in
  if cell_truthy (current_selected_event st) then
    let row_url :=
      if is_continuation && bool_decide (is_Some (name_hyperlink r))
      then hyperlink_target r
      else current_event_url st in
    let sign_up_period := col_sign_up r in
    match Calendar.parse_date_range_cell nd_value sign_up_period with
    | None => None
    | Some None => Some st
    | Some (Some (start_date, _)) =>
        let event_date := value_or_empty (col_date r) in
        let event_time := value_or_empty (col_time r) in
        Some (mk_state
                (events st ++
                   [ {| title := TITLE_PREFIX ++ cell_str (current_selected_event st);
                        url := row_url;
                        sign_up_period := sign_up_period;
                        date := cell_stripped event_date;
                        time := cell_stripped event_time;
                        start_date := start_date |} ])
                (current_selected_event st) (current_event_url st))
    end
  else Some st.

(** The row loop over the data rows of the sheet. *)
Fixpoint run (st : state) (rows : list sheet_row) : option state :=
  match rows with
  | [] => Some st
  | r :: rest =>
      match step st r with
      | Some st' => run st' rest
      | None => None
      end
  end.

(** [read_selected_events]: the reminders of the data rows of the sheet,
    in row order. *)
Definition read_selected_events (rows : list sheet_row) : option (list reminder) :=
  events <$> run initial_state rows.

End RowLoop.

End Reminder.

(** * scraper.py: the listing pages and the whole run *)

Module Listing.

Definition BASE_URL : str :=
  lit "https://veranstaltungen.muenchen.de/ferienangebote-familienpass/familienpassangebote/".
Definition TOTAL_PAGES : Z := 4.
Definition SITE_ROOT : str := lit "https://veranstaltungen.muenchen.de".
Definition HTTP_PREFIX : str := lit "http".
Definition PAGE_PARAM : str := lit "?pno=".

(** The calls [parse_listing_page] makes on a parsed listing page. *)
Class Bs4Table (soup table row cell link : Type) := {
  (* [soup.find_all('table', class_='events-table')] *)
  find_tables : soup → list table;
  (* [table.find_all('tr')] *)
  find_rows : table → list row;
  (* [row.find_all('td')] *)
  find_cells : row → list cell;
  (* [cell.get_text()] *)
  cell_text : cell → str;
  (* [cell.find('a')] *)
  find_link : cell → option link;
  (* [link.get('href')] *)
  href : link → option str
}.

(** What a run does that can be observed from outside: the calls of the
    fetches, [time.sleep(DELAY_BETWEEN_PAGES)] and
    [time.sleep(DELAY_BETWEEN_EVENTS)]. *)
Inductive action :=
| Call (c : Retry.call)
| PageDelay
| EventDelay.

#[global] Instance action_eq_dec : EqDecision action.
Proof. solve_decision. Defined.

Section Pages.

Context `{Bs4Table soup table row cell link}.
(** [BeautifulSoup(html_content, 'html.parser')] and
    [urllib.parse.urljoin].  A page text that the parser rejects stands
    here for a document without event tables: the one caller,
    [get_all_event_urls], catches the exception of the parser and takes
    no entry from the page. *)
Context (html_parser : str → soup) (urljoin : str → str → str).

(** The body of the loop over the rows of a table: the tuple it appends,
    if any. *)
Definition row_entry (r : row) : option (str * str) :=
  match find_cells r with
  | cell0 :: cell1 :: _ =>
      let date_text := clean_text (cell_text cell0) in
      match find_link cell1 with
      | Some a =>
          match href a with
          | Some event_url =>
              if Scraper.truthy (Some event_url) then
                let event_url :=
                  if negb (starts_with HTTP_PREFIX event_url)
                  then urljoin SITE_ROOT event_url
                  else event_url in
                Some (event_url, date_text)
              else None
          | None => None
          end
      | None => None
      end
  | _ => None
  end.

(** [parse_listing_page] *)
Definition parse_listing_page (html_content : str) : list (str * str) :=
  let soup := html_parser html_content in
  let tables := find_tables soup in
  match tables with
  | [] => []
  | _ => tables ≫= (λ t, omap row_entry (drop 1 (find_rows t)))
  end.

(** The address of the listing page [page_num]. *)
Definition page_url (base_url : str) (page_num : Z) : str :=
  if (page_num =? 1)%Z then base_url
  else base_url ++ PAGE_PARAM ++ Retry.int_str page_num.

Section Walk.

Context (base_url : str) (total_pages : Z).
(** [env page_num i] is the outcome of the request made by attempt [i]
    for the page [page_num]. *)
Context (env : Z → nat → Retry.outcome).

(** The fetch of one page. *)
Definition fetch_page (page_num : Z) : list Retry.call * Retry.result :=
  Retry.make_request_with_retry (page_url base_url page_num)
    Config.MAX_RETRIES Config.INITIAL_BACKOFF (env page_num).

(** The [for page_num in range(1, total_pages + 1)] loop with
    [remaining] iterations to go. *)
Fixpoint page_loop (remaining : nat) (page_num : Z)
    : list action * list (str * str) :=
  match remaining with
  | O => ([], [])
  | S remaining' =>
      let fetched := fetch_page page_num in
      let events :=
        match fetched.2 with
        | Retry.Returned text => parse_listing_page text
        | Retry.Raised _ => []
        end in
      let pause := if (page_num <? total_pages)%Z then [PageDelay] else [] in
      let rest := page_loop remaining' (page_num + 1)%Z in
      ((Call <$> fetched.1) ++ pause ++ rest.1, events ++ rest.2)
  end.

(** [get_all_event_urls]: the trace of the run and the list returned. *)
Definition get_all_event_urls : list action * list (str * str) :=
  page_loop (Z.to_nat total_pages) 1%Z.

End Walk.

End Pages.

(** A document model on which the calls above can be run: a page is the
    list of its event tables, a table the list of its rows, a row the list
    of its cells, and a cell has a text and, if it holds a link, the
    [href] of the link when that is set. *)
Module Nested.

Record nested_cell := mk_cell {
  nc_text : str;
  nc_link : option (option str)
}.

Definition nested_row : Type := list nested_cell.
Definition nested_table : Type := list nested_row.
Definition nested_soup : Type := list nested_table.

#[global] Instance nested_bs4
    : Bs4Table nested_soup nested_table nested_row nested_cell (option str) := {|
  find_tables s := s;
  find_rows t := t;
  find_cells r := r;
  cell_text := nc_text;
  find_link := nc_link;
  href a := a
|}.

End Nested.

End Listing.

Module Pipeline.

Import Scraper Listing.

Section Run.

Context `{Bs4Table soup table row cell link}.
Context `{Detail.Bs4 dsoup tag node}.
Context (listing_parser : str → soup) (urljoin : str → str → str).
Context (html_parser : str → Detail.parse dsoup) (lower : str → str).
(** The outcomes of the requests for the listing pages and for the event
    pages, the latter by the position of the event in the listing. *)
Context (page_env : Z → nat → Retry.outcome).
Context (event_env : nat → nat → Retry.outcome).
(** Whether a cell takes a value, and whether the file is written. *)
Context (accepts : value → bool) (wb_save : list sheet_row → bool).

(** Step 2 of [main] with [remaining] entries of [total] to go. *)
Fixpoint scrape_loop (total : nat) (idx : nat) (event_urls : list (str * str))
    : list action * list event_data :=
  match event_urls with
  | [] => ([], [])
  | (url, listing_date) :: rest =>
      let fetched :=
        Retry.make_request_with_retry url Config.MAX_RETRIES
          Config.INITIAL_BACKOFF (event_env (pred idx)) in
      let event_data :=
        Detail.scrape_event_details html_parser lower (event_env (pred idx))
          url listing_date in
      let pause := if (idx <? total)%nat then [EventDelay] else [] in
      let rest := scrape_loop total (S idx) rest in
      ((Call <$> fetched.1) ++ pause ++ rest.1, event_data :: rest.2)
  end.

(** [main], given the sheet of the last run if there is one: the trace,
    and the data rows of the sheet written; [None] is an exit with status
    1 without a sheet, taken when no listing entry was found and when an
    exception leaves [save_to_excel]. *)
Definition main (existing : option (list sheet_row))
    : list action * option (list sheet_row) :=
  let listed := get_all_event_urls listing_parser urljoin BASE_URL TOTAL_PAGES page_env in
  let event_urls := listed.2 in
  match event_urls with
  | [] => (listed.1, None)
  | _ =>
      let scraped := scrape_loop (length event_urls) 1 event_urls in
      let existing_selections := load_existing_selections existing in
      (listed.1 ++ scraped.1,
       save_to_excel accepts wb_save scraped.2 existing_selections)
  end.

End Run.

End Pipeline.

(** Sample pages for runs of the whole scrape: a listing page with one
    event table of a header row and one event row, and a detail page with
    a title only. *)
Module RunSamples.

Definition listing_page : Listing.Nested.nested_soup :=
  [ [ [ Listing.Nested.mk_cell (lit "Datum") None;
        Listing.Nested.mk_cell (lit "Veranstaltung") None ];
      [ Listing.Nested.mk_cell (lit " 15.06.2024 ") None;
        Listing.Nested.mk_cell (lit "Ferienlager") (Some (Some (lit "/event/42"))) ] ] ].

Definition detail_page : Detail.Flat.flat_soup := [(lit "h2", lit "Ferienlager")].

(** A stand-in for [urljoin] on a root and an absolute path. *)
Definition join_path (base url : str) : str := base ++ url.

(** A workbook that refuses the texts with the character U+0001 and takes
    every other value, and a file write that returns. *)
Definition no_u0001 (v : Scraper.value) : bool :=
  match v with
  | Scraper.Text s => negb (bool_decide (1 ∈ s))
  | Scraper.Other _ _ => true
  end.
Definition written (rows : list Scraper.sheet_row) : bool := true.

Definition all_respond : Retry.outcome := Retry.Response (lit "<html>").
Definition all_missing : Retry.outcome :=
  Retry.Fails (Retry.HTTPError 404 (lit "Not Found")).

End RunSamples.

(** ** Notions used to state further properties *)

Module Notions.

(** A failure after which [make_request_with_retry] tries again while
    attempts are left: a time-out, a 429 or 503 response, or another
    exception of the [requests] hierarchy. *)
Definition retried (o : Retry.outcome) : bool :=
  match o with
  | Retry.Response _ => false
  | Retry.Fails (Retry.Timeout _) => true
  | Retry.Fails (Retry.HTTPError status_code _) =>
      (status_code =? 429)%Z || (status_code =? 503)%Z
  | Retry.Fails (Retry.RequestException _) => true
  | Retry.Fails (Retry.OtherError _) => false
  end.

(** What the call does when the request of an attempt is not retried. *)
Definition final_result (o : Retry.outcome) : Retry.result :=
  match o with
  | Retry.Response text => Retry.Returned text
  | Retry.Fails e => Retry.Raised e
  end.

(** A text in which every whitespace character is a single space that
    stands between two other characters; [after_space] tells that the
    character before the text is a space (or that the text starts here). *)
Fixpoint tidy_from (after_space : bool) (s : str) : bool :=
  match s with
  | [] => negb after_space
  | c :: s' =>
      if is_space c then (c =? 32) && negb after_space && tidy_from true s'
      else tidy_from false s'
  end.

Definition tidy (s : str) : bool :=
  match s with
  | [] => true
  | _ => tidy_from true s
  end.

(** As [tidy_from], but the text may end with a space. *)
Fixpoint loose_from (after_space : bool) (s : str) : bool :=
  match s with
  | [] => true
  | c :: s' =>
      if is_space c then (c =? 32) && negb after_space && loose_from true s'
      else loose_from false s'
  end.

(** The characters of a text that are not whitespace. *)
Definition content (s : str) : str := filter (λ c, is_space c = false) s.

(** What a row shows of its occurrence: name, detail URL, date, time and
    sign-up text. *)
Definition shown (e : Scraper.event_data) : Scraper.event_data :=
  Scraper.continuation (Scraper.name e) e.

(** The selection that a row of a sheet records: its event name and its
    Selected value, when the name is a text that is not empty and the
    value is true and not blank. *)
Definition selection_of_row (r : Scraper.sheet_row) : option (str * Scraper.value) :=
  match Scraper.col_event_name r, Scraper.col_selected r with
  | Some (Scraper.Text event_name), Some selected =>
      if Detail.nonempty event_name && Scraper.cell_truthy (Some selected)
         && Detail.nonempty (Scraper.cell_stripped (Some selected))
      then Some (event_name, selected)
      else None
  | _, _ => None
  end.

(** The selection that is carried over for a value of the prior map. *)
Definition carried (prior : option Scraper.value) : option Scraper.value :=
  match prior with
  | Some selected =>
      if Scraper.cell_truthy (Some selected)
         && Detail.nonempty (Scraper.cell_stripped (Some selected))
      then Some selected
      else None
  | None => None
  end.

(** What is known of a row [r] read back from the file that was written
    with the row [w]: its Selected cell and its name cell hold what was
    written, except that a cell written with the empty text may be read
    back empty, and that an empty name cell may be read back with the
    target of its hyperlink as its text. *)
Definition read_back (w r : Scraper.sheet_row) : Prop :=
  (Scraper.col_selected r = Scraper.col_selected w
   ∨ (Scraper.col_selected w = Some (Scraper.Text [])
      ∧ Scraper.col_selected r = None))
  ∧ (Scraper.col_event_name r = Scraper.col_event_name w
     ∨ (Scraper.col_event_name w = Some (Scraper.Text [])
        ∧ (Scraper.col_event_name r = None
           ∨ ∃ target, Scraper.name_hyperlink w = Some (Some target)
                       ∧ Scraper.col_event_name r = Some (Scraper.Text target)))).

(** Whether the row belongs to a selected event and has a Sign-Up cell
    that makes [parse_date_range] raise. *)
Definition unreadable (nd_value : N → option N)
    (before : list Scraper.sheet_row) (r : Scraper.sheet_row) : bool :=
  Calendar.owned_by_selected before r
  && bool_decide (Calendar.parse_date_range_cell nd_value (Scraper.col_sign_up r) = None).

(** The reminder demanded for the row [r] coming after the rows
    [before]: one for a row with a sign-up window under a selected
    owning row, titled with the owner's name. *)
Definition expected_reminder (nd_value : N → option N)
    (before : list Scraper.sheet_row) (r : Scraper.sheet_row)
    : option Reminder.reminder :=
  p ← Calendar.owner before r;
  if Calendar.is_selected p then
    '(start_date, _) ← Calendar.window nd_value r;
    Some {| Reminder.title :=
              Reminder.TITLE_PREFIX ++ Scraper.cell_str (Scraper.col_event_name p);
            Reminder.url := Calendar.entry_url p r;
            Reminder.sign_up_period := Scraper.col_sign_up r;
            Reminder.date :=
              if Scraper.cell_truthy (Scraper.col_date r)
              then Scraper.cell_stripped (Scraper.col_date r) else [];
            Reminder.time :=
              if Scraper.cell_truthy (Scraper.col_time r)
              then Scraper.cell_stripped (Scraper.col_time r) else [];
            Reminder.start_date := start_date |}
  else None.

(** What a calendar entry and a reminder have in common: the title, the
    first day and the link, an empty link counting as none. *)
Definition entry_face (e : Calendar.vevent) : str * Date.date * option str :=
  (Calendar.summary e, Calendar.dtstart e, Calendar.url e).

Definition reminder_face (q : Reminder.reminder) : str * Date.date * option str :=
  (Reminder.title q, Reminder.start_date q,
   if Scraper.truthy (Reminder.url q) then Reminder.url q else None).

(** What the two loop variables of the reminder walk hold after the rows
    [before]. *)
Definition walk_invariant (before : list Scraper.sheet_row)
    (st : Reminder.state) : Prop :=
  Reminder.current_selected_event st
    = (p ← Calendar.last_primary before;
       if Calendar.is_selected p then Scraper.col_event_name p else None)
  ∧ Reminder.current_event_url st
    = (p ← Calendar.last_primary before;
       if Calendar.is_selected p then Scraper.hyperlink_target p else None).

(** The calendar loop and the reminder walk hold the same selection and
    have produced matching entries. *)
Definition in_step (q : Reminder.state) (st : Calendar.state) : Prop :=
  Reminder.current_selected_event q = Calendar.current_selected_event st
  ∧ Reminder.current_event_url q = Calendar.current_event_url st
  ∧ reminder_face <$> Reminder.events q = entry_face <$> Calendar.cal st.

(** A character that is neither whitespace nor the letter [d]: the
    digits and the dot of a printed date are of this kind. *)
Definition plain (c : N) : Prop := c ≠ 100 ∧ is_space c = false.

(** The address an entry of a listing page is recorded with, given the
    [href] of its link. *)
Definition link_target (urljoin : str → str → str) (h : str) : str :=
  if starts_with Listing.HTTP_PREFIX h then h else urljoin Listing.SITE_ROOT h.

(** The requests, the pauses between listing pages and the pauses between
    events of a trace. *)
Definition is_request (a : Listing.action) : bool :=
  match a with
  | Listing.Call (Retry.Get _) => true
  | _ => false
  end.

Definition requests (t : list Listing.action) : nat :=
  length (filter (λ a, is_request a = true) t).

Definition page_delays (t : list Listing.action) : nat :=
  length (filter (λ a, a = Listing.PageDelay) t).

Definition event_delays (t : list Listing.action) : nat :=
  length (filter (λ a, a = Listing.EventDelay) t).

End Notions.

(** * Properties *)

(** ** Facts about strings *)

Module PyStrFacts.

Lemma lstrip_idemp s : lstrip (lstrip s) = lstrip s.
Proof.
  induction s as [|c s IH]; simpl; [done|].
  destruct (is_space c) eqn:Hc; [done|]. simpl. by rewrite Hc.
Qed.

Lemma rstrip_cons_nonspace c s : is_space c = false → rstrip (c :: s) = c :: rstrip s.
Proof. intros Hc. simpl. rewrite Hc. by destruct (rstrip s). Qed.

Lemma rstrip_cons_keep c s : rstrip s ≠ [] → rstrip (c :: s) = c :: rstrip s.
Proof. intros Hs. simpl. by destruct (rstrip s). Qed.

Lemma rstrip_cons_drop c s : is_space c = true → rstrip s = [] → rstrip (c :: s) = [].
Proof. intros Hc Hs. simpl. by rewrite Hs, Hc. Qed.

Lemma rstrip_idemp s : rstrip (rstrip s) = rstrip s.
Proof.
  induction s as [|c s IH]; [done|].
  destruct (rstrip s) as [|r rs] eqn:Hr.
  - destruct (is_space c) eqn:Hc.
    + by rewrite (rstrip_cons_drop c s).
    + rewrite (rstrip_cons_nonspace c s Hc), Hr.
      by rewrite (rstrip_cons_nonspace c [] Hc).
  - rewrite (rstrip_cons_keep c s) by congruence.
    rewrite Hr in *. rewrite (rstrip_cons_keep c (r :: rs)) by congruence.
    by rewrite IH.
Qed.

Lemma lstrip_rstrip s : lstrip (rstrip s) = rstrip (lstrip s).
Proof.
  induction s as [|c s IH]; [done|].
  destruct (is_space c) eqn:Hc.
  - simpl lstrip at 2. rewrite Hc, <- IH.
    destruct (rstrip s) as [|r rs] eqn:Hr.
    + by rewrite (rstrip_cons_drop c s).
    + rewrite (rstrip_cons_keep c s) by congruence. rewrite Hr. simpl.
      by rewrite Hc.
  - rewrite (rstrip_cons_nonspace c s Hc). simpl. rewrite Hc.
    by rewrite (rstrip_cons_nonspace c s Hc).
Qed.

Lemma strip_lstrip s : strip (lstrip s) = strip s.
Proof. unfold strip. by rewrite lstrip_idemp. Qed.

Lemma strip_rstrip s : strip (rstrip s) = strip s.
Proof. unfold strip. by rewrite lstrip_rstrip, rstrip_idemp. Qed.

Lemma strip_nonempty_lstrip s : strip s ≠ [] → lstrip s ≠ [].
Proof. unfold strip. intros H Hl. by rewrite Hl in H. Qed.

Lemma strip_nonempty_rstrip s : strip s ≠ [] → rstrip s ≠ [].
Proof. unfold strip. rewrite <- lstrip_rstrip. intros H Hr. by rewrite Hr in H. Qed.

Lemma lstrip_app s t : lstrip s ≠ [] → lstrip (s ++ t) = lstrip s ++ t.
Proof.
  induction s as [|c s IH]; simpl; [done|].
  destruct (is_space c); [exact IH | done].
Qed.

Lemma rstrip_app s t : rstrip t ≠ [] → rstrip (s ++ t) = s ++ rstrip t.
Proof.
  intros Ht. induction s as [|c s IH]; simpl app; [done|].
  rewrite rstrip_cons_keep; rewrite IH; [done|].
  destruct s; simpl; [done | congruence].
Qed.

Lemma lstrip_suffix s : ∃ w, s = w ++ lstrip s.
Proof.
  induction s as [|c s [w IH]]; simpl; [by exists []|].
  destruct (is_space c); [|by exists []].
  exists (c :: w). simpl. by f_equal.
Qed.

Lemma rstrip_prefix s : ∃ w, s = rstrip s ++ w.
Proof.
  induction s as [|c s [w IH]]; [by exists []|].
  destruct (rstrip s) as [|r rs] eqn:Hr.
  - destruct (is_space c) eqn:Hc.
    + rewrite (rstrip_cons_drop c s Hc Hr). by exists (c :: s).
    + rewrite (rstrip_cons_nonspace c s Hc), Hr. exists w. simpl in *. by f_equal.
  - rewrite (rstrip_cons_keep c s) by congruence. rewrite Hr.
    exists w. simpl. by f_equal.
Qed.

(** [strip] of a text whose two ends are not blank. *)
Lemma strip_app s t :
  strip s ≠ [] → strip t ≠ [] → ∀ m, strip (s ++ m ++ t) = lstrip s ++ m ++ rstrip t.
Proof.
  intros Hs Ht m. unfold strip.
  rewrite lstrip_app by by apply strip_nonempty_lstrip.
  rewrite !(assoc (++)). rewrite rstrip_app by by apply strip_nonempty_rstrip.
  done.
Qed.

Lemma starts_with_spec p s : starts_with p s = true ↔ ∃ t, s = p ++ t.
Proof.
  revert s. induction p as [|a p IH]; intros s; simpl.
  - split; [by exists s | done].
  - destruct s as [|b s]; [split; [done | by intros [t Ht]]|].
    rewrite andb_true_iff, N.eqb_eq, IH. split.
    + intros [-> [t ->]]. by exists t.
    + intros [t Ht]. injection Ht as -> ->. eauto.
Qed.

Lemma starts_with_app p s t : starts_with p s = true → starts_with p (s ++ t) = true.
Proof.
  rewrite !starts_with_spec. intros [u ->]. exists (u ++ t). by rewrite (assoc (++)).
Qed.

Lemma starts_with_app_inv p s t :
  (length p ≤ length s)%nat → starts_with p (s ++ t) = true → starts_with p s = true.
Proof.
  revert s. induction p as [|a p IH]; intros s Hl; simpl; [done|].
  destruct s as [|b s]; simpl in *; [lia|].
  rewrite !andb_true_iff. intros [? ?]. split; [done|]. apply IH; [lia | done].
Qed.

(** [find_sub] returns the first position at which the pattern starts. *)
Lemma find_sub_spec p s i :
  find_sub p s = Some i ↔
  starts_with p (drop i s) = true ∧ (i ≤ length s)%nat
  ∧ ∀ j, (j < i)%nat → starts_with p (drop j s) = false.
Proof.
  revert i. induction s as [|c s IH]; intros i.
  - simpl find_sub. destruct (starts_with p []) eqn:Hp.
    + split.
      * intros [= <-]. repeat split; [done | simpl; lia | intros; lia].
      * intros (_ & Hi & _). simpl in Hi. f_equal. lia.
    + split; [done|]. intros (H1 & _ & _). rewrite drop_nil in H1. congruence.
  - simpl find_sub. destruct (starts_with p (c :: s)) eqn:Hp.
    + split.
      * intros [= <-]. repeat split; [done | simpl; lia | intros; lia].
      * intros (_ & _ & Hj). destruct i as [|i]; [done|].
        specialize (Hj 0%nat ltac:(lia)). simpl in Hj. congruence.
    + destruct i as [|i].
      * split; [by destruct (find_sub p s)|]. intros (H1 & _). simpl in H1. congruence.
      * specialize (IH i). simpl drop. simpl length.
        assert ((∀ j, (j < S i)%nat → starts_with p (drop j (c :: s)) = false)
                ↔ ∀ j, (j < i)%nat → starts_with p (drop j s) = false) as Hall.
        { split.
          - intros H3 j Hj. apply (H3 (S j)). lia.
          - intros H3 [|j] Hj; [done|]. simpl. apply H3. lia. }
        rewrite Hall.
        assert ((S i ≤ S (length s))%nat ↔ (i ≤ length s)%nat) as -> by lia.
        rewrite <- IH. destruct (find_sub p s) as [k|]; simpl; [|done].
        split; congruence.
Qed.

Lemma contains_true p s : contains p s = true ↔ ∃ i, find_sub p s = Some i.
Proof.
  unfold contains. destruct (find_sub p s) as [i|]; split; try done.
  - by exists i.
  - by intros [? ?].
Qed.

Lemma contains_false p s : contains p s = false ↔ find_sub p s = None.
Proof. unfold contains. by destruct (find_sub p s). Qed.

Lemma find_sub_here p s : starts_with p s = true → find_sub p s = Some 0%nat.
Proof. intros H. destruct s; simpl; by rewrite H. Qed.

Lemma contains_cons p c s : contains p s = true → contains p (c :: s) = true.
Proof.
  unfold contains. simpl. destruct (starts_with p (c :: s)); [done|].
  by destruct (find_sub p s).
Qed.

(** A text that is written around [p] contains [p]. *)
Lemma contains_app p a b : contains p (a ++ p ++ b) = true.
Proof.
  induction a as [|c a IH]; simpl app.
  - unfold contains. rewrite find_sub_here; [done|].
    apply starts_with_spec. by exists b.
  - by apply contains_cons.
Qed.

End PyStrFacts.

(** ** The sign-up window normalizer *)

Module SignUpFacts.

Import PyStrFacts SignUp.

Lemma strip_idemp s : strip (strip s) = strip s.
Proof. unfold strip at 2. by rewrite strip_rstrip, strip_lstrip. Qed.

Lemma find_sub_extend p a b :
  find_sub p (a ++ p) = Some (length a) → find_sub p (a ++ p ++ b) = Some (length a).
Proof.
  rewrite !find_sub_spec. intros (_ & _ & Hfirst). split_and!.
  - rewrite drop_app_length. apply starts_with_spec. by exists b.
  - rewrite length_app. lia.
  - intros j Hj. specialize (Hfirst j Hj).
    destruct (starts_with p (drop j (a ++ p ++ b))) eqn:Hs; [|done].
    rewrite <- Hfirst. symmetry. apply (starts_with_app_inv _ _ b).
    + rewrite length_drop, length_app. lia.
    + rewrite <- drop_app_le by (rewrite length_app; lia).
      by rewrite <- (assoc (++)).
Qed.

Lemma find_sub_skip p w s k :
  find_sub p (w ++ s) = Some (length w + k)%nat → find_sub p s = Some k.
Proof.
  rewrite !find_sub_spec. intros (Hat & Hlen & Hfirst). split_and!.
  - by rewrite <- (drop_app_length w s), drop_drop.
  - rewrite length_app in Hlen. lia.
  - intros j Hj. rewrite <- (drop_app_length w s), drop_drop. apply Hfirst. lia.
Qed.

Lemma split_once_at sep a b :
  find_sub sep (a ++ sep ++ b) = Some (length a) →
  split_once sep (a ++ sep ++ b) = Some (a, b).
Proof.
  intros Hf. unfold split_once. rewrite Hf. simpl. f_equal. f_equal.
  - by rewrite take_app_length.
  - rewrite <- drop_drop, drop_app_length. by rewrite drop_app_length.
Qed.

Section WithDigits.

Context (nd_value : N → option N).

Abbreviation parse_date := (parse_date nd_value).
Abbreviation parse_date_range := (parse_date_range nd_value).

Lemma parse_date_lstrip s : parse_date (lstrip s) = parse_date s.
Proof. unfold SignUp.parse_date. by rewrite strip_lstrip. Qed.

Lemma parse_date_rstrip s : parse_date (rstrip s) = parse_date s.
Proof. unfold SignUp.parse_date. by rewrite strip_rstrip. Qed.

Lemma parse_date_strip s : parse_date (strip s) = parse_date s.
Proof. unfold SignUp.parse_date. by rewrite strip_idemp. Qed.

Lemma parse_date_Some_strip s d : parse_date s = Some d → strip s ≠ [].
Proof. unfold SignUp.parse_date. intros H Hs. by rewrite Hs in H. Qed.

Lemma parse_date_Some_nonempty s d : parse_date s = Some d → s ≠ [].
Proof. intros H ->. by apply parse_date_Some_strip in H. Qed.

Lemma parse_date_not_specified : parse_date NOT_SPECIFIED = None.
Proof. reflexivity. Qed.

(** The branch taken on a text with a separator. *)
Lemma parse_date_range_split s part0 part1 :
  s ≠ [] → s ≠ NOT_SPECIFIED → contains DIRECT_PHRASE s = false →
  split_once RANGE_SEP (strip s) = Some (part0, part1) →
  parse_date_range (Some s) =
    match parse_date part0, parse_date part1 with
    | Some a, Some b => Some (a, b)
    | _, _ => None
    end.
Proof.
  intros H1 H2 H3 H4. unfold SignUp.parse_date_range.
  rewrite !bool_decide_eq_false_2 by done. simpl. rewrite H3.
  assert (contains RANGE_SEP (strip s) = true) as ->.
  { apply contains_true. unfold split_once in H4.
    destruct (find_sub RANGE_SEP (strip s)); [eauto | done]. }
  by rewrite H4.
Qed.

(** The branch taken on a text without a separator. *)
Lemma parse_date_range_single s :
  s ≠ [] → s ≠ NOT_SPECIFIED → contains DIRECT_PHRASE s = false →
  contains RANGE_SEP (strip s) = false →
  parse_date_range (Some s) =
    match parse_date s with
    | Some x => Some (x, x)
    | None => None
    end.
Proof.
  intros H1 H2 H3 H4. unfold SignUp.parse_date_range.
  rewrite !bool_decide_eq_false_2 by done. simpl. rewrite H3, H4.
  by rewrite parse_date_strip.
Qed.

Lemma range_not_specified D1 D2 : D1 ++ RANGE_SEP ++ D2 ≠ NOT_SPECIFIED.
Proof.
  intros Heq.
  assert (contains RANGE_SEP (D1 ++ RANGE_SEP ++ D2) = false) as Hc
    by (rewrite Heq; reflexivity).
  by rewrite contains_app in Hc.
Qed.

(** A text [D1 - D2] is split at the separator written between its two
    parts when no separator starts earlier. *)
Lemma parse_date_range_parts D1 D2 d1 d2 :
  parse_date D1 = Some d1 →
  parse_date D2 = Some d2 →
  find_sub RANGE_SEP (D1 ++ RANGE_SEP) = Some (length D1) →
  split_once RANGE_SEP (strip (D1 ++ RANGE_SEP ++ D2)) = Some (lstrip D1, rstrip D2).
Proof.
  intros H1 H2 Hsep.
  rewrite strip_app by eauto using parse_date_Some_strip.
  apply split_once_at, find_sub_extend.
  destruct (lstrip_suffix D1) as [w Hw].
  apply (find_sub_skip _ w). rewrite (assoc (++)), <- Hw, <- length_app, <- Hw.
  done.
Qed.

(** C1 (as amended): a text [D1 - D2] whose parts carry a valid date, in
    which the separator after [D1] is the first one and the
    direct-registration phrase does not occur, yields the two dates in the
    order in which they are written, whichever is the earlier one; a text
    that carries one valid date and no separator yields that date as start
    and as end. *)
Theorem parse_date_range_written_order :
  (∀ D1 D2 d1 d2,
     parse_date D1 = Some d1 →
     parse_date D2 = Some d2 →
     find_sub RANGE_SEP (D1 ++ RANGE_SEP) = Some (length D1) →
     contains DIRECT_PHRASE (D1 ++ RANGE_SEP ++ D2) = false →
     parse_date_range (Some (D1 ++ RANGE_SEP ++ D2)) = Some (d1, d2))
  ∧ (∀ s d,
       parse_date s = Some d →
       contains RANGE_SEP (strip s) = false →
       contains DIRECT_PHRASE s = false →
       parse_date_range (Some s) = Some (d, d)).
Proof.
  split.
  - intros D1 D2 d1 d2 H1 H2 Hsep Hphrase.
    rewrite (parse_date_range_split _ (lstrip D1) (rstrip D2)).
    + by rewrite parse_date_lstrip, parse_date_rstrip, H1, H2.
    + apply parse_date_Some_nonempty in H1. by destruct D1.
    + apply range_not_specified.
    + done.
    + by eapply parse_date_range_parts.
  - intros s d Hd Hsep Hphrase.
    rewrite parse_date_range_single; [by rewrite Hd | | | done | done].
    + by eapply parse_date_Some_nonempty.
    + intros ->. by rewrite parse_date_not_specified in Hd.
Qed.

(** C5: no window for an empty cell or an empty text, for the
    ['Not specified'] sentinel in either spelling, for every text with the
    direct-registration phrase, and for every text of which a date
    component fails the calendar check: under rule 3 when either part
    fails, under rule 4 when the text itself fails. *)
Theorem parse_date_range_no_window :
  parse_date_range None = None
  ∧ parse_date_range (Some []) = None
  ∧ parse_date_range (Some NOT_SPECIFIED) = None
  ∧ parse_date_range (Some (lit "not specified")) = None
  ∧ (∀ s, contains DIRECT_PHRASE s = true → parse_date_range (Some s) = None)
  ∧ (∀ s part0 part1,
       split_once RANGE_SEP (strip s) = Some (part0, part1) →
       fails_validation nd_value part0 ∨ fails_validation nd_value part1 →
       parse_date_range (Some s) = None)
  ∧ (∀ s,
       contains RANGE_SEP (strip s) = false →
       fails_validation nd_value s →
       parse_date_range (Some s) = None).
Proof.
  split_and!; try reflexivity.
  - intros s Hs. unfold SignUp.parse_date_range. rewrite Hs.
    by destruct (bool_decide (s = []) || bool_decide (s = NOT_SPECIFIED)).
  - intros s part0 part1 Hsplit Hfail.
    assert (parse_date part0 = None ∨ parse_date part1 = None) as Hnone.
    { unfold SignUp.parse_date.
      destruct Hfail as [(m & -> & ->)|(m & -> & ->)]; [by left | by right]. }
    unfold SignUp.parse_date_range.
    destruct (bool_decide (s = []) || bool_decide (s = NOT_SPECIFIED)); [done|].
    destruct (contains DIRECT_PHRASE s); [done|]. simpl.
    assert (contains RANGE_SEP (strip s) = true) as ->.
    { apply contains_true. unfold split_once in Hsplit.
      destruct (find_sub RANGE_SEP (strip s)); [eauto | done]. }
    rewrite Hsplit.
    destruct Hnone as [-> | ->]; [done|].
    by destruct (SignUp.parse_date nd_value part0).
  - intros s Hsep (m & Hm & Hv).
    unfold SignUp.parse_date_range.
    destruct (bool_decide (s = []) || bool_decide (s = NOT_SPECIFIED)); [done|].
    destruct (contains DIRECT_PHRASE s); [done|]. simpl.
    rewrite Hsep. unfold SignUp.parse_date.
    by rewrite strip_idemp, Hm, Hv.
Qed.

(** *** Every valid date in the [DD.MM.YYYY] notation is read back *)

Lemma bounded_forall (P : N → bool) (n : N) :
  forallb P (N.of_nat <$> seq 0 (N.to_nat n)) = true →
  ∀ x, x < n → P x = true.
Proof.
  intros Hall x Hx. rewrite forallb_forall in Hall. apply Hall.
  apply list_elem_of_In, list_elem_of_fmap. exists (N.to_nat x).
  split; [by rewrite N2Nat.id | apply elem_of_seq; lia].
Qed.

Lemma is_space_digit k : k < 10 → is_space (48 + k) = false.
Proof.
  intros Hk. apply negb_true_iff.
  apply (bounded_forall (λ k, negb (is_space (48 + k))) 10); [reflexivity | lia].
Qed.

Lemma day_field_digits d :
  1 ≤ d ≤ 31 → day_field nd_value (48 + d / 10 mod 10) (48 + d mod 10) = Some d.
Proof.
  intros Hb.
  pose proof (bounded_forall
                (λ x, (x =? 0) || bool_decide (day_field nd_value (48 + x / 10 mod 10)
                                                 (48 + x mod 10) = Some x)) 32) as Hc.
  cbv beta in Hc. specialize (Hc ltac:(vm_compute; reflexivity) d ltac:(lia)).
  apply orb_true_iff in Hc as [Hc|Hc]; [apply N.eqb_eq in Hc; lia|].
  by apply bool_decide_eq_true_1 in Hc.
Qed.

Lemma month_field_digits m :
  1 ≤ m ≤ 12 → month_field (48 + m / 10 mod 10) (48 + m mod 10) = Some m.
Proof.
  intros Hb.
  pose proof (bounded_forall
                (λ x, (x =? 0) || bool_decide (month_field (48 + x / 10 mod 10)
                                                 (48 + x mod 10) = Some x)) 13) as Hc.
  cbv beta in Hc. specialize (Hc ltac:(vm_compute; reflexivity) m ltac:(lia)).
  apply orb_true_iff in Hc as [Hc|Hc]; [apply N.eqb_eq in Hc; lia|].
  by apply bool_decide_eq_true_1 in Hc.
Qed.

Lemma year_field_digits y :
  y ≤ 9999 →
  year_field nd_value (48 + y / 10 / 10 / 10 mod 10) (48 + y / 10 / 10 mod 10)
    (48 + y / 10 mod 10) (48 + y mod 10) = Some y.
Proof.
  intros Hb.
  pose proof (bounded_forall
                (λ x, bool_decide
                        (year_field nd_value (48 + x / 10 / 10 / 10 mod 10)
                           (48 + x / 10 / 10 mod 10) (48 + x / 10 mod 10)
                           (48 + x mod 10) = Some x)) 10000) as Hc.
  cbv beta in Hc. specialize (Hc ltac:(vm_compute; reflexivity) y ltac:(lia)).
  by apply bool_decide_eq_true_1 in Hc.
Qed.

Lemma is_digit_ascii k : k < 10 → is_digit nd_value (48 + k) = true.
Proof.
  intros Hk. unfold is_digit, digit_value.
  assert ((48 <=? 48 + k) && (48 + k <=? 57) = true) as ->; [|done].
  apply andb_true_iff. split; apply N.leb_le; lia.
Qed.

Lemma days_in_month_le y m : days_in_month y m ≤ 31.
Proof. unfold days_in_month. repeat case_match; lia. Qed.

Lemma parse_date_strftime d t :
  Date.wf d → parse_date (strftime_dmY d ++ t) = Some d.
Proof.
  destruct d as [y m dd]. unfold Date.wf, valid. simpl.
  rewrite !andb_true_iff, !N.leb_le. intros (((((Hy1 & Hy2) & Hm1) & Hm2) & Hd1) & Hd2).
  pose proof (days_in_month_le y m) as Hdim.
  assert (∀ n, n mod 10 < 10) as Hmod by (intros n; apply N.mod_lt; lia).
  unfold SignUp.parse_date, strftime_dmY, strip. simpl digits. simpl app.
  simpl lstrip. rewrite is_space_digit by apply Hmod.
  rewrite !rstrip_cons_nonspace by (try apply is_space_digit; done).
  unfold re_match_date. rewrite !is_digit_ascii by apply Hmod. simpl.
  rewrite day_field_digits, month_field_digits, year_field_digits by lia. simpl.
  assert (valid y m dd = true) as ->; [|done].
  unfold valid. rewrite !andb_true_iff, !N.leb_le. lia.
Qed.

Lemma parse_date_wf s d : parse_date s = Some d → Date.wf d.
Proof.
  unfold SignUp.parse_date, strptime_dmY.
  destruct (re_match_date nd_value (strip s)) as [m|]; [|done].
  destruct m as [|a [|b [|p [|c [|e [|q [|f [|g [|h [|i [|? ?]]]]]]]]]]]; try done.
  destruct ((p =? 46) && (q =? 46)); [|done].
  destruct (day_field nd_value a b) as [dd|]; [|done]. simpl.
  destruct (month_field c e) as [mm|]; [|done]. simpl.
  destruct (year_field nd_value f g h i) as [yy|]; [|done]. simpl.
  destruct (valid yy mm dd) eqn:Hv; [|done]. by intros [= <-].
Qed.

(** Both dates of a window are calendar dates. *)
Lemma parse_date_range_wf c a b :
  parse_date_range c = Some (a, b) → Date.wf a ∧ Date.wf b.
Proof.
  unfold SignUp.parse_date_range. destruct c as [s|]; [|done].
  destruct (bool_decide (s = []) || bool_decide (s = NOT_SPECIFIED)); [done|].
  destruct (contains DIRECT_PHRASE s); [done|]. simpl.
  destruct (contains RANGE_SEP (strip s)).
  - destruct (split_once RANGE_SEP (strip s)) as [[part0 part1]|]; [|done].
    destruct (SignUp.parse_date nd_value part0) as [x|] eqn:H0; [|done].
    destruct (SignUp.parse_date nd_value part1) as [y|] eqn:H1; [|done].
    intros [= <- <-]. eauto using parse_date_wf.
  - destruct (SignUp.parse_date nd_value (strip s)) as [x|] eqn:H0; [|done].
    intros [= <- <-]. eauto using parse_date_wf.
Qed.

End WithDigits.

Lemma add_day_wf d : Date.wf d → d ≠ Date.mk 9999 12 31 → is_Some (add_day d).
Proof.
  destruct d as [y m dd]. unfold Date.wf, valid, add_day. simpl.
  rewrite !andb_true_iff, !N.leb_le. intros (((((Hy1 & Hy2) & Hm1) & Hm2) & Hd1) & Hd2) Hne.
  destruct (N.ltb_spec dd (days_in_month y m)); [done|].
  destruct (N.ltb_spec m 12); [done|].
  destruct (N.ltb_spec y 9999); [done|].
  exfalso. apply Hne. assert (m = 12) as -> by lia. assert (y = 9999) as -> by lia.
  simpl in *. f_equal. lia.
Qed.

(** C1, as the specification words it, fails: the two dates of
    ["10.05.2024 - 01.05.2024"] are returned as written, the later one
    first. *)
Lemma range_is_ordered_fails : ¬ range_is_ordered.
Proof.
  intros H.
  destruct (H (λ _, None) (lit "10.05.2024") (lit "01.05.2024")
              (Date.mk 2024 5 10) (Date.mk 2024 5 1) eq_refl eq_refl)
    as (start_date & end_date & Hrange & Hle).
  vm_compute in Hrange. injection Hrange as <- <-. discriminate Hle.
Qed.

Lemma parse_date_range_written_order_witness :
  parse_date_range (λ _, None) (Some (lit "10.05.2024" ++ RANGE_SEP ++ lit "01.05.2024 (Losverfahren)"))
    = Some (Date.mk 2024 5 10, Date.mk 2024 5 1)
  ∧ parse_date_range (λ _, None) (Some (lit "29.02.2024 ab 8 Uhr"))
    = Some (Date.mk 2024 2 29, Date.mk 2024 2 29).
Proof.
  split.
  - apply (proj1 (parse_date_range_written_order (λ _, None))); vm_compute; reflexivity.
  - apply (proj2 (parse_date_range_written_order (λ _, None))); vm_compute; reflexivity.
Defined.

Lemma parse_date_range_no_window_witness :
  parse_date_range (λ _, None) (Some (lit "direkt beim Veranstalter")) = None
  ∧ parse_date_range (λ _, None) (Some (lit "01.01.2024 - 32.01.2024")) = None
  ∧ parse_date_range (λ _, None) (Some (lit "30.02.2024")) = None.
Proof.
  pose proof (parse_date_range_no_window (λ _, None))
    as (_ & _ & _ & _ & Hphrase & Hrange & Hsingle).
  split_and!.
  - apply Hphrase. vm_compute. reflexivity.
  - apply (Hrange _ (lit "01.01.2024") (lit "32.01.2024")); [vm_compute; reflexivity|].
    right. exists (lit "32.01.2024"). split; vm_compute; reflexivity.
  - apply Hsingle; [vm_compute; reflexivity|].
    exists (lit "30.02.2024"). split; vm_compute; reflexivity.
Defined.

End SignUpFacts.

(** ** The order of sort keys *)

Module KeyOrder.

Import Scraper.

Lemma compare_refl a : PyStr.compare a a = Eq.
Proof. induction a as [|x a IH]; simpl; [done|]. by rewrite N.compare_refl. Qed.

Lemma compare_eq a b : PyStr.compare a b = Eq → a = b.
Proof.
  revert b. induction a as [|x a IH]; intros [|y b]; simpl; try done.
  destruct (N.compare_spec x y) as [->| |]; try done.
  intros H. f_equal. by apply IH.
Qed.

Lemma compare_antisym a b : PyStr.compare b a = CompOpp (PyStr.compare a b).
Proof.
  revert b. induction a as [|x a IH]; intros [|y b]; simpl; try done.
  rewrite (N.compare_antisym x y).
  destruct (N.compare x y); simpl; [apply IH | done | done].
Qed.

Lemma compare_trans a b c :
  PyStr.compare a b = Lt → PyStr.compare b c = Lt → PyStr.compare a c = Lt.
Proof.
  revert b c. induction a as [|x a IH]; intros [|y b] [|z c]; simpl; try done.
  destruct (N.compare_spec x y) as [->|Hxy|Hxy]; try done.
  - destruct (N.compare_spec y z) as [->|Hyz|Hyz]; try done. apply IH.
  - intros _. destruct (N.compare_spec y z) as [->|Hyz|Hyz]; try done.
    + intros _. by apply N.compare_lt_iff in Hxy as ->.
    + intros _. assert (x < z) as Hxz by lia. by apply N.compare_lt_iff in Hxz as ->.
Qed.

Lemma key_compare_refl k : key_compare k k = Eq.
Proof. destruct k as [[a b] c]. simpl. by rewrite !compare_refl. Qed.

Lemma key_compare_eq k1 k2 : key_compare k1 k2 = Eq → k1 = k2.
Proof.
  destruct k1 as [[a1 b1] c1], k2 as [[a2 b2] c2]. simpl.
  destruct (PyStr.compare a1 a2) eqn:Ha; try done.
  destruct (PyStr.compare b1 b2) eqn:Hb; try done.
  intros Hc. by rewrite (compare_eq _ _ Ha), (compare_eq _ _ Hb), (compare_eq _ _ Hc).
Qed.

Lemma key_compare_antisym k1 k2 : key_compare k2 k1 = CompOpp (key_compare k1 k2).
Proof.
  destruct k1 as [[a1 b1] c1], k2 as [[a2 b2] c2]. simpl.
  rewrite (compare_antisym a1 a2), (compare_antisym b1 b2), (compare_antisym c1 c2).
  destruct (PyStr.compare a1 a2); simpl; try done.
  destruct (PyStr.compare b1 b2); simpl; done.
Qed.

Lemma key_compare_trans k1 k2 k3 :
  key_compare k1 k2 = Lt → key_compare k2 k3 = Lt → key_compare k1 k3 = Lt.
Proof.
  destruct k1 as [[a1 b1] c1], k2 as [[a2 b2] c2], k3 as [[a3 b3] c3]. simpl.
  destruct (PyStr.compare a1 a2) eqn:Ha12; try done.
  - apply compare_eq in Ha12 as ->.
    destruct (PyStr.compare a2 a3) eqn:Ha23; try done.
    destruct (PyStr.compare b1 b2) eqn:Hb12; try done.
    + apply compare_eq in Hb12 as ->.
      destruct (PyStr.compare b2 b3) eqn:Hb23; try done. apply compare_trans.
    + intros _. destruct (PyStr.compare b2 b3) eqn:Hb23; try done.
      * apply compare_eq in Hb23 as ->. by rewrite Hb12.
      * by rewrite (compare_trans _ _ _ Hb12 Hb23).
  - intros _. destruct (PyStr.compare a2 a3) eqn:Ha23; try done.
    + apply compare_eq in Ha23 as ->. by rewrite Ha12.
    + by rewrite (compare_trans _ _ _ Ha12 Ha23).
Qed.

Lemma key_ltb_irrefl k : key_ltb k k = false.
Proof. unfold key_ltb. by rewrite key_compare_refl. Qed.

Lemma key_ltb_asym k1 k2 : key_ltb k1 k2 = true → key_ltb k2 k1 = false.
Proof.
  unfold key_ltb. rewrite (key_compare_antisym k1 k2).
  by destruct (key_compare k1 k2).
Qed.

Lemma key_ltb_neq k1 k2 : key_ltb k1 k2 = true → k1 ≠ k2.
Proof. intros H ->. by rewrite key_ltb_irrefl in H. Qed.

Lemma key_le_refl k : key_le k k.
Proof. apply key_ltb_irrefl. Qed.

Lemma key_le_trans k1 k2 k3 : key_le k1 k2 → key_le k2 k3 → key_le k1 k3.
Proof.
  unfold key_le, key_ltb. rewrite (key_compare_antisym k1 k2), (key_compare_antisym k2 k3).
  rewrite (key_compare_antisym k1 k3).
  destruct (key_compare k1 k2) eqn:H12; simpl; try done;
    destruct (key_compare k2 k3) eqn:H23; simpl; try done; intros _ _.
  - apply key_compare_eq in H12 as ->. by rewrite H23.
  - apply key_compare_eq in H12 as ->. by rewrite H23.
  - apply key_compare_eq in H23 as ->. by rewrite H12.
  - by rewrite (key_compare_trans _ _ _ H12 H23).
Qed.

Lemma key_le_total k1 k2 : key_le k1 k2 ∨ key_le k2 k1.
Proof.
  unfold key_le, key_ltb. rewrite (key_compare_antisym k1 k2).
  destruct (key_compare k1 k2); simpl; auto.
Qed.

(** Two keys that are below each other are the same key. *)
Lemma key_le_antisym k1 k2 : key_le k1 k2 → key_le k2 k1 → k1 = k2.
Proof.
  unfold key_le, key_ltb. rewrite (key_compare_antisym k1 k2).
  destruct (key_compare k1 k2) eqn:H; simpl; try done.
  intros _ _. by apply key_compare_eq.
Qed.

End KeyOrder.

(** ** The grouper *)

Module GrouperFacts.

Import Scraper KeyOrder.

(** *** The sort *)

Lemma sort_insert_perm x l : sort_insert x l ≡ₚ x :: l.
Proof.
  induction l as [|y l IH]; simpl; [done|].
  destruct (key_ltb (key_of y) (key_of x)); [|done].
  rewrite IH. apply Permutation_swap.
Qed.

Lemma sort_by_date_perm l : sort_by_date l ≡ₚ l.
Proof.
  induction l as [|x l IH]; simpl; [done|].
  by rewrite sort_insert_perm, IH.
Qed.

Lemma sort_by_date_length l : length (sort_by_date l) = length l.
Proof. by rewrite sort_by_date_perm. Qed.

Lemma sort_by_date_elem e l : e ∈ sort_by_date l ↔ e ∈ l.
Proof. by rewrite sort_by_date_perm. Qed.

Lemma sort_insert_sorted x l :
  StronglySorted (λ a b, key_le (key_of a) (key_of b)) l →
  StronglySorted (λ a b, key_le (key_of a) (key_of b)) (sort_insert x l).
Proof.
  induction 1 as [|y l Hl IH Hy]; simpl.
  - repeat constructor.
  - destruct (key_ltb (key_of y) (key_of x)) eqn:Hlt.
    + constructor; [done|].
      rewrite sort_insert_perm. constructor; [|done].
      by apply key_ltb_asym.
    + constructor; [by constructor|].
      constructor; [done|].
      eapply Forall_impl; [exact Hy|]. intros z Hz. simpl in Hz.
      by eapply key_le_trans.
Qed.

(** The result of the sort is in ascending key order. *)
Lemma sort_by_date_sorted l :
  StronglySorted (λ a b, key_le (key_of a) (key_of b)) (sort_by_date l).
Proof.
  induction l as [|x l IH]; simpl; [constructor|]. by apply sort_insert_sorted.
Qed.

Lemma sort_insert_filter (P : event_data → Prop) `{!∀ e, Decision (P e)} x l :
  (∀ a b, P a → key_ltb (key_of b) (key_of a) = true → ¬ P b) →
  filter P (sort_insert x l) = filter P (x :: l).
Proof.
  intros HP. induction l as [|y l IH]; simpl; [done|].
  destruct (key_ltb (key_of y) (key_of x)) eqn:Hlt; [|done].
  rewrite filter_cons, IH, !filter_cons.
  destruct (decide (P y)) as [Hy|Hy]; [|done].
  destruct (decide (P x)) as [Hx|Hx]; [|done].
  by destruct (HP x y Hx Hlt).
Qed.

(** The sort is stable: the occurrences with one and the same key keep
    their input order. *)
Lemma sort_by_date_stable k l :
  filter (λ e, key_of e = k) (sort_by_date l) = filter (λ e, key_of e = k) l.
Proof.
  induction l as [|x l IH]; simpl; [done|].
  rewrite sort_insert_filter.
  - by rewrite !filter_cons, IH.
  - intros a b Ha Hlt Hb. apply key_ltb_neq in Hlt. congruence.
Qed.

(** *** The rows of one group *)

Lemma emit_group_rows n occurrences :
  emit_group (n, occurrences) =
    match sort_by_date occurrences with
    | [] => []
    | first :: rest =>
        mk_grouped first false
        :: ((λ e, mk_grouped (continuation n e) true) <$> rest)
    end.
Proof.
  unfold emit_group. simpl. destruct (sort_by_date occurrences) as [|first rest]; [done|].
  rewrite imap_cons. f_equal. rewrite <- imap_const. by apply imap_ext.
Qed.

Lemma emit_group_length g : length (emit_group g) = length g.2.
Proof. unfold emit_group. by rewrite length_imap, sort_by_date_length. Qed.

(** *** The groups *)

Lemma group_loop_snoc l e :
  group_loop (l ++ [e]) = od_append (name e) e (group_loop l).
Proof. unfold group_loop. by rewrite foldl_snoc. Qed.

Lemma elem_of_nub_first n names : n ∈ nub_first names ↔ n ∈ names.
Proof.
  induction names as [|m names IH]; simpl; [done|].
  rewrite !elem_of_cons, list_elem_of_filter, IH.
  destruct (decide (n = m)); tauto.
Qed.

Lemma NoDup_nub_first names : NoDup (nub_first names).
Proof.
  induction names as [|m names IH]; simpl; [constructor|].
  constructor; [|by apply NoDup_filter].
  rewrite list_elem_of_filter. by intros [Hne _].
Qed.

Lemma filter_all {A} (P : A → Prop) `{!∀ x, Decision (P x)} (l : list A) :
  Forall P l → filter P l = l.
Proof.
  induction 1 as [|x l Hx Hl IH]; [done|].
  by rewrite filter_cons_True, IH.
Qed.

Lemma filter_none {A} (P : A → Prop) `{!∀ x, Decision (P x)} (l : list A) :
  Forall (λ x, ¬ P x) l → filter P l = [].
Proof.
  induction 1 as [|x l Hx Hl IH]; [done|].
  by rewrite filter_cons_False, IH.
Qed.

Lemma nub_first_snoc names n :
  nub_first (names ++ [n]) =
    if decide (n ∈ names) then nub_first names else nub_first names ++ [n].
Proof.
  induction names as [|m names IH]; simpl; [done|].
  rewrite IH. destruct (decide (n ∈ names)) as [Hin|Hin].
  - rewrite decide_True; [done | by right].
  - rewrite filter_app. destruct (decide (n = m)) as [->|Hne].
    + rewrite decide_True by left.
      rewrite filter_cons_False; [|by intros Hmm]. by rewrite filter_nil, app_nil_r.
    + rewrite decide_False by (rewrite elem_of_cons; tauto).
      by rewrite filter_cons_True.
Qed.

Lemma od_append_fresh (F : str → list event_data) n e ks :
  n ∉ ks →
  od_append n e ((λ k, (k, F k)) <$> ks) = ((λ k, (k, F k)) <$> ks) ++ [(n, [e])].
Proof.
  induction ks as [|k ks IH]; intros Hn; csimpl; [done|].
  apply not_elem_of_cons in Hn as [Hne Hn].
  rewrite decide_False by done. by rewrite IH.
Qed.

Lemma od_append_present (F G : str → list event_data) n e ks :
  n ∈ ks → NoDup ks →
  G n = F n ++ [e] → (∀ k, k ≠ n → G k = F k) →
  od_append n e ((λ k, (k, F k)) <$> ks) = (λ k, (k, G k)) <$> ks.
Proof.
  intros Hin Hnd Hn Hother. induction ks as [|k ks IH]; csimpl; [by inversion Hin|].
  apply NoDup_cons in Hnd as [Hk Hnd].
  destruct (decide (k = n)) as [->|Hne].
  - rewrite Hn. f_equal. apply list_fmap_ext. intros i k Hik.
    rewrite Hother; [done|]. intros ->. apply Hk. by eapply list_elem_of_lookup_2.
  - rewrite Hother by done. f_equal. apply IH; [|done].
    apply elem_of_cons in Hin as [->|]; done.
Qed.

(** The groups are the names in first-seen order, each with its
    occurrences in input order. *)
Lemma group_loop_spec l :
  group_loop l = (λ n, (n, named n l)) <$> nub_first (name <$> l).
Proof.
  induction l as [|e l IH] using rev_ind; [done|].
  rewrite group_loop_snoc, IH, fmap_snoc, nub_first_snoc.
  destruct (decide (name e ∈ name <$> l)) as [Hin|Hin].
  - apply od_append_present.
    + by apply elem_of_nub_first.
    + apply NoDup_nub_first.
    + unfold named. by rewrite filter_app, filter_cons_True, filter_nil.
    + intros k Hk. unfold named.
      rewrite filter_app, filter_cons_False by done. by rewrite filter_nil, app_nil_r.
  - rewrite od_append_fresh by by rewrite elem_of_nub_first.
    rewrite fmap_app. simpl. f_equal.
    + apply list_fmap_ext. intros i k Hik. f_equal. unfold named.
      rewrite filter_app, filter_cons_False, filter_nil, app_nil_r; [done|].
      intros Heq. apply Hin. rewrite Heq, <- elem_of_nub_first.
      by eapply list_elem_of_lookup_2.
    + unfold named. rewrite filter_app, filter_cons_True by done.
      rewrite filter_nil. f_equal. f_equal.
      rewrite filter_none; [done|].
      apply Forall_forall. intros x Hxl Hx. apply Hin. rewrite <- Hx.
      by apply list_elem_of_fmap_2.
Qed.

(** The output is the sequence of the groups' rows. *)
Lemma group_events_by_name_spec l :
  group_events_by_name l =
    nub_first (name <$> l) ≫= (λ n, emit_group (n, named n l)).
Proof. unfold group_events_by_name. by rewrite group_loop_spec, list_fmap_bind. Qed.

Lemma named_nonempty n l : n ∈ name <$> l → named n l ≠ [].
Proof.
  intros (e & -> & He)%list_elem_of_fmap Hnil.
  assert (e ∈ named (name e) l) as Hin by by apply list_elem_of_filter.
  rewrite Hnil in Hin. by inversion Hin.
Qed.

Lemma named_names n l : Forall (λ e, name e = n) (named n l).
Proof. apply Forall_forall. intros e He. by apply list_elem_of_filter in He as [? _]. Qed.

Lemma emit_group_names n occurrences :
  Forall (λ e, name e = n) occurrences →
  Forall (λ r, name (data r) = n) (emit_group (n, occurrences)).
Proof.
  intros Hocc. rewrite emit_group_rows.
  assert (Forall (λ e, name e = n) (sort_by_date occurrences)) as Hs
    by by rewrite sort_by_date_perm.
  destruct Hs as [|first rest Hfirst Hrest]; constructor; [done|].
  by apply Forall_fmap, Forall_true.
Qed.

(** The rows that carry a name are the rows of its group, in one piece. *)
Lemma rows_of_name l n :
  filter (λ r, name (data r) = n) (group_events_by_name l) = emit_group (n, named n l).
Proof.
  rewrite group_events_by_name_spec.
  assert (∀ ks, NoDup ks →
            filter (λ r, name (data r) = n) (ks ≫= (λ k, emit_group (k, named k l)))
            = if decide (n ∈ ks) then emit_group (n, named n l) else []) as Hks.
  { induction 1 as [|k ks Hk Hnd IH]; [done|].
    rewrite bind_cons, filter_app, IH. destruct (decide (k = n)) as [->|Hne].
    - rewrite (decide_False (P := n ∈ ks)) by done.
      rewrite (decide_True (P := n ∈ n :: ks)) by left.
      rewrite app_nil_r. apply filter_all, emit_group_names, named_names.
    - rewrite filter_none.
      + simpl. destruct (decide (n ∈ ks)) as [Hin|Hin].
        * rewrite decide_True; [done | by right].
        * rewrite decide_False; [done|]. rewrite elem_of_cons. intros [?|?]; done.
      + eapply Forall_impl; [apply emit_group_names, named_names|].
        simpl. intros r -> Heq. done. }
  rewrite Hks by apply NoDup_nub_first.
  destruct (decide (n ∈ nub_first (name <$> l))) as [Hin|Hin]; [done|].
  rewrite emit_group_rows.
  assert (named n l = []) as ->; [|done].
  apply filter_none, Forall_forall. intros e He Hn. apply Hin.
  rewrite elem_of_nub_first, <- Hn. by apply list_elem_of_fmap_2.
Qed.

Lemma key_of_continuation n e : key_of (continuation n e) = key_of e.
Proof. done. Qed.

(** Within a group the rows are in ascending key order, and the rows with
    one and the same key are the occurrences with that key in input order
    (up to the blanking of continuation rows). *)
Lemma group_sorted_stable l n :
  let rows := data <$> filter (λ r, name (data r) = n) (group_events_by_name l) in
  StronglySorted (λ a b, key_le (key_of a) (key_of b)) rows
  ∧ continuation n <$> rows = continuation n <$> sort_by_date (named n l)
  ∧ ∀ k, continuation n <$> filter (λ e, key_of e = k) rows
         = continuation n <$> filter (λ e, key_of e = k) (named n l).
Proof.
  simpl. rewrite rows_of_name, emit_group_rows.
  pose proof (sort_by_date_sorted (named n l)) as Hsorted.
  pose proof (sort_by_date_stable) as Hstable.
  assert (∀ rest : list event_data,
            data <$> ((λ e, mk_grouped (continuation n e) true) <$> rest)
            = continuation n <$> rest) as Hdata.
  { intros rest. rewrite <- list_fmap_compose. done. }
  assert (∀ rest : list event_data,
            continuation n <$> (continuation n <$> rest) = continuation n <$> rest)
    as Hidem.
  { intros rest. rewrite <- list_fmap_compose. by apply list_fmap_ext. }
  assert (∀ k (rest : list event_data),
            filter (λ e, key_of e = k) (continuation n <$> rest)
            = continuation n <$> filter (λ e, key_of e = k) rest) as Hfilter.
  { intros k rest. induction rest as [|e rest IH]; [done|].
    rewrite fmap_cons, !filter_cons, key_of_continuation, IH.
    by destruct (decide (key_of e = k)). }
  split_and!.
  - destruct (sort_by_date (named n l)) as [|first rest]; [constructor|].
    rewrite fmap_cons, Hdata. simpl.
    apply StronglySorted_inv in Hsorted as [Hrest Hfirst].
    constructor.
    + clear Hfirst. induction Hrest as [|e rest Hr IH He]; [constructor|].
      rewrite fmap_cons. constructor; [done|]. by apply Forall_fmap.
    + by apply Forall_fmap.
  - destruct (sort_by_date (named n l)) as [|first rest]; [done|].
    by rewrite !fmap_cons, Hdata, Hidem.
  - intros k. rewrite <- (Hstable k (named n l)).
    destruct (sort_by_date (named n l)) as [|first rest]; [done|].
    rewrite fmap_cons, Hdata. simpl. rewrite !filter_cons, Hfilter.
    destruct (decide (key_of first = k)); by rewrite ?fmap_cons, Hidem.
Qed.

(** C7: the output is a sequence of blocks, one per event name, in the
    order in which the names are first seen in the input and without a
    name occurring twice; a block holds one primary row followed by
    continuation rows only, all of its rows carry the block's name, and it
    has one row per occurrence of that name. *)
Theorem group_order (l : list event_data) :
  ∃ blocks : list (str * list grouped_event),
    group_events_by_name l = blocks ≫= snd
    ∧ fst <$> blocks = nub_first (name <$> l)
    ∧ NoDup (fst <$> blocks)
    ∧ Forall (λ b, ∃ primary conts,
                 b.2 = primary :: conts
                 ∧ is_continuation primary = false
                 ∧ Forall (λ r, is_continuation r = true) conts
                 ∧ Forall (λ r, name (data r) = b.1) b.2
                 ∧ length b.2 = length (named b.1 l)) blocks.
Proof.
  exists ((λ n, (n, emit_group (n, named n l))) <$> nub_first (name <$> l)).
  assert (fst <$> ((λ n, (n, emit_group (n, named n l))) <$> nub_first (name <$> l))
          = nub_first (name <$> l)) as Hkeys.
  { rewrite <- list_fmap_compose. rewrite <- (list_fmap_id (nub_first _)) at 2.
    by apply list_fmap_ext. }
  split_and!.
  - by rewrite group_events_by_name_spec, list_fmap_bind.
  - done.
  - rewrite Hkeys. apply NoDup_nub_first.
  - apply Forall_fmap, Forall_forall. intros n Hn. simpl.
    apply elem_of_nub_first, named_nonempty in Hn.
    pose proof (emit_group_names n (named n l) (named_names n l)) as Hnames.
    pose proof (emit_group_length (n, named n l)) as Hlen.
    rewrite emit_group_rows in *.
    destruct (sort_by_date (named n l)) as [|first rest] eqn:Hs.
    + exfalso. apply Hn. apply Permutation_nil_r. by rewrite <- Hs, sort_by_date_perm.
    + eexists _, _. split_and!; [done | done | | done | done].
      by apply Forall_fmap, Forall_true.
Qed.

(** C8: a continuation row has an empty description, age and place, and
    its name, detail URL, date, time and sign-up text are those of one
    occurrence of the input. *)
Theorem continuation_rows_blank (l : list event_data) (r : grouped_event) :
  r ∈ group_events_by_name l →
  is_continuation r = true →
  description (data r) = [] ∧ age (data r) = [] ∧ place (data r) = []
  ∧ ∃ e, e ∈ l
         ∧ name (data r) = name e
         ∧ event_url (data r) = event_url e
         ∧ date (data r) = date e
         ∧ time (data r) = time e
         ∧ sign_up_date (data r) = sign_up_date e.
Proof.
  rewrite group_events_by_name_spec. intros Hr Hcont.
  apply list_elem_of_bind in Hr as (n & Hr & Hn).
  rewrite emit_group_rows in Hr.
  destruct (sort_by_date (named n l)) as [|first rest] eqn:Hs; [by inversion Hr|].
  apply elem_of_cons in Hr as [->|Hr]; [done|].
  apply list_elem_of_fmap in Hr as (e & -> & He). simpl.
  split_and!; try done.
  assert (e ∈ named n l) as Hin.
  { rewrite <- sort_by_date_elem, Hs. by right. }
  apply list_elem_of_filter in Hin as [Hname Hin].
  exists e. split_and!; done.
Qed.

(** C10: when the input has records with an empty name, the output holds
    them as one run of rows: the first of them in date order as a primary
    row with all of its fields, every other one as a continuation row with
    an empty description, age and place; no row outside of the run has the
    empty name. *)
Theorem untitled_records_one_group (l : list event_data) first rest :
  sort_by_date (named [] l) = first :: rest →
  ∃ before conts after,
    group_events_by_name l = before ++ (mk_grouped first false :: conts) ++ after
    ∧ conts = (λ e, mk_grouped (continuation [] e) true) <$> rest
    ∧ first :: rest ≡ₚ named [] l
    ∧ Forall (λ r, is_continuation r = true ∧ name (data r) = []
                   ∧ description (data r) = [] ∧ age (data r) = []
                   ∧ place (data r) = []) conts
    ∧ Forall (λ r, name (data r) ≠ []) before
    ∧ Forall (λ r, name (data r) ≠ []) after.
Proof.
  intros Hs.
  assert ([] ∈ nub_first (name <$> l)) as Hin.
  { apply elem_of_nub_first.
    assert (first ∈ named [] l) as Hf by (rewrite <- sort_by_date_elem, Hs; left).
    apply list_elem_of_filter in Hf as [Hname Hf]. rewrite <- Hname.
    by apply list_elem_of_fmap_2. }
  apply list_elem_of_split in Hin as (k1 & k2 & Hk).
  pose proof (NoDup_nub_first (name <$> l)) as Hnd. rewrite Hk in Hnd.
  apply NoDup_app in Hnd as (_ & Hk1 & Hnd). apply NoDup_cons in Hnd as [Hk2 _].
  assert (∀ ks, [] ∉ ks →
            Forall (λ r, name (data r) ≠ []) (ks ≫= (λ n, emit_group (n, named n l))))
    as Hother.
  { intros ks Hks. apply Forall_bind, Forall_forall. intros n Hn.
    eapply Forall_impl; [apply emit_group_names, named_names|].
    simpl. intros r -> Heq. apply Hks. by rewrite <- Heq. }
  exists (k1 ≫= (λ n, emit_group (n, named n l))),
         ((λ e, mk_grouped (continuation [] e) true) <$> rest),
         (k2 ≫= (λ n, emit_group (n, named n l))).
  split_and!.
  - rewrite group_events_by_name_spec, Hk, bind_app, bind_cons.
    by rewrite emit_group_rows, Hs.
  - done.
  - by rewrite <- Hs, sort_by_date_perm.
  - by apply Forall_fmap, Forall_true.
  - apply Hother. intros Hin. by apply (Hk1 []); [|left].
  - by apply Hother.
Qed.

(** Every row stems from one occurrence of the input. *)
Lemma row_source (l : list event_data) (r : grouped_event) :
  r ∈ group_events_by_name l →
  ∃ e, e ∈ l ∧ (r = mk_grouped e false ∨ r = mk_grouped (continuation (name e) e) true).
Proof.
  rewrite group_events_by_name_spec. intros (n & Hr & Hn)%list_elem_of_bind.
  rewrite emit_group_rows in Hr.
  destruct (sort_by_date (named n l)) as [|first rest] eqn:Hs; [by inversion Hr|].
  assert (∀ e, e ∈ first :: rest → e ∈ l ∧ name e = n) as Hsrc.
  { intros e He. rewrite <- Hs, sort_by_date_elem in He.
    by apply list_elem_of_filter in He as [? ?]. }
  apply elem_of_cons in Hr as [->|Hr].
  - exists first. split; [apply Hsrc; left | by left].
  - apply list_elem_of_fmap in Hr as (e & -> & He).
    destruct (Hsrc e) as [Hin <-]; [by right|]. exists e. split; [done | by right].
Qed.

Lemma od_append_total n e g :
  length (od_append n e g ≫= snd) = S (length (g ≫= snd)).
Proof.
  induction g as [|[k v] g IH]; [done|]. cbn [od_append].
  destruct (decide (k = n)); rewrite !bind_cons, !length_app; cbn [snd].
  - rewrite length_app. cbn [length]. lia.
  - rewrite IH. lia.
Qed.

(** The output has one row per occurrence of the input. *)
Lemma group_events_by_name_length l : length (group_events_by_name l) = length l.
Proof.
  unfold group_events_by_name.
  assert (∀ g, length (g ≫= emit_group) = length (g ≫= snd)) as ->.
  { induction g as [|b g IH]; [done|].
    by rewrite !bind_cons, !length_app, emit_group_length, IH. }
  induction l as [|e l IH] using rev_ind; [done|].
  rewrite group_loop_snoc, od_append_total, IH, length_app. simpl. lia.
Qed.

(** C2, evaluated: a date text that is not a [DD.MM.YYYY] date but has two
    dots does not get the key of unknown dates.  ["Mo. bis Fr."] sorts
    before the date ["01.06.2024"] and becomes the primary row, and
    ["Fr.Sa.So"] sorts after the empty date that follows it in the
    input. *)
Theorem unknown_date_not_last :
  is_ddmmyyyy (lit "Mo. bis Fr.") = false
  ∧ parse_date_for_sort (lit "Mo. bis Fr.") = ([], lit " bis Fr", lit "Mo")
  ∧ parse_date_for_sort (lit "Mo. bis Fr.") ≠ UNKNOWN_DATE_KEY
  ∧ date ∘ data <$> group_events_by_name
                      [Samples.ferienlager "01.06.2024" "/event/41";
                       Samples.ferienlager "Mo. bis Fr." "/event/42"]
    = [lit "Mo. bis Fr."; lit "01.06.2024"]
  ∧ is_ddmmyyyy (lit "Fr.Sa.So") = false
  ∧ is_ddmmyyyy [] = false
  ∧ date ∘ data <$> group_events_by_name
                      [Samples.ferienlager "Fr.Sa.So" "/event/41";
                       Samples.ferienlager "" "/event/42"]
    = [[]; lit "Fr.Sa.So"].
Proof. split_and!; try (vm_compute; reflexivity). vm_compute. discriminate. Qed.

Lemma continuation_rows_blank_witness :
  let r := mk_grouped (continuation (lit "Ferienlager")
                         (Samples.ferienlager "15.06.2024" "/event/42")) true in
  description (data r) = [] ∧ age (data r) = [] ∧ place (data r) = []
  ∧ ∃ e, e ∈ [Samples.ferienlager "15.06.2024" "/event/42";
              Samples.ferienlager "01.06.2024" "/event/41"]
         ∧ name (data r) = name e
         ∧ event_url (data r) = event_url e
         ∧ date (data r) = date e
         ∧ time (data r) = time e
         ∧ sign_up_date (data r) = sign_up_date e.
Proof.
  apply (continuation_rows_blank
           [Samples.ferienlager "15.06.2024" "/event/42";
            Samples.ferienlager "01.06.2024" "/event/41"]).
  - vm_compute. apply list_elem_of_further, list_elem_of_here.
  - reflexivity.
Defined.

Lemma untitled_records_one_group_witness :
  ∃ before conts after,
    group_events_by_name
      [Samples.untitled "15.06.2024" "/event/1" "Stadtrallye";
       Samples.zoo_besuch;
       Samples.untitled "01.06.2024" "/event/2" "Kinderkino"]
    = before
        ++ (mk_grouped (Samples.untitled "01.06.2024" "/event/2" "Kinderkino") false
            :: conts) ++ after
    ∧ conts = (λ e, mk_grouped (continuation [] e) true)
                <$> [Samples.untitled "15.06.2024" "/event/1" "Stadtrallye"]
    ∧ Samples.untitled "01.06.2024" "/event/2" "Kinderkino"
        :: [Samples.untitled "15.06.2024" "/event/1" "Stadtrallye"]
      ≡ₚ named []
           [Samples.untitled "15.06.2024" "/event/1" "Stadtrallye";
            Samples.zoo_besuch;
            Samples.untitled "01.06.2024" "/event/2" "Kinderkino"]
    ∧ Forall (λ r, is_continuation r = true ∧ name (data r) = []
                   ∧ description (data r) = [] ∧ age (data r) = []
                   ∧ place (data r) = []) conts
    ∧ Forall (λ r, name (data r) ≠ []) before
    ∧ Forall (λ r, name (data r) ≠ []) after.
Proof.
  apply untitled_records_one_group. vm_compute. reflexivity.
Defined.

End GrouperFacts.

(** ** The written sheet *)

Module SheetFacts.

Import Scraper GrouperFacts.

(** C4: the rows filled for the sheet are one per occurrence, whatever
    the prior selections are; the row filled for a primary row of the
    grouper shows the event name and, as Selected value, the prior
    selection recorded for that name, or the empty text when there is
    none; every row is linked to the detail page of an occurrence of the
    input and shows its date, so a name that occurs in the prior
    selections only yields no row.  A sheet that is written has these
    rows. *)
Theorem selections_reapplied (l : list event_data) (selections : gmap str value) :
  length (data_rows l selections) = length l
  ∧ (∀ i g,
       group_events_by_name l !! i = Some g →
       is_continuation g = false →
       ∃ row, data_rows l selections !! i = Some row
              ∧ col_event_name row = Some (Text (name (data g)))
              ∧ col_selected row
                = Some (default (Text []) (selections !! name (data g))))
  ∧ (∀ row,
       row ∈ data_rows l selections →
       ∃ e, e ∈ l
            ∧ name_hyperlink row = Some (Some (event_url e))
            ∧ col_date row = Some (Text (date e))
            ∧ (col_event_name row = Some (Text (name e))
               ∨ col_event_name row = Some (Text Config.CONTINUATION_LINK_MARKER)))
  ∧ (∀ accepts wb_save rows,
       save_to_excel accepts wb_save l selections = Some rows →
       rows = data_rows l selections).
Proof.
  unfold save_to_excel, data_rows. split_and!.
  - by rewrite length_fmap, group_events_by_name_length.
  - intros i g Hg Hcont. exists (write_row selections g). split.
    + by rewrite list_lookup_fmap, Hg.
    + unfold write_row. by rewrite Hcont.
  - intros row (g & -> & Hg)%list_elem_of_fmap.
    apply row_source in Hg as (e & He & [-> | ->]); exists e; split_and!; try done.
    + by left.
    + by right.
  - intros accepts wb_save rows. cbv zeta.
    destruct (_ && _); [|done]. by intros [= <-].
Qed.

Lemma selections_reapplied_witness :
  ∃ row, data_rows [Samples.zoo_besuch] {[ lit "Zoo Besuch" := Text (lit "X");
                                           lit "Kasperltheater" := Text (lit "X") ]}
           !! 0%nat = Some row
         ∧ col_event_name row = Some (Text (lit "Zoo Besuch"))
         ∧ col_selected row = Some (Text (lit "X")).
Proof.
  destruct (proj1 (proj2 (selections_reapplied [Samples.zoo_besuch]
                            {[ lit "Zoo Besuch" := Text (lit "X");
                               lit "Kasperltheater" := Text (lit "X") ]}))
              0%nat (mk_grouped Samples.zoo_besuch false))
    as (row & Hrow & Hname & Hselected); [reflexivity | reflexivity |].
  exists row. split_and!; [done | done |].
  rewrite Hselected. vm_compute. reflexivity.
Defined.

(** The selection typed into a sheet survives a new run: the sheet read
    back has ["X"] for ["Zoo Besuch"] and for an event that is gone, and
    the rows of the new sheet, filled from one occurrence of
    ["Zoo Besuch"], are the single row of that event, selected with
    ["X"]. *)
Lemma zoo_besuch_keeps_selection :
  let old_sheet :=
    [Samples.sheet_line (Some (lit "X")) (Some (lit "Zoo Besuch")) None;
     Samples.sheet_line (Some (lit "X")) (Some (lit "Kasperltheater")) None] in
  (col_selected <$> data_rows [Samples.zoo_besuch]
                      (load_existing_selections (Some old_sheet)))
  = [Some (Text (lit "X"))].
Proof. vm_compute. reflexivity. Qed.

End SheetFacts.

(** ** Fetch with retry *)

Module RetryFacts.

Import Retry.

Lemma attempts_cons_get u t : attempts (Get u :: t) = S (attempts t).
Proof. done. Qed.

Lemma attempts_cons_sleep s t : attempts (Sleep s :: t) = attempts t.
Proof. done. Qed.

Lemma attempts_sleep seconds k :
  (attempts (sleep seconds k).1 ≤ attempts k.1)%nat.
Proof.
  unfold sleep. destruct (seconds <? 0)%Z; simpl.
  - unfold attempts. simpl. lia.
  - by rewrite attempts_cons_sleep.
Qed.

Section Loop.

Context (url : str) (max_retries delay : Z) (env : nat → outcome).

Lemma attempt_loop_attempts remaining attempt :
  (attempts (attempt_loop url max_retries delay env remaining attempt).1
   ≤ remaining)%nat.
Proof.
  revert attempt. induction remaining as [|remaining IH]; intros attempt.
  - simpl. unfold attempts. simpl. lia.
  - cbn [attempt_loop]. cbv zeta. cbn [fst]. rewrite attempts_cons_get.
    apply le_n_S. specialize (IH (attempt + 1)%Z).
    destruct (env (Z.to_nat attempt)) as [text|[m|code m|m|m]]; cbn [fst];
      try (unfold attempts; simpl; lia).
    + destruct (attempt <? max_retries - 1)%Z;
        [etrans; [apply attempts_sleep | done] | unfold attempts; simpl; lia].
    + destruct ((code =? 429)%Z || (code =? 503)%Z);
        [|unfold attempts; simpl; lia].
      etrans; [apply attempts_sleep|].
      destruct (attempt <? max_retries - 1)%Z; [done | unfold attempts; simpl; lia].
    + destruct (attempt <? max_retries - 1)%Z;
        [etrans; [apply attempts_sleep | done] | unfold attempts; simpl; lia].
Qed.

(** No more requests are made than [max_retries]. *)
Lemma attempts_bounded :
  (attempts (make_request_with_retry url max_retries delay env).1
   ≤ Z.to_nat max_retries)%nat.
Proof. apply attempt_loop_attempts. Qed.

Lemma sleep_raised seconds k :
  (∃ e, k.2 = Raised e) → ∃ e, (sleep seconds k).2 = Raised e.
Proof. unfold sleep. destruct (seconds <? 0)%Z; simpl; eauto. Qed.

Lemma attempt_loop_raises remaining attempt :
  (∀ i, ∃ e, env i = Fails e) →
  ∃ e, (attempt_loop url max_retries delay env remaining attempt).2 = Raised e.
Proof.
  intros Hfail. revert attempt.
  induction remaining as [|remaining IH]; intros attempt; [simpl; eauto|].
  cbn [attempt_loop]. cbv zeta. cbn [snd]. specialize (IH (attempt + 1)%Z).
  destruct (Hfail (Z.to_nat attempt)) as [e ->].
  destruct e as [m|code m|m|m]; cbn [snd]; eauto.
  - destruct (attempt <? max_retries - 1)%Z; [by apply sleep_raised | simpl; eauto].
  - destruct ((code =? 429)%Z || (code =? 503)%Z); [|simpl; eauto].
    apply sleep_raised. destruct (attempt <? max_retries - 1)%Z; [done | simpl; eauto].
  - destruct (attempt <? max_retries - 1)%Z; [by apply sleep_raised | simpl; eauto].
Qed.

(** When every request fails, the call raises. *)
Lemma exhaustion_raises :
  (∀ i, ∃ e, env i = Fails e) →
  ∃ e, (make_request_with_retry url max_retries delay env).2 = Raised e.
Proof. apply attempt_loop_raises. Qed.

(** After time-outs the wait doubles from one attempt to the next. *)
Lemma timeout_waits remaining attempt m :
  (0 ≤ delay)%Z → (0 ≤ attempt)%Z →
  (attempt + Z.of_nat remaining = max_retries)%Z →
  (∀ i, env i = Fails (Timeout m)) →
  waits (attempt_loop url max_retries delay env remaining attempt).1
  = (λ i, delay * 2 ^ (attempt + Z.of_nat i))%Z <$> seq 0 (remaining - 1).
Proof.
  intros Hdelay Hattempt Hsum Henv. revert attempt Hattempt Hsum.
  induction remaining as [|remaining IH]; intros attempt Hattempt Hsum; [done|].
  cbn [attempt_loop]. cbv zeta. rewrite Henv. cbn [fst].
  destruct (Z.ltb_spec attempt (max_retries - 1)) as [Hlt|Hge].
  - unfold sleep. destruct (Z.ltb_spec (delay * 2 ^ attempt) 0) as [Hneg|_]; [nia|].
    cbn [fst waits omap list_omap]. rewrite IH by lia.
    destruct remaining as [|remaining]; [lia|].
    replace (S (S remaining) - 1)%nat with (S remaining) by lia.
    replace (S remaining - 1)%nat with remaining by lia.
    cbn [seq]. rewrite fmap_cons, Z.add_0_r. f_equal.
    rewrite <- fmap_S_seq, <- list_fmap_compose. apply list_fmap_ext.
    intros i k _. simpl. f_equal. f_equal. lia.
  - destruct remaining as [|remaining]; [done | lia].
Qed.

(** After other network errors the wait stays the initial delay. *)
Lemma request_exception_waits remaining attempt m :
  (0 ≤ delay)%Z →
  (attempt + Z.of_nat remaining = max_retries)%Z →
  (∀ i, env i = Fails (RequestException m)) →
  waits (attempt_loop url max_retries delay env remaining attempt).1
  = replicate (remaining - 1) delay.
Proof.
  intros Hdelay Hsum Henv. revert attempt Hsum.
  induction remaining as [|remaining IH]; intros attempt Hsum; [done|].
  cbn [attempt_loop]. cbv zeta. rewrite Henv. cbn [fst].
  destruct (Z.ltb_spec attempt (max_retries - 1)) as [Hlt|Hge].
  - unfold sleep. destruct (Z.ltb_spec delay 0) as [Hneg|_]; [lia|].
    cbn [fst waits omap list_omap]. rewrite IH by lia.
    destruct remaining as [|remaining]; [lia|]. simpl. by rewrite Nat.sub_0_r.
  - destruct remaining as [|remaining]; [done | lia].
Qed.

End Loop.

(** C9, evaluated with the configured three attempts and initial delay 2:
    after time-outs the waits double (2, 4); after other network errors
    the wait stays at the initial delay (2, 2); after a 503 the wait stays
    at twice the initial delay and is taken once more before the last
    failure is raised (4, 4, 4).  In each case three requests are made and
    the last failure is raised. *)
Theorem backoff_only_doubles_on_timeout :
  make_request_with_retry (lit "/event/7") Config.MAX_RETRIES Config.INITIAL_BACKOFF
    (λ _, Fails (RequestException (lit "connection reset")))
  = ([Get (lit "/event/7"); Sleep 2; Get (lit "/event/7"); Sleep 2;
      Get (lit "/event/7")],
     Raised (RequestException (lit "connection reset")))
  ∧ make_request_with_retry (lit "/event/7") Config.MAX_RETRIES Config.INITIAL_BACKOFF
      (λ _, Fails (Timeout (lit "timed out")))
    = ([Get (lit "/event/7"); Sleep 2; Get (lit "/event/7"); Sleep 4;
        Get (lit "/event/7")],
       Raised (Timeout (lit "timed out")))
  ∧ make_request_with_retry (lit "/event/7") Config.MAX_RETRIES Config.INITIAL_BACKOFF
      (λ _, Fails (HTTPError 503 (lit "Service Unavailable")))
    = ([Get (lit "/event/7"); Sleep 4; Get (lit "/event/7"); Sleep 4;
        Get (lit "/event/7"); Sleep 4],
       Raised (HTTPError 503 (lit "Service Unavailable"))).
Proof. split_and!; vm_compute; reflexivity. Qed.

End RetryFacts.

(** ** The detail parser *)

Module DetailFacts.

Import Scraper Detail.

Section Parser.

Context `{Bs4 soup tag node}.
Context (html_parser : str → parse soup) (lower : str → str).

Abbreviation extract_field_by_header := (extract_field_by_header lower).
Abbreviation parse_event_page := (parse_event_page html_parser lower).
Abbreviation scrape_event_details := (scrape_event_details html_parser lower).

Lemma header_loop_absent header_text headers :
  Forall (λ header, header_matches lower header_text header = false) headers →
  header_loop lower header_text headers = [].
Proof.
  induction 1 as [|header rest Hh Hrest IH]; [done|].
  simpl. by rewrite Hh.
Qed.

(** A label without a section yields the empty text. *)
Lemma extract_field_absent s header_text :
  no_section lower s header_text → extract_field_by_header s header_text = [].
Proof. apply header_loop_absent. Qed.

Lemma extract_sign_up_absent s :
  no_section lower s (lit "Anmeldebeginn") →
  no_section lower s (lit "Anmeldung") →
  extract_sign_up lower s = SignUp.NOT_SPECIFIED.
Proof.
  intros H1 H2. unfold extract_sign_up.
  by rewrite !extract_field_absent.
Qed.

Lemma description_after_title_absent siblings :
  Forall (λ p, tag_name p = lit "p" → ¬ substantial p) siblings →
  description_after_title siblings = [].
Proof.
  induction 1 as [|p rest Hp Hrest IH]; [done|]. simpl.
  destruct (bool_decide (tag_name p = lit "h3")); [done|].
  destruct (bool_decide (tag_name p = lit "p")) eqn:Hname; [|done].
  apply bool_decide_eq_true_1 in Hname. specialize (Hp Hname).
  unfold substantial in Hp.
  destruct (Nat.ltb_spec 50 (length (clean_text (get_text p)))); [lia | done].
Qed.

Lemma first_substantial_absent paragraphs :
  Forall (λ p, ¬ substantial p) paragraphs → first_substantial paragraphs = [].
Proof.
  induction 1 as [|p rest Hp Hrest IH]; [done|]. simpl.
  unfold substantial in Hp.
  destruct (Nat.ltb_spec 50 (length (clean_text (get_text p)))); [lia | done].
Qed.

Lemma extract_description_absent s :
  no_description s →
  extract_description s (head (find_all s (lit "h2"))) = NO_DESCRIPTION.
Proof.
  intros [Hall Htitle]. unfold extract_description.
  rewrite first_substantial_absent by done.
  destruct (head (find_all s (lit "h2"))) as [h2|]; [|done].
  by rewrite description_after_title_absent by by apply Htitle.
Qed.

(** C6 (as amended): for every page text that the HTML parser accepts and
    every URL, the detail parser returns a record.  The record carries the
    given URL; its name is empty when the page has no title; its age,
    place, date and time are empty when the page has no section with the
    respective label; its sign-up text is ['Not specified'] when the page
    has neither a registration-start nor a registration section; its
    description is the placeholder when the page has no substantial
    paragraph.  For a page text that the HTML parser rejects, the detail
    parser raises.  The scrape of one event returns a record in every
    case: when the fetch raises, and when the page fetched is rejected by
    the parser, the record is the placeholder with the error marker and
    the URL as name and the failure text as description; the first is the
    case whenever every request fails. *)
Theorem detail_record (html_content event_url : str) :
  (∀ s, html_parser html_content = Parsed s →
     ∃ r, parse_event_page html_content event_url = Page r
       ∧ Scraper.event_url r = event_url
       ∧ (find_all s (lit "h2") = [] → name r = [])
       ∧ (no_section lower s (lit "Alter") → age r = [])
       ∧ (no_section lower s (lit "Treffpunkt") → place r = [])
       ∧ (no_section lower s (lit "Datum") → date r = [])
       ∧ (no_section lower s (lit "Uhrzeit") → time r = [])
       ∧ (no_section lower s (lit "Anmeldebeginn") →
          no_section lower s (lit "Anmeldung") →
          sign_up_date r = SignUp.NOT_SPECIFIED)
       ∧ (no_description s → description r = NO_DESCRIPTION))
  ∧ (∀ msg, html_parser html_content = Rejected msg →
       parse_event_page html_content event_url = PageError msg)
  ∧ (∀ env listing_date e,
       (Retry.make_request_with_retry event_url Config.MAX_RETRIES
          Config.INITIAL_BACKOFF env).2 = Retry.Raised e →
       scrape_event_details env event_url listing_date
       = {| name := lit "ERROR: " ++ event_url;
            age := [];
            place := [];
            date := listing_date;
            time := [];
            sign_up_date := [];
            event_url := event_url;
            description := lit "Scraping failed: " ++ Retry.exn_str e |})
  ∧ (∀ env listing_date msg,
       (Retry.make_request_with_retry event_url Config.MAX_RETRIES
          Config.INITIAL_BACKOFF env).2 = Retry.Returned html_content →
       html_parser html_content = Rejected msg →
       scrape_event_details env event_url listing_date
       = {| name := lit "ERROR: " ++ event_url;
            age := [];
            place := [];
            date := listing_date;
            time := [];
            sign_up_date := [];
            event_url := event_url;
            description := lit "Scraping failed: " ++ msg |})
  ∧ (∀ env listing_date,
       (∀ i, ∃ e, env i = Retry.Fails e) →
       ∃ e, name (scrape_event_details env event_url listing_date)
            = lit "ERROR: " ++ event_url
            ∧ description (scrape_event_details env event_url listing_date)
              = lit "Scraping failed: " ++ Retry.exn_str e
            ∧ Scraper.event_url (scrape_event_details env event_url listing_date)
              = event_url).
Proof.
  split_and!.
  - intros s Hs. unfold Detail.parse_event_page. rewrite Hs.
    eexists. split; [reflexivity|]. split_and!.
    + done.
    + simpl. by intros ->.
    + apply extract_field_absent.
    + apply extract_field_absent.
    + apply extract_field_absent.
    + apply extract_field_absent.
    + apply extract_sign_up_absent.
    + apply extract_description_absent.
  - intros msg Hmsg. unfold Detail.parse_event_page. by rewrite Hmsg.
  - intros env listing_date e Hraised.
    unfold Detail.scrape_event_details. by rewrite Hraised.
  - intros env listing_date msg Hreturned Hmsg.
    unfold Detail.scrape_event_details, Detail.parse_event_page.
    by rewrite Hreturned, Hmsg.
  - intros env listing_date Hfail.
    destruct (RetryFacts.exhaustion_raises event_url Config.MAX_RETRIES
                Config.INITIAL_BACKOFF env Hfail) as [e He].
    exists e. unfold Detail.scrape_event_details. by rewrite He.
Qed.

End Parser.

(** The scenario of the specification: a page with the title
    ["Ferienlager"], an age section and a registration-start section with
    a lottery period.  The sign-up text is normalized to a range and read
    as the window 1 May to 10 May 2024. *)
Lemma ferienlager_page :
  let page : Flat.flat_soup :=
    [(lit "h2", lit "Ferienlager");
     (lit "h3", lit "Alter"); (lit "div", lit "6-10");
     (lit "h3", lit "Anmeldebeginn");
     (lit "div", lit "Verlosungszeitraum: 01.05.2024 bis 10.05.2024")] in
  ∃ r, Detail.parse_event_page (Flat.reads_as page) Flat.ascii_lower []
         (lit "/event/42") = Page r
  ∧ name r = lit "Ferienlager" ∧ age r = lit "6-10" ∧ place r = []
  ∧ sign_up_date r = lit "01.05.2024 - 10.05.2024"
  ∧ description r = NO_DESCRIPTION
  ∧ SignUp.parse_date_range Samples.ascii_digits (Some (sign_up_date r))
    = Some (Date.mk 2024 5 1, Date.mk 2024 5 10).
Proof. eexists. split; [reflexivity|]. vm_compute. split_and!; reflexivity. Qed.

(** C6, as the specification words it, fails: the parser call stands
    before the [try] block of the detail parser, so a page text that the
    parser rejects makes the detail parser raise. *)
Lemma parser_never_raises_fails : ¬ parser_never_raises.
Proof.
  intros Hstated.
  destruct (Hstated (Flat.strict []) Flat.ascii_lower Flat.UNFINISHED_SECTION
              (lit "/event/42")) as [r Hr].
  vm_compute in Hr. discriminate Hr.
Qed.

Lemma detail_record_witness :
  (∃ r, Detail.parse_event_page (Flat.strict [(lit "h2", lit "Ferienlager")])
          Flat.ascii_lower (lit "<h2>Ferienlager</h2>") (lit "/event/42") = Page r
     ∧ age r = []
     ∧ sign_up_date r = SignUp.NOT_SPECIFIED
     ∧ description r = NO_DESCRIPTION)
  ∧ name (Detail.scrape_event_details
            (Flat.strict [(lit "h2", lit "Ferienlager")])
            Flat.ascii_lower
            (λ _, Retry.Fails (Retry.Timeout (lit "timed out")))
            (lit "/event/42") (lit "15.06.2024"))
    = lit "ERROR: /event/42"
  ∧ name (Detail.scrape_event_details
            (Flat.strict [(lit "h2", lit "Ferienlager")])
            Flat.ascii_lower
            (λ _, Retry.Response Flat.UNFINISHED_SECTION)
            (lit "/event/42") (lit "15.06.2024"))
    = lit "ERROR: /event/42".
Proof.
  split_and!.
  - destruct (proj1 (detail_record (Flat.strict [(lit "h2", lit "Ferienlager")])
                       Flat.ascii_lower (lit "<h2>Ferienlager</h2>")
                       (lit "/event/42"))
                [(lit "h2", lit "Ferienlager")] eq_refl)
      as (r & Hr & _ & _ & Hage & _ & _ & _ & Hsign & Hdesc).
    exists r. split_and!.
    + exact Hr.
    + apply Hage. vm_compute. constructor.
    + apply Hsign; vm_compute; constructor.
    + apply Hdesc. split.
      * vm_compute. constructor.
      * intros h2 Hh2. vm_compute in Hh2. injection Hh2 as <-. vm_compute. constructor.
  - rewrite (proj1 (proj2 (proj2 (detail_record
               (Flat.strict [(lit "h2", lit "Ferienlager")]) Flat.ascii_lower
               [] (lit "/event/42"))))
               (λ _, Retry.Fails (Retry.Timeout (lit "timed out")))
               (lit "15.06.2024") (Retry.Timeout (lit "timed out")));
      [vm_compute; reflexivity | vm_compute; reflexivity].
  - rewrite (proj1 (proj2 (proj2 (proj2 (detail_record
               (Flat.strict [(lit "h2", lit "Ferienlager")]) Flat.ascii_lower
               Flat.UNFINISHED_SECTION (lit "/event/42")))))
               (λ _, Retry.Response Flat.UNFINISHED_SECTION)
               (lit "15.06.2024")
               (lit "The markup you provided was rejected by the parser."));
      [vm_compute; reflexivity | vm_compute; reflexivity | vm_compute; reflexivity].
Defined.

End DetailFacts.

(** ** The calendar export *)

Module CalendarFacts.

Import Scraper Calendar.

Lemma primary_truthy r :
  is_continuation_row r = false → cell_truthy (col_event_name r) = true.
Proof.
  unfold is_continuation_row.
  destruct (cell_truthy (col_event_name r)); [done|].
  by rewrite orb_true_l.
Qed.

Lemma last_primary_snoc before r :
  last_primary (before ++ [r]) =
    if is_continuation_row r then last_primary before else Some r.
Proof.
  unfold last_primary. rewrite reverse_snoc, filter_cons.
  destruct (is_continuation_row r); by destruct (decide _).
Qed.

Lemma last_primary_is_primary before p :
  last_primary before = Some p → is_continuation_row p = false.
Proof.
  unfold last_primary. intros Hp%head_Some_elem_of.
  by apply list_elem_of_filter in Hp as [? _].
Qed.

Lemma owner_last_primary before r :
  owner before r = if is_continuation_row r then last_primary before else Some r.
Proof.
  unfold owner, last_primary. rewrite filter_cons.
  destruct (is_continuation_row r); by destruct (decide _).
Qed.

(** The day after a calendar date is missing for 31.12.9999 only. *)
Lemma add_day_last d :
  Date.wf d → Date.add_day d = None ↔ d = Date.mk 9999 12 31.
Proof.
  intros Hwf. split.
  - intros Hnone. destruct (decide (d = Date.mk 9999 12 31)) as [|Hne]; [done|].
    destruct (SignUpFacts.add_day_wf d Hwf Hne) as [next_day Hnext]. congruence.
  - by intros ->.
Qed.

Section RowLoop.

Context (nd_value : N → option N) (sha256_hexdigest : str → str).

Abbreviation step := (step nd_value sha256_hexdigest).
Abbreviation run := (run nd_value sha256_hexdigest).
Abbreviation expected_entry := (expected_entry nd_value sha256_hexdigest is_selected).
Abbreviation expected_skip := (expected_skip nd_value is_selected).
Abbreviation raises := (raises nd_value).

Lemma window_wf c start_date end_date :
  parse_date_range_cell nd_value c = Some (Some (start_date, end_date)) →
  Date.wf start_date ∧ Date.wf end_date.
Proof.
  unfold parse_date_range_cell. destruct c as [[s|truth repr]|].
  - intros Hparse. apply (SignUpFacts.parse_date_range_wf nd_value (Some s)).
    congruence.
  - by destruct truth.
  - intros Hparse. apply (SignUpFacts.parse_date_range_wf nd_value None).
    congruence.
Qed.

(** The part of a turn of the loop that follows the update of the two
    variables, for a row under the selected event named by [current]. *)
Lemma selected_turn entries skipped (current : option value) current_url r row_url :
  cell_truthy current = true →
  match parse_date_range_cell nd_value (col_sign_up r) with
  | None => None
  | Some None =>
      Some (mk_state entries (length entries) (S skipped) current current_url)
  | Some (Some (start_date, end_date)) =>
      match make_event sha256_hexdigest (cell_str current) row_url
              start_date end_date with
      | Some entry =>
          Some (mk_state (entries ++ [entry]) (S (length entries)) skipped
                         current current_url)
      | None => None
      end
  end
  = if row_raises nd_value r then None
    else Some (mk_state
                 (entries ++ option_list
                    ('(start_date, end_date) ← window nd_value r;
                     next_day ← Date.add_day end_date;
                     Some {| summary := SUMMARY_PREFIX ++ cell_str current;
                             dtstart := start_date;
                             dtend := next_day;
                             uid := make_uid sha256_hexdigest (cell_str current)
                                      start_date end_date;
                             url := if truthy row_url then row_url else None;
                             valarm := mk_alarm (lit "DISPLAY") 0
                                         (SUMMARY_PREFIX ++ cell_str current) |}))
                 (length entries
                  + if bool_decide (is_Some (window nd_value r)) then 1 else 0)
                 (skipped
                  + if bool_decide (is_Some (window nd_value r)) then 0 else 1)
                 current current_url).
Proof.
  intros _. unfold row_raises, window, make_event.
  destruct (parse_date_range_cell nd_value (col_sign_up r))
    as [[[start_date end_date]|]|] eqn:Hparse.
  - destruct (window_wf _ _ _ Hparse) as [_ Hwf].
    destruct (decide (end_date = Date.mk 9999 12 31)) as [->|Hne].
    + by rewrite bool_decide_eq_true_2.
    + rewrite bool_decide_eq_false_2 by done.
      destruct (SignUpFacts.add_day_wf end_date Hwf Hne) as [next_day Hnext].
      cbn [mbind option_bind]. rewrite Hnext. cbn [mbind option_bind option_list].
      rewrite bool_decide_eq_true_2 by by eexists.
      by rewrite Nat.add_1_r, Nat.add_0_r.
  - cbn [mbind option_bind option_list].
    rewrite bool_decide_eq_false_2 by by intros [? ?].
    by rewrite app_nil_r, Nat.add_1_r, Nat.add_0_r.
  - done.
Qed.

Lemma quiet_next_day r start_date end_date :
  row_raises nd_value r = false →
  window nd_value r = Some (start_date, end_date) →
  is_Some (Date.add_day end_date).
Proof.
  unfold row_raises, window.
  destruct (parse_date_range_cell nd_value (col_sign_up r))
    as [[[s e]|]|] eqn:Hparse; try done.
  intros Hne%bool_decide_eq_false_1 [= -> ->].
  destruct (window_wf _ _ _ Hparse) as [_ Hwf].
  by apply SignUpFacts.add_day_wf.
Qed.

Ltac fields :=
  cbn [cal events_created events_skipped current_selected_event current_event_url].

(** One turn of the loop: it raises on a row of a selected event that
    makes the export raise, and on every other row it does what is
    demanded for the row. *)
Lemma step_spec before st r :
  loop_invariant before st →
  if raises before r then step st r = None
  else ∃ st', step st r = Some st'
    ∧ loop_invariant (before ++ [r]) st'
    ∧ cal st' = cal st ++ option_list (expected_entry before r)
    ∧ events_skipped st'
      = (events_skipped st + if expected_skip before r then 1 else 0)%nat
    ∧ (events_created st' + events_skipped st'
       = events_created st + events_skipped st
         + if owned_by_selected before r then 1 else 0)%nat.
Proof.
  intros (Hcur & Hurl & Hcount).
  destruct st as [entries created skipped current current_url].
  simpl in Hcur, Hurl, Hcount. subst current current_url created.
  unfold Calendar.raises, owned_by_selected, loop_invariant,
    Calendar.expected_entry, Calendar.expected_skip.
  rewrite owner_last_primary, last_primary_snoc.
  unfold Calendar.step, entry_url. cbv zeta.
  destruct (is_continuation_row r) eqn:Hcont; cbn [negb andb].
  - (* a continuation row: the variables are unchanged *)
    fields.
    destruct (last_primary before) as [p|] eqn:Hp; cbn [mbind option_bind];
      [|eexists; split; [done|]; simpl; rewrite app_nil_r;
        split_and!; try done; lia].
    pose proof (primary_truthy p (last_primary_is_primary _ _ Hp)) as Hname.
    destruct (is_selected p) eqn:Hsel; cbn [andb];
      [|eexists; split; [done|]; simpl; rewrite ?Hsel, ?app_nil_r;
        split_and!; try done; lia].
    rewrite Hname, (selected_turn entries skipped _ _ r _ Hname).
    destruct (row_raises nd_value r) eqn:Hquiet; [done|].
    eexists. split; [done|]. fields. rewrite ?Hsel.
    destruct (window nd_value r) as [[start_date end_date]|] eqn:Hwin.
    + rewrite bool_decide_eq_true_2 by by eexists.
      destruct (quiet_next_day r _ _ Hquiet Hwin) as [next_day Hnext].
      cbn [mbind option_bind negb andb]. rewrite Hnext, ?Hsel.
      cbn [mbind option_bind option_list negb andb].
      rewrite ?length_app. cbn [length]. split_and!; try done; lia.
    + rewrite bool_decide_eq_false_2 by by intros [? ?].
      cbn [mbind option_bind option_list negb andb]. rewrite ?Hsel, ?app_nil_r.
      split_and!; try done; lia.
  - (* a primary row: the variables are set from it *)
    pose proof (primary_truthy r Hcont) as Hname.
    destruct (is_selected r) eqn:Hsel; cbn [andb]; fields;
      [|eexists; split; [done|]; simpl; rewrite ?Hsel, ?app_nil_r;
        split_and!; try done; lia].
    rewrite Hname, (selected_turn entries skipped _ _ r _ Hname).
    destruct (row_raises nd_value r) eqn:Hquiet; [done|].
    eexists. split; [done|]. fields. rewrite ?Hsel.
    destruct (window nd_value r) as [[start_date end_date]|] eqn:Hwin.
    + rewrite bool_decide_eq_true_2 by by eexists.
      destruct (quiet_next_day r _ _ Hquiet Hwin) as [next_day Hnext].
      cbn [mbind option_bind negb andb]. rewrite Hnext, ?Hsel.
      cbn [mbind option_bind option_list negb andb].
      rewrite ?length_app. cbn [length]. split_and!; try done; lia.
    + rewrite bool_decide_eq_false_2 by by intros [? ?].
      cbn [mbind option_bind option_list negb andb]. rewrite ?Hsel, ?app_nil_r.
      split_and!; try done; lia.
Qed.

Lemma run_spec rows : ∀ before st,
  loop_invariant before st →
  (Exists (λ '(b, r), raises b r = true) (positions before rows) →
   run st rows = None)
  ∧ (Forall (λ '(b, r), raises b r = false) (positions before rows) →
     ∃ st', run st rows = Some st'
       ∧ cal st' = cal st ++ omap (λ '(b, r), expected_entry b r)
                                  (positions before rows)
       ∧ events_created st' = length (cal st')
       ∧ events_skipped st'
         = (events_skipped st
            + length (filter (λ '(b, r), expected_skip b r = true)
                             (positions before rows)))%nat
       ∧ (events_created st' + events_skipped st'
          = events_created st + events_skipped st
            + length (filter (λ '(b, r), owned_by_selected b r = true)
                             (positions before rows)))%nat).
Proof.
  induction rows as [|r rows IH]; intros before st Hinv.
  - split; [by intros ?%Exists_nil|]. intros _.
    exists st. simpl. rewrite app_nil_r.
    split_and!; [done | done | apply Hinv | lia | lia].
  - pose proof (step_spec before st r Hinv) as Hstep.
    cbn [Calendar.run positions]. rewrite Exists_cons, Forall_cons.
    destruct (Calendar.raises nd_value before r) eqn:Hraises.
    + rewrite Hstep. split; [done|]. by intros [? _].
    + destruct Hstep as (st1 & -> & Hinv1 & Hcal1 & Hskip1 & Hsum1).
      destruct (IH (before ++ [r]) st1 Hinv1) as [Hfail Hok].
      split; [by intros [?|?]; [|apply Hfail]|].
      intros [_ Hall].
      destruct (Hok Hall) as (st' & Hrun & Hcal & Hcount & Hskip & Hsum).
      exists st'. split; [done|]. split_and!; [|done| |].
      * rewrite Hcal, Hcal1, <- (assoc (++)). f_equal. simpl.
        by destruct (Calendar.expected_entry _ _ _ before r).
      * rewrite Hskip, Hskip1, filter_cons.
        destruct (decide _) as [Hyes|Hno].
        -- simpl in Hyes. rewrite Hyes. simpl. lia.
        -- simpl in Hno. apply not_true_is_false in Hno. rewrite Hno. simpl. lia.
      * rewrite Hsum, Hsum1, filter_cons.
        destruct (decide _) as [Hyes|Hno].
        -- simpl in Hyes. rewrite Hyes. simpl. lia.
        -- simpl in Hno. apply not_true_is_false in Hno. rewrite Hno. simpl. lia.
Qed.


End RowLoop.



(** The scenario of the specification: the selected event with the window
    1 May to 10 May 2024 gives one entry from 1 May to 11 May. *)
Lemma ferienlager_entry :
  (λ st, (λ e, (dtstart e, dtend e)) <$> cal st)
    <$> create_calendar_events Samples.ascii_digits Samples.plain_digest
          [Samples.sheet_line (Some (lit "X")) (Some (lit "Ferienlager"))
             (Some (lit "01.05.2024 - 10.05.2024"))]
  = Some [(Date.mk 2024 5 1, Date.mk 2024 5 11)].
Proof. vm_compute. reflexivity. Qed.

(** A window that ends on the last day the calendar type can hold makes
    the export fail as a whole, and so does a Sign-Up cell with a number
    or a date, when the row belongs to a selected event. *)
Lemma last_day_overflows :
  create_calendar_events Samples.ascii_digits Samples.plain_digest
    [Samples.sheet_line (Some (lit "X")) (Some (lit "Zoo Besuch"))
       (Some (lit "31.12.9999"))] = None
  ∧ create_calendar_events Samples.ascii_digits Samples.plain_digest
      [Samples.sheet_line_with (Some (lit "X")) (Some (lit "Zoo Besuch"))
         Samples.date_2024_05_01] = None
  ∧ create_calendar_events Samples.ascii_digits Samples.plain_digest
      [Samples.sheet_line_with (Some (lit "X")) (Some (lit "Zoo Besuch"))
         Samples.number_0]
    = Some (mk_state [] 0 1 (Some (Text (lit "Zoo Besuch")))
              (Some (lit "/event/7"))).
Proof. vm_compute. split_and!; reflexivity. Qed.

End CalendarFacts.

(** ** Further properties of the fetch with retry *)

Module RetryMore.

Import Retry Notions.

Lemma sleep_ok seconds k :
  (0 ≤ seconds)%Z → sleep seconds k = (Sleep seconds :: k.1, k.2).
Proof. intros Hs. unfold sleep. by destruct (Z.ltb_spec seconds 0); [lia|]. Qed.

Lemma backoff_nonneg delay attempt : (0 ≤ delay)%Z → (0 ≤ attempt)%Z → (0 ≤ delay * 2 ^ attempt)%Z.
Proof. intros. apply Z.mul_nonneg_nonneg; [done|]. by apply Z.pow_nonneg. Qed.

Section Loop.

Context (url : str) (max_retries delay : Z) (env : nat → outcome).
Context (Hdelay : (0 ≤ delay)%Z).

Abbreviation loop := (attempt_loop url max_retries delay env).

(** The loop from attempt [attempt] on, when the first request that is not
    retried is the one of attempt [attempt + k]. *)
Lemma loop_decided k : ∀ remaining attempt,
  (0 ≤ attempt)%Z →
  (attempt + Z.of_nat remaining = max_retries)%Z →
  (k < remaining)%nat →
  (∀ i, (i < k)%nat → retried (env (Z.to_nat attempt + i)%nat) = true) →
  retried (env (Z.to_nat attempt + k)%nat) = false →
  (loop remaining attempt).2 = final_result (env (Z.to_nat attempt + k)%nat)
  ∧ attempts (loop remaining attempt).1 = S k.
Proof.
  induction k as [|k IH]; intros remaining attempt Hattempt Hsum Hk Hbefore Hat.
  - destruct remaining as [|remaining]; [lia|].
    rewrite Nat.add_0_r in *. cbn [attempt_loop]. cbv zeta.
    destruct (env (Z.to_nat attempt)) as [text|[m|code m|m|m]]; try done.
    simpl in Hat. by rewrite Hat.
  - destruct remaining as [|remaining]; [lia|].
    assert ((attempt <? max_retries - 1)%Z = true) as Hmore by (apply Z.ltb_lt; lia).
    destruct (IH remaining (attempt + 1)%Z) as [Hres Hcount]; [lia | lia | lia | | |].
    { intros i Hi. replace (Z.to_nat (attempt + 1) + i)%nat
        with (Z.to_nat attempt + S i)%nat by lia. apply Hbefore. lia. }
    { by replace (Z.to_nat (attempt + 1) + k)%nat
        with (Z.to_nat attempt + S k)%nat by lia. }
    replace (Z.to_nat (attempt + 1) + k)%nat
      with (Z.to_nat attempt + S k)%nat in Hres by lia.
    specialize (Hbefore 0%nat ltac:(lia)). rewrite Nat.add_0_r in Hbefore.
    cbn [attempt_loop]. cbv zeta. rewrite Hmore.
    destruct (env (Z.to_nat attempt)) as [text|[m|code m|m|m]]; try done.
    + rewrite sleep_ok by by apply backoff_nonneg. cbn [fst snd].
      by rewrite RetryFacts.attempts_cons_get, RetryFacts.attempts_cons_sleep, Hcount.
    + simpl in Hbefore. rewrite Hbefore.
      rewrite sleep_ok by lia. cbn [fst snd].
      by rewrite RetryFacts.attempts_cons_get, RetryFacts.attempts_cons_sleep, Hcount.
    + rewrite sleep_ok by done. cbn [fst snd].
      by rewrite RetryFacts.attempts_cons_get, RetryFacts.attempts_cons_sleep, Hcount.
Qed.

(** The loop from attempt [attempt] on, when every request is retried
    while attempts are left. *)
Lemma loop_exhausted : ∀ remaining attempt,
  (0 ≤ attempt)%Z →
  (attempt + Z.of_nat remaining = max_retries)%Z →
  (0 < remaining)%nat →
  (∀ i, retried (env i) = true) →
  (loop remaining attempt).2 = final_result (env (Z.to_nat (max_retries - 1)))
  ∧ attempts (loop remaining attempt).1 = remaining.
Proof.
  induction remaining as [|remaining IH]; intros attempt Hattempt Hsum Hpos Hall; [lia|].
  specialize (Hall (Z.to_nat attempt)) as Hhere.
  cbn [attempt_loop]. cbv zeta.
  destruct (Z.ltb_spec attempt (max_retries - 1)) as [Hmore|Hlast].
  - destruct (IH (attempt + 1)%Z) as [Hres Hcount]; [lia | lia | lia | done |].
    destruct (env (Z.to_nat attempt)) as [text|[m|code m|m|m]]; try done.
    + rewrite sleep_ok by by apply backoff_nonneg. cbn [fst snd].
      by rewrite RetryFacts.attempts_cons_get, RetryFacts.attempts_cons_sleep, Hcount.
    + simpl in Hhere. rewrite Hhere. rewrite sleep_ok by lia. cbn [fst snd].
      by rewrite RetryFacts.attempts_cons_get, RetryFacts.attempts_cons_sleep, Hcount.
    + rewrite sleep_ok by done. cbn [fst snd].
      by rewrite RetryFacts.attempts_cons_get, RetryFacts.attempts_cons_sleep, Hcount.
  - assert (remaining = 0%nat) as -> by lia.
    replace (max_retries - 1)%Z with attempt by lia.
    destruct (env (Z.to_nat attempt)) as [text|[m|code m|m|m]]; try done.
    simpl in Hhere. rewrite Hhere. by rewrite sleep_ok by lia.
Qed.

(** After 429 and 503 responses the wait is twice the initial delay, also
    before the last failure is raised. *)
Lemma busy_waits remaining attempt :
  (attempt + Z.of_nat remaining = max_retries)%Z →
  (∀ i, ∃ code m, env i = Fails (HTTPError code m)
                  ∧ ((code =? 429)%Z || (code =? 503)%Z) = true) →
  waits (loop remaining attempt).1 = replicate remaining (delay * 2)%Z.
Proof.
  intros Hsum Henv. revert attempt Hsum.
  induction remaining as [|remaining IH]; intros attempt Hsum; [done|].
  cbn [attempt_loop]. cbv zeta.
  destruct (Henv (Z.to_nat attempt)) as (code & m & -> & ->).
  rewrite sleep_ok by lia. cbn [fst waits omap list_omap replicate]. f_equal.
  destruct (Z.ltb_spec attempt (max_retries - 1)) as [Hlt|Hge].
  - apply IH. lia.
  - by assert (remaining = 0%nat) as -> by lia.
Qed.

(** The result of the loop stems from one of its requests. *)
Lemma loop_result_from_request : ∀ remaining attempt,
  (0 ≤ attempt)%Z →
  (attempt + Z.of_nat remaining = max_retries)%Z →
  (0 < remaining)%nat →
  ∃ i, (Z.to_nat attempt ≤ i < Z.to_nat max_retries)%nat
       ∧ (loop remaining attempt).2 = final_result (env i).
Proof.
  induction remaining as [|remaining IH]; intros attempt Hattempt Hsum Hpos; [lia|].
  cbn [attempt_loop]. cbv zeta.
  assert (Z.to_nat attempt ≤ Z.to_nat attempt < Z.to_nat max_retries)%nat as Hhere by lia.
  destruct (Z.ltb_spec attempt (max_retries - 1)) as [Hmore|Hlast].
  - destruct (IH (attempt + 1)%Z) as (i & Hi & Hres); [lia | lia | lia |].
    assert (Z.to_nat attempt ≤ i < Z.to_nat max_retries)%nat as Hi' by lia.
    destruct (env (Z.to_nat attempt)) as [text|[m|code m|m|m]] eqn:Henv; cbn [snd].
    + exists (Z.to_nat attempt). by rewrite Henv.
    + rewrite sleep_ok by by apply backoff_nonneg. by exists i.
    + destruct ((code =? 429)%Z || (code =? 503)%Z).
      * rewrite sleep_ok by lia. by exists i.
      * exists (Z.to_nat attempt). by rewrite Henv.
    + rewrite sleep_ok by done. by exists i.
    + exists (Z.to_nat attempt). by rewrite Henv.
  - exists (Z.to_nat attempt). split; [done|].
    destruct (env (Z.to_nat attempt)) as [text|[m|code m|m|m]]; cbn [snd]; try done.
    destruct ((code =? 429)%Z || (code =? 503)%Z); [|done]. by rewrite sleep_ok by lia.
Qed.

Lemma loop_requests : ∀ remaining attempt,
  Forall (λ c, is_get c = true → c = Get url) (loop remaining attempt).1.
Proof.
  assert (∀ seconds k, Forall (λ c, is_get c = true → c = Get url) k.1 →
            Forall (λ c, is_get c = true → c = Get url) (sleep seconds k).1) as Hsleep.
  { intros seconds k Hk. unfold sleep. destruct (seconds <? 0)%Z; simpl; [constructor|].
    by constructor. }
  induction remaining as [|remaining IH]; intros attempt; [constructor|].
  cbn [attempt_loop]. cbv zeta. cbn [fst]. constructor; [done|].
  specialize (IH (attempt + 1)%Z).
  destruct (env (Z.to_nat attempt)) as [text|[m|code m|m|m]]; cbn [fst];
    try constructor.
  - destruct (attempt <? max_retries - 1)%Z; [by apply Hsleep | constructor].
  - destruct ((code =? 429)%Z || (code =? 503)%Z); [|constructor].
    apply Hsleep. destruct (attempt <? max_retries - 1)%Z; [done | constructor].
  - destruct (attempt <? max_retries - 1)%Z; [by apply Hsleep | constructor].
Qed.

End Loop.

(** X1: requests are only made for the given URL, and never more of them
    than [max_retries], whatever the outcomes of the requests and the
    delay are. *)
Theorem requests_bounded (url : str) (max_retries delay : Z) (env : nat → outcome) :
  (attempts (make_request_with_retry url max_retries delay env).1
   ≤ Z.to_nat max_retries)%nat
  ∧ Forall (λ c, is_get c = true → c = Get url)
           (make_request_with_retry url max_retries delay env).1.
Proof.
  split; [apply RetryFacts.attempt_loop_attempts | apply loop_requests].
Qed.

(** X2: with at least one attempt allowed and a delay that is not
    negative, the call returns the response of one of its requests or
    raises the exception of one of its requests; the exception of the
    [raise] after the loop is never the result. *)
Theorem result_from_request (url : str) (max_retries delay : Z) (env : nat → outcome) :
  (1 ≤ max_retries)%Z → (0 ≤ delay)%Z →
  ∃ i, (i < Z.to_nat max_retries)%nat
       ∧ (make_request_with_retry url max_retries delay env).2 = final_result (env i).
Proof.
  intros Hmax Hdelay.
  destruct (loop_result_from_request url max_retries delay env Hdelay
              (Z.to_nat max_retries) 0%Z) as (i & Hi & Hres); [lia | lia | lia |].
  exists i. split; [lia | done].
Qed.

Lemma result_from_request_witness :
  ∃ i, (i < Z.to_nat 3)%nat
       ∧ (make_request_with_retry (lit "/event/7") 3 2
            (λ i, if (i <? 2)%nat then Fails (Timeout (lit "timed out"))
                  else Response (lit "<html>"))).2
         = final_result ((λ i, if (i <? 2)%nat then Fails (Timeout (lit "timed out"))
                               else Response (lit "<html>")) i).
Proof. apply result_from_request; lia. Defined.

(** X3: the first request that is not retried decides.  When the requests
    of the first [k] attempts fail with a time-out, a 429 or 503 response
    or another network error, and the request of attempt [k], still within
    [max_retries], gives a response, another HTTP error or an exception
    outside the network errors, then the call makes [k + 1] requests and
    returns that response or raises that exception. *)
Theorem first_unretried_decides (url : str) (max_retries delay : Z)
    (env : nat → outcome) (k : nat) :
  (0 ≤ delay)%Z →
  (Z.of_nat k < max_retries)%Z →
  (∀ i, (i < k)%nat → retried (env i) = true) →
  retried (env k) = false →
  (make_request_with_retry url max_retries delay env).2 = final_result (env k)
  ∧ attempts (make_request_with_retry url max_retries delay env).1 = S k.
Proof.
  intros Hdelay Hk Hbefore Hat.
  apply (loop_decided url max_retries delay env Hdelay k (Z.to_nat max_retries) 0%Z);
    [lia | lia | lia | done | done].
Qed.

Lemma first_unretried_decides_witness :
  (make_request_with_retry (lit "/event/7") 3 2
     (λ i, if (i <? 1)%nat then Fails (HTTPError 503 (lit "busy"))
           else Fails (HTTPError 404 (lit "Not Found")))).2
  = final_result (Fails (HTTPError 404 (lit "Not Found")))
  ∧ attempts (make_request_with_retry (lit "/event/7") 3 2
                (λ i, if (i <? 1)%nat then Fails (HTTPError 503 (lit "busy"))
                      else Fails (HTTPError 404 (lit "Not Found")))).1 = 2%nat.
Proof.
  apply (first_unretried_decides (lit "/event/7") 3 2
           (λ i, if (i <? 1)%nat then Fails (HTTPError 503 (lit "busy"))
                 else Fails (HTTPError 404 (lit "Not Found"))) 1%nat);
    [lia | lia | | reflexivity].
  intros i Hi. by assert (i = 0%nat) as -> by lia.
Defined.

(** X4: when every request fails with a time-out, a 429 or 503 response or
    another network error, the call makes exactly [max_retries] requests and
    raises the exception of the last one. *)
Theorem exhaustion_raises_last (url : str) (max_retries delay : Z)
    (env : nat → outcome) :
  (1 ≤ max_retries)%Z → (0 ≤ delay)%Z →
  (∀ i, retried (env i) = true) →
  (make_request_with_retry url max_retries delay env).2
    = final_result (env (Z.to_nat (max_retries - 1)))
  ∧ attempts (make_request_with_retry url max_retries delay env).1
    = Z.to_nat max_retries.
Proof.
  intros Hmax Hdelay Hall.
  apply (loop_exhausted url max_retries delay env Hdelay); [lia | lia | lia | done].
Qed.

Lemma exhaustion_raises_last_witness :
  (make_request_with_retry (lit "/event/7") 3 2
     (λ i, Fails (RequestException (lit "connection reset")))).2
  = final_result (Fails (RequestException (lit "connection reset")))
  ∧ attempts (make_request_with_retry (lit "/event/7") 3 2
                (λ i, Fails (RequestException (lit "connection reset")))).1
    = Z.to_nat 3.
Proof.
  apply (exhaustion_raises_last (lit "/event/7") 3 2
           (λ i, Fails (RequestException (lit "connection reset"))));
    [lia | lia | done].
Defined.

(** X5: the waits between the requests, for a delay that is not negative.
    When every request times out, the wait after attempt [i] is
    [delay * 2 ^ i], for all but the last attempt; when every request fails
    with another network error, each of these waits is [delay]; when every
    request gets a 429 or 503 response, the wait is [delay * 2] after every
    attempt, the last one included. *)
Theorem wait_schedule (url : str) (max_retries delay : Z) (env : nat → outcome) :
  (0 ≤ delay)%Z →
  ((∀ i, ∃ m, env i = Fails (Timeout m)) →
   waits (make_request_with_retry url max_retries delay env).1
   = (λ i, delay * 2 ^ Z.of_nat i)%Z <$> seq 0 (Z.to_nat max_retries - 1))
  ∧ ((∀ i, ∃ m, env i = Fails (RequestException m)) →
     waits (make_request_with_retry url max_retries delay env).1
     = replicate (Z.to_nat max_retries - 1) delay)
  ∧ ((∀ i, ∃ code m, env i = Fails (HTTPError code m)
                     ∧ ((code =? 429)%Z || (code =? 503)%Z) = true) →
     waits (make_request_with_retry url max_retries delay env).1
     = replicate (Z.to_nat max_retries) (delay * 2)%Z).
Proof.
  intros Hdelay.
  assert (∀ remaining attempt,
            (0 ≤ attempt)%Z → (attempt + Z.of_nat remaining = max_retries)%Z →
            (∀ i, ∃ m, env i = Fails (Timeout m)) →
            waits (attempt_loop url max_retries delay env remaining attempt).1
            = (λ i, delay * 2 ^ (attempt + Z.of_nat i))%Z <$> seq 0 (remaining - 1))
    as Htimeout.
  { induction remaining as [|remaining IH]; intros attempt Hattempt Hsum Henv; [done|].
    cbn [attempt_loop]. cbv zeta. destruct (Henv (Z.to_nat attempt)) as [m ->].
    cbn [fst]. destruct (Z.ltb_spec attempt (max_retries - 1)) as [Hlt|Hge].
    - rewrite sleep_ok by by apply backoff_nonneg.
      cbn [fst waits omap list_omap]. rewrite IH by (done || lia).
      destruct remaining as [|remaining]; [lia|].
      replace (S (S remaining) - 1)%nat with (S remaining) by lia.
      replace (S remaining - 1)%nat with remaining by lia.
      cbn [seq]. rewrite fmap_cons, Z.add_0_r. f_equal.
      rewrite <- fmap_S_seq, <- list_fmap_compose. apply list_fmap_ext.
      intros i j _. simpl. f_equal. f_equal. lia.
    - destruct remaining as [|remaining]; [done | lia]. }
  assert (∀ remaining attempt,
            (attempt + Z.of_nat remaining = max_retries)%Z →
            (∀ i, ∃ m, env i = Fails (RequestException m)) →
            waits (attempt_loop url max_retries delay env remaining attempt).1
            = replicate (remaining - 1) delay) as Hother.
  { induction remaining as [|remaining IH]; intros attempt Hsum Henv; [done|].
    cbn [attempt_loop]. cbv zeta. destruct (Henv (Z.to_nat attempt)) as [m ->].
    cbn [fst]. destruct (Z.ltb_spec attempt (max_retries - 1)) as [Hlt|Hge].
    - rewrite sleep_ok by done. cbn [fst waits omap list_omap].
      rewrite IH by (done || lia).
      destruct remaining as [|remaining]; [lia|]. simpl. by rewrite Nat.sub_0_r.
    - destruct remaining as [|remaining]; [done | lia]. }
  split_and!.
  - intros Henv. unfold make_request_with_retry.
    destruct (Z.le_gt_cases max_retries 0) as [Hle|Hgt].
    + by replace (Z.to_nat max_retries) with 0%nat by lia.
    + rewrite Htimeout by (done || lia). apply list_fmap_ext. intros i j _. done.
  - intros Henv. unfold make_request_with_retry.
    destruct (Z.le_gt_cases max_retries 0) as [Hle|Hgt].
    + by replace (Z.to_nat max_retries) with 0%nat by lia.
    + apply Hother; [lia | done].
  - intros Henv. unfold make_request_with_retry.
    destruct (Z.le_gt_cases max_retries 0) as [Hle|Hgt].
    + by replace (Z.to_nat max_retries) with 0%nat by lia.
    + apply busy_waits; [done | lia | done].
Qed.

Lemma wait_schedule_witness :
  waits (make_request_with_retry (lit "/event/7") 4 2
           (λ i, Fails (Timeout (lit "timed out")))).1
  = (λ i, 2 * 2 ^ Z.of_nat i)%Z <$> seq 0 (Z.to_nat 4 - 1).
Proof.
  apply (proj1 (wait_schedule (lit "/event/7") 4 2
                  (λ i, Fails (Timeout (lit "timed out"))) ltac:(lia))).
  intros i. by eexists.
Defined.

End RetryMore.

(** ** Text normalization *)

Module TextFacts.

Import Notions PyStrFacts.

Lemma collapse_loose b s : loose_from b (collapse_ws b s) = true.
Proof.
  revert b. induction s as [|c s IH]; intros b; simpl; [done|].
  destruct (is_space c) eqn:Hc.
  - destruct b; [apply IH|]. simpl. rewrite (IH true). reflexivity.
  - simpl. rewrite Hc. apply IH.
Qed.

Lemma loose_true_lstrip w : loose_from true w = true → lstrip w = w.
Proof.
  destruct w as [|c w]; simpl; [done|].
  destruct (is_space c); [|done]. by rewrite andb_false_r.
Qed.

Lemma lstrip_loose b w : loose_from b w = true → loose_from true (lstrip w) = true.
Proof.
  destruct w as [|c w]; simpl; [done|].
  destruct (is_space c) eqn:Hc.
  - intros (_ & Hw)%andb_true_iff. by rewrite loose_true_lstrip.
  - intros Hw. simpl. by rewrite Hc.
Qed.

Lemma tidy_from_nonempty r : tidy_from true r = true → r ≠ [].
Proof. by destruct r. Qed.

Lemma rstrip_tidy z : ∀ b,
  loose_from b z = true → rstrip z = [] ∨ tidy_from b (rstrip z) = true.
Proof.
  induction z as [|c z IH]; intros b; [by left|].
  cbn [loose_from]. destruct (is_space c) eqn:Hc.
  - intros ((Hc32 & Hb)%andb_true_iff & Hz)%andb_true_iff.
    destruct (IH true Hz) as [Hnil|Htidy].
    + left. by apply rstrip_cons_drop.
    + right. rewrite rstrip_cons_keep by by apply tidy_from_nonempty.
      simpl. by rewrite Hc, Hc32, Hb, Htidy.
  - intros Hz. right. rewrite rstrip_cons_nonspace by done.
    simpl. rewrite Hc. destruct (IH false Hz) as [->|Htidy]; done.
Qed.

Lemma clean_text_tidy s : tidy (clean_text s) = true.
Proof.
  destruct s as [|c s]; [done|]. unfold clean_text, strip.
  pose proof (lstrip_loose false _ (collapse_loose false (c :: s))) as Hloose.
  destruct (rstrip_tidy _ true Hloose) as [->|Htidy]; [done|].
  unfold tidy. by destruct (rstrip _).
Qed.

Lemma tidy_collapse r : ∀ b b',
  tidy_from b r = true → (b = false → b' = false) → collapse_ws b' r = r.
Proof.
  induction r as [|c r IH]; intros b b'; simpl; [done|].
  destruct (is_space c) eqn:Hc.
  - intros ((Hc32 & Hb)%andb_true_iff & Hr)%andb_true_iff Hb'.
    apply negb_true_iff in Hb. rewrite (Hb' Hb). apply N.eqb_eq in Hc32 as ->.
    f_equal. by apply (IH true).
  - intros Hr _. f_equal. by apply (IH false).
Qed.

Lemma tidy_lstrip r : tidy_from true r = true → lstrip r = r.
Proof.
  destruct r as [|c r]; simpl; [done|].
  destruct (is_space c); [|done]. by rewrite andb_false_r.
Qed.

Lemma tidy_rstrip r : ∀ b, tidy_from b r = true → rstrip r = r.
Proof.
  induction r as [|c r IH]; intros b; [done|]. cbn [tidy_from].
  destruct (is_space c) eqn:Hc.
  - intros (_ & Hr)%andb_true_iff.
    rewrite rstrip_cons_keep; rewrite (IH true Hr); [done|].
    by apply tidy_from_nonempty.
  - intros Hr. rewrite rstrip_cons_nonspace by done. by rewrite (IH false Hr).
Qed.

(** A tidy text is left as it is. *)
Lemma clean_text_of_tidy r : tidy r = true → clean_text r = r.
Proof.
  destruct r as [|c r]; [done|]. unfold tidy. intros Hr.
  unfold clean_text, strip.
  rewrite (tidy_collapse _ true false Hr) by done.
  by rewrite (tidy_lstrip _ Hr), (tidy_rstrip _ _ Hr).
Qed.

Lemma content_collapse b s : content (collapse_ws b s) = content s.
Proof.
  revert b. unfold content. induction s as [|c s IH]; intros b; simpl; [done|].
  destruct (is_space c) eqn:Hc.
  - rewrite (filter_cons_False _ c) by by rewrite Hc.
    destruct b; [apply IH|]. rewrite filter_cons_False by done. apply IH.
  - by rewrite !filter_cons_True, IH.
Qed.

Lemma content_lstrip s : content (lstrip s) = content s.
Proof.
  unfold content. induction s as [|c s IH]; simpl; [done|].
  destruct (is_space c) eqn:Hc; [|done].
  by rewrite (filter_cons_False _ c) by by rewrite Hc.
Qed.

Lemma content_rstrip s : content (rstrip s) = content s.
Proof.
  unfold content. induction s as [|c s IH]; [done|].
  destruct (rstrip s) as [|r rs] eqn:Hr.
  - destruct (is_space c) eqn:Hc.
    + rewrite (rstrip_cons_drop c s Hc Hr).
      rewrite (filter_cons_False _ c) by by rewrite Hc. by rewrite <- IH.
    + rewrite (rstrip_cons_nonspace c s Hc), Hr.
      by rewrite !filter_cons_True, <- IH.
  - rewrite (rstrip_cons_keep c s) by congruence. rewrite Hr, !filter_cons.
    by rewrite <- IH.
Qed.

(** X6: the text returned by [clean_text] is tidy: it neither starts nor
    ends with whitespace, and its whitespace characters are single spaces;
    [clean_text] leaves every tidy text as it is, so cleaning twice is
    cleaning once. *)
Theorem clean_text_normal_form (s : str) :
  tidy (clean_text s) = true
  ∧ (tidy s = true → clean_text s = s)
  ∧ clean_text (clean_text s) = clean_text s.
Proof.
  split_and!; [apply clean_text_tidy | apply clean_text_of_tidy|].
  apply clean_text_of_tidy, clean_text_tidy.
Qed.

Lemma clean_text_normal_form_witness :
  clean_text (lit "Treffpunkt: Tierpark, Kasse 2") = lit "Treffpunkt: Tierpark, Kasse 2".
Proof.
  apply (proj1 (proj2 (clean_text_normal_form (lit "Treffpunkt: Tierpark, Kasse 2")))).
  reflexivity.
Defined.

(** X7: [clean_text] keeps the characters that are not whitespace, all of
    them and in their order. *)
Theorem clean_text_keeps_content (s : str) : content (clean_text s) = content s.
Proof.
  destruct s as [|c s]; [done|]. unfold clean_text, strip.
  by rewrite content_rstrip, content_lstrip, content_collapse.
Qed.

End TextFacts.

(** ** Further properties of the detail parser *)

Module DetailMore.

Import Scraper Detail Notions.

Section Parser.

Context `{Bs4 soup tag node}.
Context (html_parser : str → parse soup) (lower : str → str).

Lemma header_loop_tidy header_text headers :
  tidy (header_loop lower header_text headers) = true.
Proof.
  induction headers as [|header rest IH]; [done|]. simpl.
  destruct (header_matches lower header_text header); [|done].
  destruct (find_next_siblings header); [|apply TextFacts.clean_text_tidy].
  destruct (sibling_content (next_siblings header)); [done|].
  apply TextFacts.clean_text_tidy.
Qed.

Lemma nonempty_true (s : str) : nonempty s = true ↔ s ≠ [].
Proof. by destruct s. Qed.

Lemma parsed_page html_content event_url r :
  parse_event_page html_parser lower html_content event_url = Page r →
  ∃ s, html_parser html_content = Parsed s
       ∧ r = extract_event_data lower s event_url.
Proof.
  unfold parse_event_page.
  destruct (html_parser html_content) as [s|msg]; [|done].
  intros [= <-]. by exists s.
Qed.

(** X8: the name, age, place, date and time of a parsed page are tidy
    texts: without whitespace at either end and with single spaces as
    their only whitespace. *)
Theorem parsed_fields_tidy (html_content event_url : str) (r : event_data) :
  parse_event_page html_parser lower html_content event_url = Page r →
  tidy (name r) = true ∧ tidy (age r) = true ∧ tidy (place r) = true
  ∧ tidy (date r) = true ∧ tidy (time r) = true.
Proof.
  intros (s & _ & ->)%parsed_page.
  simpl. split_and!; try apply header_loop_tidy.
  destruct (head _); [apply TextFacts.clean_text_tidy | done].
Qed.

(** X9: the sign-up text and the description of a parsed page are never
    empty.  The sign-up text is the text taken from a registration-start
    section with a lottery period, or else the sentence for registration
    with the organizer, or else ['Not specified']. *)
Theorem sign_up_and_description_present (html_content event_url : str)
    (s : soup) (r : event_data) :
  html_parser html_content = Parsed s →
  parse_event_page html_parser lower html_content event_url = Page r →
  sign_up_date r ≠ []
  ∧ description r ≠ []
  ∧ (contains (lit "Verlosungszeitraum")
       (extract_field_by_header lower s (lit "Anmeldebeginn"))
     = false →
     sign_up_date r = DIRECT_REGISTRATION ∨ sign_up_date r = SignUp.NOT_SPECIFIED).
Proof.
  intros Hs Hr. unfold parse_event_page in Hr. rewrite Hs in Hr.
  injection Hr as <-.
  simpl. unfold extract_sign_up, extract_description. split_and!.
  - repeat (match goal with |- context [if ?b then _ else _] => destruct b eqn:? end);
      try done; by apply nonempty_true.
  - repeat (match goal with |- context [if ?b then _ else _] => destruct b eqn:? end);
      try done; by apply nonempty_true.
  - intros ->. rewrite andb_false_r. simpl.
    destruct (_ && _); simpl; auto.
Qed.

(** X10: a scraped record carries the URL it was scraped from, whether the
    scrape succeeded or not, and its date is not empty when the listing
    gave a date: the listing date stands in for a missing date of the page
    and is the date of the record of a failed scrape.  After a successful
    fetch of a page that the parser accepts, a date found on the page is
    kept and all other fields are those of the parsed page; after the
    fetch of a page that the parser rejects, the record is the one with
    the error marker, as after a failed fetch. *)
Theorem scraped_record_url_and_date (env : nat → Retry.outcome)
    (event_url listing_date : str) :
  let r := scrape_event_details html_parser lower env event_url listing_date in
  Scraper.event_url r = event_url
  ∧ (listing_date ≠ [] → date r ≠ [])
  ∧ (∀ text page,
       (Retry.make_request_with_retry event_url Config.MAX_RETRIES
          Config.INITIAL_BACKOFF env).2 = Retry.Returned text →
       parse_event_page html_parser lower text event_url = Page page →
       date r = (if nonempty (date page) then date page else listing_date)
       ∧ name r = name page ∧ age r = age page ∧ place r = place page
       ∧ time r = time page ∧ sign_up_date r = sign_up_date page
       ∧ description r = description page)
  ∧ (∀ text msg,
       (Retry.make_request_with_retry event_url Config.MAX_RETRIES
          Config.INITIAL_BACKOFF env).2 = Retry.Returned text →
       parse_event_page html_parser lower text event_url = PageError msg →
       r = error_record event_url listing_date msg)
  ∧ (∀ e,
       (Retry.make_request_with_retry event_url Config.MAX_RETRIES
          Config.INITIAL_BACKOFF env).2 = Retry.Raised e →
       r = error_record event_url listing_date (Retry.exn_str e)).
Proof.
  cbv zeta. unfold scrape_event_details.
  destruct (Retry.make_request_with_retry event_url Config.MAX_RETRIES
              Config.INITIAL_BACKOFF env).2 as [text|e].
  - destruct (parse_event_page html_parser lower text event_url) as [page|msg]
      eqn:Hparse.
    + assert (Scraper.event_url page = event_url) as Hurl.
      { apply parsed_page in Hparse as (s & _ & ->). done. }
      assert (let r := if negb (nonempty (date page)) && nonempty listing_date
                       then {| name := name page; age := age page;
                               place := place page; date := listing_date;
                               time := time page;
                               sign_up_date := sign_up_date page;
                               event_url := Scraper.event_url page;
                               description := description page |}
                       else page in
              Scraper.event_url r = event_url
              ∧ (listing_date ≠ [] → date r ≠ [])
              ∧ date r = (if nonempty (date page) then date page else listing_date)
              ∧ name r = name page ∧ age r = age page ∧ place r = place page
              ∧ time r = time page ∧ sign_up_date r = sign_up_date page
              ∧ description r = description page) as Hpage.
      { cbv zeta.
        destruct (nonempty (date page)) eqn:Hdate; simpl.
        - split_and!; try done. intros _. by apply nonempty_true.
        - destruct (nonempty listing_date) eqn:Hlisting; simpl.
          + split_and!; done.
          + split_and!; try done.
            * by intros ?%nonempty_true; congruence.
            * destruct listing_date; [|done]. by destruct (date page). }
      destruct Hpage as (Hurl' & Hdate & Hrest).
      split_and!; [done | done | | | done].
      * intros text' page' [= <-]. rewrite Hparse. by intros [= <-].
      * intros text' msg' [= <-]. by rewrite Hparse.
    + simpl. split_and!; try done.
      * intros text' page' [= <-]. by rewrite Hparse.
      * intros text' msg' [= <-]. rewrite Hparse. by intros [= <-].
  - simpl. split_and!; try done. by intros ? [= <-].
Qed.

End Parser.

Lemma parsed_fields_tidy_witness :
  let r := extract_event_data Flat.ascii_lower [(lit "h2", lit " Ferienlager ")]
             (lit "/event/42") in
  tidy (name r) = true ∧ tidy (age r) = true ∧ tidy (place r) = true
  ∧ tidy (date r) = true ∧ tidy (time r) = true.
Proof.
  apply (parsed_fields_tidy (Flat.strict [(lit "h2", lit " Ferienlager ")])
           Flat.ascii_lower (lit "<h2> Ferienlager </h2>") (lit "/event/42")
           (extract_event_data Flat.ascii_lower [(lit "h2", lit " Ferienlager ")]
              (lit "/event/42"))).
  vm_compute. reflexivity.
Defined.

Lemma scraped_record_url_and_date_witness :
  date (scrape_event_details (Flat.strict [(lit "h2", lit "Ferienlager")])
          Flat.ascii_lower (λ _, Retry.Response (lit "<html>"))
          (lit "/event/42") (lit "15.06.2024")) ≠ [].
Proof.
  apply (proj1 (proj2 (scraped_record_url_and_date
                         (Flat.strict [(lit "h2", lit "Ferienlager")])
                         Flat.ascii_lower (λ _, Retry.Response (lit "<html>"))
                         (lit "/event/42") (lit "15.06.2024")))).
  discriminate.
Defined.

Lemma sign_up_and_description_present_witness :
  let r := extract_event_data Flat.ascii_lower [(lit "h2", lit "Ferienlager")]
             (lit "/event/42") in
  sign_up_date r = DIRECT_REGISTRATION ∨ sign_up_date r = SignUp.NOT_SPECIFIED.
Proof.
  apply (proj2 (proj2 (sign_up_and_description_present
                         (Flat.strict [(lit "h2", lit "Ferienlager")])
                         Flat.ascii_lower [] (lit "/event/42")
                         [(lit "h2", lit "Ferienlager")]
                         (extract_event_data Flat.ascii_lower
                            [(lit "h2", lit "Ferienlager")] (lit "/event/42"))
                         eq_refl eq_refl))).
  vm_compute. reflexivity.
Defined.

End DetailMore.

(** ** Further properties of the grouper *)

Module GrouperMore.

Import Scraper KeyOrder GrouperFacts Notions.

Lemma sorted_fixed l :
  StronglySorted (λ a b, key_le (key_of a) (key_of b)) l → sort_by_date l = l.
Proof.
  induction 1 as [|x l Hl IH Hx]; [done|]. simpl. rewrite IH.
  destruct Hx as [|y l' Hy _]; [done|]. simpl. by rewrite Hy.
Qed.

(** X11: the sort of a group's occurrences returns a permutation of them
    in ascending key order in which the occurrences with one and the same
    key keep their input order; a list that is in ascending key order is
    returned as it is, so sorting twice is sorting once. *)
Theorem sort_by_date_stable_sort (l : list event_data) :
  sort_by_date l ≡ₚ l
  ∧ StronglySorted (λ a b, key_le (key_of a) (key_of b)) (sort_by_date l)
  ∧ (∀ k, filter (λ e, key_of e = k) (sort_by_date l) = filter (λ e, key_of e = k) l)
  ∧ (StronglySorted (λ a b, key_le (key_of a) (key_of b)) l → sort_by_date l = l)
  ∧ sort_by_date (sort_by_date l) = sort_by_date l.
Proof.
  split_and!.
  - apply sort_by_date_perm.
  - apply sort_by_date_sorted.
  - intros k. apply sort_by_date_stable.
  - apply sorted_fixed.
  - apply sorted_fixed, sort_by_date_sorted.
Qed.

Lemma sort_by_date_stable_sort_witness :
  sort_by_date [Samples.ferienlager "01.06.2024" "/event/41";
                Samples.ferienlager "15.06.2024" "/event/42"]
  = [Samples.ferienlager "01.06.2024" "/event/41";
     Samples.ferienlager "15.06.2024" "/event/42"].
Proof.
  apply (proj1 (proj2 (proj2 (proj2 (sort_by_date_stable_sort _))))).
  repeat constructor.
Defined.

Lemma od_append_perm n e g : od_append n e g ≫= snd ≡ₚ e :: (g ≫= snd).
Proof.
  induction g as [|[k v] g IH]; [done|]. cbn [od_append].
  destruct (decide (k = n)); rewrite !bind_cons; cbn [snd].
  - rewrite <- (assoc (++)). simpl. symmetry. apply Permutation_middle.
  - rewrite IH. symmetry. apply Permutation_middle.
Qed.

Lemma group_loop_perm l : group_loop l ≫= snd ≡ₚ l.
Proof.
  induction l as [|e l IH] using rev_ind; [done|].
  rewrite group_loop_snoc, od_append_perm, IH. apply Permutation_cons_append.
Qed.

Lemma shown_continuation n e : name e = n → shown (continuation n e) = shown e.
Proof. by intros <-. Qed.

Lemma emit_group_shown n occurrences :
  Forall (λ e, name e = n) occurrences →
  shown ∘ data <$> emit_group (n, occurrences) ≡ₚ shown <$> occurrences.
Proof.
  intros Hn. rewrite emit_group_rows.
  assert (Forall (λ e, name e = n) (sort_by_date occurrences)) as Hs
    by by rewrite sort_by_date_perm.
  rewrite <- (sort_by_date_perm occurrences) at 2.
  destruct Hs as [|first rest Hfirst Hrest]; [done|].
  rewrite !fmap_cons. simpl. f_equal.
  rewrite <- list_fmap_compose.
  assert ((shown ∘ data ∘ (λ e, mk_grouped (continuation n e) true)) <$> rest
          = shown <$> rest) as ->; [|done].
  apply Forall_fmap_ext_1. eapply Forall_impl; [exact Hrest|].
  intros e He. simpl. by apply shown_continuation.
Qed.

Lemma grouping_shown_perm l :
  shown ∘ data <$> group_events_by_name l ≡ₚ shown <$> l.
Proof.
  rewrite <- (group_loop_perm l) at 2.
  unfold group_events_by_name. rewrite group_loop_spec.
  induction (nub_first (name <$> l)) as [|n ks IH]; [done|].
  rewrite !fmap_cons, !bind_cons, !fmap_app, IH. cbn [snd].
  by rewrite emit_group_shown by apply named_names.
Qed.

(** X12: grouping loses and invents nothing: the rows of the output show,
    up to their order, the name, detail URL, date, time and sign-up text of
    the occurrences of the input, each occurrence in one row. *)
Theorem grouping_keeps_occurrences (l : list event_data) :
  shown ∘ data <$> group_events_by_name l ≡ₚ shown <$> l
  ∧ length (group_events_by_name l) = length l.
Proof. split; [apply grouping_shown_perm | apply group_events_by_name_length]. Qed.

(** X13: a primary row is an occurrence of the input as it was scraped,
    with all of its fields, and no occurrence of the same name has a
    smaller sort key. *)
Theorem primary_row_is_earliest (l : list event_data) (r : grouped_event) :
  r ∈ group_events_by_name l →
  is_continuation r = false →
  data r ∈ l
  ∧ ∀ e, e ∈ l → name e = name (data r) → key_le (key_of (data r)) (key_of e).
Proof.
  rewrite group_events_by_name_spec. intros (n & Hr & Hn)%list_elem_of_bind Hprimary.
  rewrite emit_group_rows in Hr.
  pose proof (sort_by_date_sorted (named n l)) as Hsorted.
  destruct (sort_by_date (named n l)) as [|first rest] eqn:Hs; [by inversion Hr|].
  apply elem_of_cons in Hr as [->|Hr].
  2:{ apply list_elem_of_fmap in Hr as (e & -> & _). done. }
  assert (first ∈ named n l) as Hfirst by (rewrite <- sort_by_date_elem, Hs; left).
  apply list_elem_of_filter in Hfirst as [Hname Hfirst]. simpl.
  split; [done|]. intros e He Hen.
  assert (e ∈ first :: rest) as Hin.
  { rewrite <- Hs, sort_by_date_elem. apply list_elem_of_filter. split; [congruence | done]. }
  apply StronglySorted_inv in Hsorted as [_ Hall].
  apply elem_of_cons in Hin as [->|Hin]; [apply key_le_refl|].
  by eapply Forall_forall in Hall.
Qed.

Lemma primary_row_is_earliest_witness :
  Samples.ferienlager "01.06.2024" "/event/41"
    ∈ [Samples.ferienlager "15.06.2024" "/event/42";
       Samples.ferienlager "01.06.2024" "/event/41"]
  ∧ ∀ e, e ∈ [Samples.ferienlager "15.06.2024" "/event/42";
              Samples.ferienlager "01.06.2024" "/event/41"] →
         name e = name (Samples.ferienlager "01.06.2024" "/event/41") →
         key_le (key_of (Samples.ferienlager "01.06.2024" "/event/41")) (key_of e).
Proof.
  apply (primary_row_is_earliest
           [Samples.ferienlager "15.06.2024" "/event/42";
            Samples.ferienlager "01.06.2024" "/event/41"]
           (mk_grouped (Samples.ferienlager "01.06.2024" "/event/41") false)).
  - vm_compute. apply list_elem_of_here.
  - reflexivity.
Defined.

End GrouperMore.

(** ** The sort key of calendar dates *)

Module KeyChronology.

Import Scraper KeyOrder.

Lemma digits_length w n : length (digits w n) = w.
Proof.
  revert n. induction w as [|w IH]; intros n; simpl; [done|].
  rewrite length_app, IH. simpl. lia.
Qed.

Lemma digits_no_dot w n : Forall (λ c, c ≠ 46) (digits w n).
Proof.
  revert n. induction w as [|w IH]; intros n; cbn [digits]; [constructor|].
  apply Forall_app. split; [apply IH|]. constructor; [|constructor].
  pose proof (N.le_0_l (n mod 10)). cbv beta. lia.
Qed.

Lemma split_char_free c x : Forall (λ a, a ≠ c) x → split_char c x = [x].
Proof.
  induction 1 as [|a x Ha Hx IH]; [done|]. simpl.
  destruct (N.eqb_spec a c); [done|]. by rewrite IH.
Qed.

Lemma split_char_app c x rest :
  Forall (λ a, a ≠ c) x → split_char c (x ++ [c] ++ rest) = x :: split_char c rest.
Proof.
  induction 1 as [|a x Ha Hx IH]; simpl.
  - by rewrite N.eqb_refl.
  - destruct (N.eqb_spec a c); [done|]. simpl in IH. by rewrite IH.
Qed.

Lemma split_strftime d :
  split_char 46 (strftime_dmY d)
  = [digits 2 (day d); digits 2 (month d); digits 4 (year d)].
Proof.
  unfold strftime_dmY.
  rewrite (split_char_app 46 (digits 2 (day d))) by apply digits_no_dot.
  rewrite (split_char_app 46 (digits 2 (month d))) by apply digits_no_dot.
  by rewrite split_char_free by apply digits_no_dot.
Qed.

Lemma compare_app x y u v :
  length x = length y →
  PyStr.compare (x ++ u) (y ++ v)
  = match PyStr.compare x y with Eq => PyStr.compare u v | c => c end.
Proof.
  revert y. induction x as [|a x IH]; intros [|b y] Hlen; simpl in *; try done.
  destruct (a ?= b); [apply IH; lia | done | done].
Qed.

Lemma compare_by_digit a b :
  match a / 10 ?= b / 10 with Eq => a mod 10 ?= b mod 10 | c => c end = (a ?= b).
Proof.
  pose proof (N.div_mod a 10 ltac:(lia)) as Ha.
  pose proof (N.div_mod b 10 ltac:(lia)) as Hb.
  pose proof (N.mod_lt a 10 ltac:(lia)) as Hra.
  pose proof (N.mod_lt b 10 ltac:(lia)) as Hrb.
  generalize dependent (a / 10). generalize dependent (a mod 10).
  generalize dependent (b / 10). generalize dependent (b mod 10).
  intros rb Hrb qb Hb ra Hra qa Ha.
  symmetry.
  destruct (N.compare_spec qa qb) as [Hq|Hq|Hq].
  - destruct (N.compare_spec ra rb) as [Hr|Hr|Hr].
    + apply N.compare_eq_iff. lia.
    + apply N.compare_lt_iff. lia.
    + apply N.compare_gt_iff. lia.
  - apply N.compare_lt_iff. lia.
  - apply N.compare_gt_iff. lia.
Qed.

(** Numbers written with the same count of digits compare as texts the way
    they compare as numbers. *)
Lemma compare_digits w : ∀ a b,
  a < 10 ^ N.of_nat w → b < 10 ^ N.of_nat w →
  PyStr.compare (digits w a) (digits w b) = (a ?= b).
Proof.
  induction w as [|w IH]; intros a b Ha Hb.
  - simpl in *. assert (a = 0) as -> by lia. by assert (b = 0) as -> by lia.
  - rewrite Nat2N.inj_succ, N.pow_succ_r' in Ha, Hb.
    cbn [digits]. rewrite compare_app by by rewrite !digits_length.
    rewrite IH.
    + rewrite <- (compare_by_digit a b). destruct (a / 10 ?= b / 10); try done.
      cbn [PyStr.compare].
      assert ((48 + a mod 10 ?= 48 + b mod 10) = (a mod 10 ?= b mod 10)) as ->.
      { generalize (a mod 10), (b mod 10). intros x y.
        destruct (N.compare_spec x y);
          [apply N.compare_eq_iff | apply N.compare_lt_iff | apply N.compare_gt_iff];
          lia. }
      by destruct (a mod 10 ?= b mod 10).
    + apply N.Div0.div_lt_upper_bound. lia.
    + apply N.Div0.div_lt_upper_bound. lia.
Qed.

Lemma wf_bounds d :
  Date.wf d → 1 ≤ year d ≤ 9999 ∧ 1 ≤ month d ≤ 12 ∧ 1 ≤ day d ≤ 31.
Proof.
  unfold Date.wf, valid. rewrite !andb_true_iff, !N.leb_le.
  pose proof (SignUpFacts.days_in_month_le (year d) (month d)). lia.
Qed.

(** X14: for calendar dates written as [DD.MM.YYYY], the order of the sort
    keys is the order of the dates, and the key of such a date is smaller
    than the key of unknown dates: the occurrences with a calendar date are
    sorted by date and stand before those with the key of unknown dates. *)
Theorem key_order_is_date_order (d1 d2 : Date.date) :
  Date.wf d1 → Date.wf d2 →
  key_compare (parse_date_for_sort (strftime_dmY d1))
              (parse_date_for_sort (strftime_dmY d2))
  = Date.compare d1 d2
  ∧ key_compare (parse_date_for_sort (strftime_dmY d1)) UNKNOWN_DATE_KEY = Lt.
Proof.
  intros (Hy1 & Hm1 & Hd1)%wf_bounds (Hy2 & Hm2 & Hd2)%wf_bounds.
  unfold parse_date_for_sort. rewrite !split_strftime.
  unfold key_compare, Date.compare, UNKNOWN_DATE_KEY. cbv beta iota zeta.
  rewrite (compare_digits 4), !(compare_digits 2) by (simpl; lia).
  split; [done|].
  change (lit "9999") with (digits 4 9999). change (lit "99") with (digits 2 99).
  rewrite (compare_digits 4), !(compare_digits 2) by (simpl; lia).
  destruct (N.compare_spec (year d1) 9999); [|done|lia].
  by destruct (N.compare_spec (month d1) 99); [lia| |lia].
Qed.

Lemma key_order_is_date_order_witness :
  key_compare (parse_date_for_sort (strftime_dmY (Date.mk 2024 6 15)))
              (parse_date_for_sort (strftime_dmY (Date.mk 2024 10 1)))
  = Date.compare (Date.mk 2024 6 15) (Date.mk 2024 10 1)
  ∧ key_compare (parse_date_for_sort (strftime_dmY (Date.mk 2024 6 15)))
                UNKNOWN_DATE_KEY = Lt.
Proof. apply key_order_is_date_order; reflexivity. Defined.

End KeyChronology.

(** ** Reading selections back *)

Module SelectionFacts.

Import Scraper GrouperFacts Notions.

Lemma strip_nonempty (s : str) : strip s ≠ [] → s ≠ [].
Proof. by intros Hs ->. Qed.

Lemma load_as_inserts rows :
  load_existing_selections (Some rows)
  = foldl (λ selections p, <[p.1 := p.2]> selections) ∅ (omap selection_of_row rows).
Proof.
  unfold load_existing_selections.
  generalize (∅ : gmap str value). induction rows as [|r rows IH]; intros m; [done|].
  assert (∀ s : str, truthy (Some s) = Detail.nonempty s) as Htruthy
    by by intros [|? ?].
  cbn [foldl omap list_omap]. rewrite IH. unfold selection_of_row at 2.
  rewrite Htruthy.
  destruct (col_event_name r) as [[event_name|truth repr]|];
    [| by destruct (_ && _) | by destruct (_ && _)].
  destruct (col_selected r) as [selected|]; [|by rewrite andb_false_r].
  cbn [cell_truthy]. rewrite Htruthy.
  by destruct (_ && _).
Qed.

Lemma lookup_inserts (pairs : list (str * value)) (n : str) : ∀ m : gmap str value,
  foldl (λ selections p, <[p.1 := p.2]> selections) m pairs !! n
  = match last (filter (λ p, p.1 = n) pairs) with
    | Some p => Some p.2
    | None => m !! n
    end.
Proof.
  induction pairs as [|p pairs IH] using rev_ind; intros m; [done|].
  rewrite foldl_snoc, filter_app, filter_cons, filter_nil.
  destruct (decide (p.1 = n)) as [<-|Hne].
  - by rewrite last_snoc, lookup_insert_eq.
  - rewrite app_nil_r, lookup_insert_ne by done. apply IH.
Qed.

Lemma selection_of_row_Some r n v :
  selection_of_row r = Some (n, v) →
  n ≠ [] ∧ cell_truthy (Some v) = true ∧ cell_stripped (Some v) ≠ []
  ∧ col_event_name r = Some (Text n) ∧ col_selected r = Some v.
Proof.
  unfold selection_of_row.
  destruct (col_event_name r) as [[event_name|truth repr]|]; try done.
  destruct (col_selected r) as [selected|]; [|done].
  destruct (Detail.nonempty event_name) eqn:Hn; [|done].
  destruct (cell_truthy (Some selected)) eqn:Hv; [|done].
  destruct (Detail.nonempty (cell_stripped (Some selected))) eqn:Hs; [|done].
  intros [= -> ->]. split_and!; try done.
  - by destruct n.
  - by destruct (cell_stripped (Some v)).
Qed.

Lemma selections_last rows n :
  load_existing_selections (Some rows) !! n
  = snd <$> last (filter (λ p, p.1 = n) (omap selection_of_row rows)).
Proof. rewrite load_as_inserts, lookup_inserts. by destruct (last _). Qed.

Lemma selections_kept rows n v :
  load_existing_selections (Some rows) !! n = Some v →
  n ≠ [] ∧ cell_truthy (Some v) = true ∧ cell_stripped (Some v) ≠ []
  ∧ ∃ r, r ∈ rows ∧ col_event_name r = Some (Text n) ∧ col_selected r = Some v.
Proof.
  rewrite selections_last.
  destruct (last _) as [[n' v']|] eqn:Hlast; [|done]. intros [= <-].
  apply last_Some_elem_of, list_elem_of_filter in Hlast as [Hn Hin].
  simpl in Hn. subst n'.
  apply list_elem_of_omap in Hin as (r & Hr & Hsel).
  apply selection_of_row_Some in Hsel as (? & ? & ? & ? & ?).
  split_and!; try done. by exists r.
Qed.

(** X15: the selections read from a sheet.  A missing file gives no
    selection.  For a sheet, the selection of a name is the Selected value
    of the last row that has this name, a name that is not empty and a
    Selected value that is not blank; a name without such a row has no
    selection.  So no selection is blank and no empty name has one. *)
Theorem selections_read (rows : list sheet_row) (n : str) :
  load_existing_selections None = ∅
  ∧ load_existing_selections (Some rows) !! n
    = snd <$> last (filter (λ p, p.1 = n) (omap selection_of_row rows))
  ∧ ∀ v, load_existing_selections (Some rows) !! n = Some v →
         n ≠ [] ∧ cell_truthy (Some v) = true ∧ cell_stripped (Some v) ≠ []
         ∧ ∃ r, r ∈ rows ∧ col_event_name r = Some (Text n)
                ∧ col_selected r = Some v.
Proof.
  split_and!; [done | apply selections_last | apply selections_kept].
Qed.

Lemma selections_read_witness :
  lit "Zoo Besuch" ≠ [] ∧ cell_truthy (Some (Text (lit "X"))) = true
  ∧ cell_stripped (Some (Text (lit "X"))) ≠ []
  ∧ ∃ r, r ∈ [Samples.sheet_line (Some (lit "X")) (Some (lit "Zoo Besuch")) None]
         ∧ col_event_name r = Some (Text (lit "Zoo Besuch"))
         ∧ col_selected r = Some (Text (lit "X")).
Proof.
  apply (proj2 (proj2 (selections_read
                         [Samples.sheet_line (Some (lit "X")) (Some (lit "Zoo Besuch")) None]
                         (lit "Zoo Besuch")))).
  vm_compute. reflexivity.
Defined.

Lemma omap_bind {A B C} (f : B → option C) (g : A → list B) (l : list A) :
  omap f (l ≫= g) = l ≫= (λ x, omap f (g x)).
Proof.
  induction l as [|x l IH]; [done|].
  by rewrite !bind_cons, omap_app, IH.
Qed.

Lemma continuation_rows_record_nothing selections n (rest : list event_data) :
  omap selection_of_row
    (write_row selections <$> ((λ e, mk_grouped (continuation n e) true) <$> rest))
  = [].
Proof. induction rest as [|e rest IH]; [done|]. by rewrite !fmap_cons. Qed.

(** The selection that a first row records. *)
Lemma first_row_selection selections e :
  selection_of_row (write_row selections (mk_grouped e false))
  = if Detail.nonempty (name e)
    then (λ v, (name e, v)) <$> carried (selections !! name e)
    else None.
Proof.
  unfold selection_of_row, write_row, carried.
  cbn [is_continuation data col_event_name col_selected].
  destruct (Detail.nonempty (name e)); [|done].
  destruct (selections !! name e) as [v|]; cbn [default andb]; unfold id; [|done].
  by destruct (_ && _).
Qed.

(** The selections that the rows of a fresh sheet record: one for every
    name that is not empty and has a prior selection that is not blank. *)
Lemma written_selections l selections :
  omap selection_of_row (data_rows l selections)
  = omap (λ n, if Detail.nonempty n
               then (λ v, (n, v)) <$> carried (selections !! n)
               else None)
         (nub_first (name <$> l)).
Proof.
  unfold data_rows. rewrite group_events_by_name_spec.
  assert (∀ ks, (∀ k, k ∈ ks → k ∈ name <$> l) →
            omap selection_of_row
              (write_row selections <$> (ks ≫= (λ n, emit_group (n, named n l))))
            = omap (λ n, if Detail.nonempty n
                         then (λ v, (n, v)) <$> carried (selections !! n)
                         else None) ks) as Hks.
  { induction ks as [|k ks IH]; intros Hin; [done|].
    rewrite bind_cons, fmap_app, omap_app, IH by (intros; apply Hin; by right).
    cbn [omap list_omap]. rewrite emit_group_rows.
    pose proof (named_nonempty k l (Hin k ltac:(left))) as Hne.
    pose proof (named_names k l) as Hnames.
    rewrite <- (sort_by_date_perm (named k l)) in Hnames.
    destruct (sort_by_date (named k l)) as [|first rest] eqn:Hs.
    { exfalso. apply Hne. apply Permutation_nil_r. by rewrite <- Hs, sort_by_date_perm. }
    apply Forall_cons in Hnames as [Hfirst _].
    rewrite fmap_cons. cbn [omap list_omap].
    rewrite continuation_rows_record_nothing, first_row_selection, Hfirst.
    by destruct (if Detail.nonempty k then _ else _). }
  apply Hks. intros k. by rewrite elem_of_nub_first.
Qed.

(** The selection of a name among those recorded for a list of names
    without repetition. *)
Lemma recorded_selection (sel : gmap str value) (n : str) ks :
  NoDup ks →
  match last (filter (λ p : str * value, p.1 = n)
                (omap (λ n0, if Detail.nonempty n0
                             then (λ v, (n0, v)) <$> carried (sel !! n0)
                             else None) ks)) with
  | Some p => Some p.2
  | None => None
  end
  = if decide (n ∈ ks ∧ n ≠ []) then carried (sel !! n) else None.
Proof.
  induction 1 as [|k ks Hk Hnd IH].
  { destruct (decide _) as [[Hin _]|]; [by apply elem_of_nil in Hin | done]. }
  cbn [omap list_omap].
  assert (filter (λ p : str * value, p.1 = n)
            (omap (λ n0, if Detail.nonempty n0
                         then (λ v, (n0, v)) <$> carried (sel !! n0) else None) ks)
          = [] ∨ n ∈ ks) as Hrest.
  { destruct (decide (n ∈ ks)) as [|Hn]; [by right|]. left.
    apply filter_none, Forall_forall. intros p (k' & Hk' & Hp)%list_elem_of_omap Hpn.
    destruct (Detail.nonempty k'); [|done].
    destruct (carried (sel !! k')); [|done]. simpl in Hp. injection Hp as <-.
    simpl in Hpn. by subst. }
  destruct (decide (k = n)) as [->|Hne].
  - destruct Hrest as [Hnil|Hin]; [|done].
    destruct (Detail.nonempty n) eqn:Hn.
    + destruct (carried (sel !! n)) as [v|] eqn:Hc;
        cbn [fmap option_fmap option_map].
      * rewrite filter_cons_True, Hnil by done. cbn [last snd].
        rewrite decide_True; [done|]. split; [left | by destruct n].
      * rewrite Hnil. cbn [last].
        by destruct (decide (n ∈ n :: ks ∧ n ≠ [])).
    + rewrite Hnil. rewrite decide_False; [done|]. intros [_ Hn']. by destruct n.
  - assert (∀ rest : list (str * value),
              filter (λ p : str * value, p.1 = n)
                (match (if Detail.nonempty k
                        then (λ v, (k, v)) <$> carried (sel !! k) else None) with
                 | Some y => y :: rest
                 | None => rest
                 end)
              = filter (λ p : str * value, p.1 = n) rest) as ->.
    { intros rest. destruct (Detail.nonempty k); [|done].
      destruct (carried (sel !! k)); [|done]. cbn [fmap option_fmap option_map].
      by rewrite filter_cons_False. }
    rewrite IH. destruct (decide (n ∈ ks ∧ n ≠ [])) as [[Hin Hn]|Hno].
    + rewrite decide_True; [done|]. split; [by right | done].
    + rewrite decide_False; [done|]. intros [[->|Hin]%elem_of_cons Hn]; [done|].
      by apply Hno.
Qed.

(** A row read back records the selection that the row as filled
    records, when the empty name has no prior selection that is carried
    over. *)
Lemma read_back_selection selections g r :
  carried (selections !! []) = None →
  read_back (write_row selections g) r →
  selection_of_row r = selection_of_row (write_row selections g).
Proof.
  intros Hempty [Hselected Hname].
  destruct g as [e continued]. destruct continued.
  - (* a continuation row: its Selected cell is empty *)
    unfold write_row in *. cbn [is_continuation data col_selected col_event_name] in *.
    unfold selection_of_row. cbn [col_selected col_event_name].
    destruct Hselected as [->|[? _]]; [|done].
    by destruct (col_event_name r) as [[?|? ?]|].
  - rewrite first_row_selection.
    unfold write_row in *.
    cbn [is_continuation data col_selected col_event_name name_hyperlink] in *.
    unfold selection_of_row.
    destruct (name e) as [|c n] eqn:Hn.
    + (* the empty name *)
      cbn [Detail.nonempty].
      assert (cell_truthy (col_selected r)
              && Detail.nonempty (cell_stripped (col_selected r)) = false) as Hblank.
      { destruct Hselected as [->|[_ ->]]; [|done].
        unfold carried in Hempty.
        destruct (selections !! []) as [v|]; [|done]. cbn [default]. unfold id.
        by destruct (cell_truthy (Some v) && Detail.nonempty (cell_stripped (Some v))). }
      destruct (col_event_name r) as [[event_name|? ?]|]; try done.
      destruct (col_selected r) as [selected|]; [|done].
      destruct (Detail.nonempty event_name); [|done]. cbn [andb].
      by rewrite Hblank.
    + (* a name that is not empty is read back as it is *)
      destruct Hname as [->|[? _]]; [|done]. cbn [Detail.nonempty andb].
      unfold carried.
      destruct Hselected as [->|[Hw ->]].
      * destruct (selections !! (c :: n)) as [v|]; cbn [default]; unfold id; [|done].
        by destruct (_ && _).
      * destruct (selections !! (c :: n)) as [v|]; cbn [default] in Hw; unfold id in Hw;
          [|done].
        injection Hw as ->. done.
Qed.

Lemma read_back_selections selections gs : ∀ rows',
  carried (selections !! []) = None →
  Forall2 read_back (write_row selections <$> gs) rows' →
  omap selection_of_row rows' = omap selection_of_row (write_row selections <$> gs).
Proof.
  induction gs as [|g gs IH]; intros rows' Hempty Hrows.
  - by apply Forall2_nil_inv_l in Hrows as ->.
  - rewrite fmap_cons in Hrows.
    apply Forall2_cons_inv_l in Hrows as (r & rest & Hr & Hrest & ->).
    rewrite fmap_cons. cbn [omap list_omap].
    by rewrite (read_back_selection selections g r Hempty Hr), (IH rest Hempty Hrest).
Qed.

(** X16: writing a sheet and reading its selections back.  Let the sheet
    read back hold, row by row, the Selected cell and the name cell as
    they were filled, where a cell filled with the empty text may be
    empty and an empty name cell may hold the target of its link.  If the
    prior selections have no selection for the empty name that is not
    blank, the selection read back for a name is the prior selection of
    that name when the name is not empty, occurs among the fresh
    occurrences and its prior selection is not blank; every other name
    has none.  Prior selections that were read from a sheet are of this
    kind, and what is read back then is their part for the names among
    the fresh occurrences. *)
Theorem selections_round_trip (l : list event_data) :
  (∀ (selections : gmap str value) (rows' : list sheet_row),
     Forall2 read_back (data_rows l selections) rows' →
     carried (selections !! []) = None →
     ∀ n, load_existing_selections (Some rows') !! n
          = if decide (n ∈ name <$> l ∧ n ≠ [])
            then carried (selections !! n) else None)
  ∧ (∀ (sheet : option (list sheet_row)) (rows' : list sheet_row),
       Forall2 read_back (data_rows l (load_existing_selections sheet)) rows' →
       ∀ n, load_existing_selections (Some rows') !! n
            = if decide (n ∈ name <$> l ∧ n ≠ [])
              then load_existing_selections sheet !! n else None).
Proof.
  assert (∀ (selections : gmap str value) (rows' : list sheet_row),
            Forall2 read_back (data_rows l selections) rows' →
            carried (selections !! []) = None →
            ∀ n, load_existing_selections (Some rows') !! n
                 = if decide (n ∈ name <$> l ∧ n ≠ [])
                   then carried (selections !! n) else None) as Hread.
  { intros sel rows' Hrows Hempty n.
    rewrite load_as_inserts, lookup_inserts, lookup_empty.
    unfold data_rows in Hrows.
    rewrite (read_back_selections sel _ rows' Hempty Hrows).
    fold (data_rows l sel). rewrite written_selections.
    rewrite recorded_selection by apply NoDup_nub_first.
    destruct (decide (n ∈ nub_first (name <$> l) ∧ n ≠ [])) as [[Hin Hn]|Hno].
    - rewrite decide_True; [done|]. split; [by apply elem_of_nub_first | done].
    - rewrite decide_False; [done|]. intros [Hin Hn]. apply Hno.
      split; [by apply elem_of_nub_first | done]. }
  split; [exact Hread|].
  intros sheet rows' Hrows n.
  assert (∀ k, carried (load_existing_selections sheet !! k)
               = load_existing_selections sheet !! k) as Hkept.
  { intros k. destruct sheet as [rows|];
      [|cbn [load_existing_selections]; by rewrite lookup_empty].
    destruct (load_existing_selections (Some rows) !! k) as [v|] eqn:Hk; [|done].
    destruct (selections_kept rows k v Hk) as (_ & Hv & Hs & _).
    unfold carried. rewrite Hv. by destruct (cell_stripped (Some v)). }
  assert (load_existing_selections sheet !! [] = None) as Hnone.
  { destruct sheet as [rows|];
      [|cbn [load_existing_selections]; by rewrite lookup_empty].
    destruct (load_existing_selections (Some rows) !! []) as [v|] eqn:Hk; [|done].
    by destruct (selections_kept rows [] v Hk) as (? & _). }
  rewrite (Hread _ rows' Hrows) by by rewrite Hnone.
  by rewrite Hkept.
Qed.

Lemma selections_round_trip_witness :
  load_existing_selections
    (Some [Samples.sheet_line (Some (lit "X")) (Some (lit "Zoo Besuch"))
             (Some (lit "01.06.2024 - 15.06.2024"));
           Samples.sheet_line None (Some (lit "/event/8"))
             (Some (lit "Not specified"))]) !! lit "/event/8"
  = if decide (lit "/event/8"
                 ∈ name <$> [Samples.zoo_besuch;
                             Samples.untitled "01.08.2024" "/event/8" "Besuch"]
               ∧ lit "/event/8" ≠ [])
    then carried (({[ lit "Zoo Besuch" := Text (lit "X") ]} : gmap str value)
                    !! lit "/event/8")
    else None.
Proof.
  apply (proj1 (selections_round_trip
                  [Samples.zoo_besuch;
                   Samples.untitled "01.08.2024" "/event/8" "Besuch"])
           {[ lit "Zoo Besuch" := Text (lit "X") ]}).
  - let rows := eval vm_compute in
        (data_rows [Samples.zoo_besuch;
                    Samples.untitled "01.08.2024" "/event/8" "Besuch"]
           ({[ lit "Zoo Besuch" := Text (lit "X") ]} : gmap str value)) in
    change (data_rows _ _) with rows.
    constructor; [|constructor; [|constructor]].
    + split; left; vm_compute; reflexivity.
    + split; right; (split; [vm_compute; reflexivity|]); [reflexivity|].
      right. exists (lit "/event/8"). split; vm_compute; reflexivity.
  - vm_compute. reflexivity.
Defined.

End SelectionFacts.

(** ** Further properties of the calendar export *)

Module CalendarMore.

Import Scraper Calendar CalendarFacts Notions.

Section RowLoop.

Context (nd_value : N → option N) (sha256_hexdigest : str → str).

Abbreviation run := (Calendar.run nd_value sha256_hexdigest).
Abbreviation raises := (Calendar.raises nd_value).

Lemma raises_cases (l : list (list sheet_row * sheet_row)) :
  Exists (λ '(b, r), raises b r = true) l
  ∨ Forall (λ '(b, r), raises b r = false) l.
Proof.
  induction l as [|[b r] l [IH|IH]].
  - right. constructor.
  - left. by right.
  - destruct (Calendar.raises nd_value b r) eqn:Hr.
    + left. by left.
    + right. by constructor.
Qed.

Lemma initial_invariant : loop_invariant [] initial_state.
Proof. done. Qed.

(** X17: the export fails as a whole exactly when some row of a selected
    event makes it raise: a row whose Sign-Up cell holds a value that is
    not a text and is true (a number other than zero, a date), or a
    sign-up window that ends on 31.12.9999, the last day the calendar type
    holds, so that the day after it does not exist.  No row of an event
    that is not selected makes it fail. *)
Theorem export_fails_exactly (rows : list sheet_row) :
  create_calendar_events nd_value sha256_hexdigest rows = None
  ↔ Exists (λ '(before, r), raises before r = true) (positions [] rows).
Proof.
  destruct (run_spec nd_value sha256_hexdigest rows [] initial_state
              initial_invariant) as [Hfail Hok].
  split; [|exact Hfail].
  intros Hnone. destruct (raises_cases (positions [] rows)) as [|Hquiet]; [done|].
  destruct (Hok Hquiet) as (st & Hrun & _).
  unfold create_calendar_events in Hnone. congruence.
Qed.

(** X18: when the export ends normally, the entries created and the rows
    skipped add up to the rows that belong to a selected event, and the
    count of created entries is the count of the entries of the
    calendar. *)
Theorem export_counts (rows : list sheet_row) (st : state) :
  create_calendar_events nd_value sha256_hexdigest rows = Some st →
  events_created st = length (cal st)
  ∧ (events_created st + events_skipped st
     = length (filter (λ '(before, r), owned_by_selected before r = true)
                      (positions [] rows)))%nat.
Proof.
  intros Hrun.
  destruct (run_spec nd_value sha256_hexdigest rows [] initial_state
              initial_invariant) as [Hfail Hok].
  destruct (raises_cases (positions [] rows)) as [Hloud|Hquiet].
  - apply Hfail in Hloud. unfold create_calendar_events in Hrun. congruence.
  - destruct (Hok Hquiet) as (st' & Hrun' & _ & Hlen & _ & Hcount).
    unfold create_calendar_events in Hrun. rewrite Hrun' in Hrun.
    injection Hrun as <-. split; [done|]. rewrite Hcount. simpl. lia.
Qed.

Lemma run_unselected rows :
  (∀ r, r ∈ rows → is_continuation_row r = false → is_selected r = false) →
  run initial_state rows = Some initial_state.
Proof.
  induction rows as [|r rows IH]; intros Hrows; [done|].
  cbn [Calendar.run].
  assert (Calendar.step nd_value sha256_hexdigest initial_state r = Some initial_state)
    as ->.
  { unfold Calendar.step. destruct (is_continuation_row r) eqn:Hcont; [done|].
    simpl. by rewrite (Hrows r ltac:(left) Hcont). }
  apply IH. intros r' Hr'. apply Hrows. by right.
Qed.

(** A row read back from a sheet that was filled without prior selections
    is not selected. *)
Lemma fresh_row_unselected g r :
  read_back (write_row ∅ g) r → is_selected r = false.
Proof.
  intros [Hselected _]. unfold is_selected, write_row in *.
  rewrite lookup_empty in Hselected.
  destruct (is_continuation g); cbn [col_selected default] in Hselected.
  - by destruct Hselected as [->|[_ ->]].
  - by destruct Hselected as [->|[_ ->]].
Qed.

(** X19: a sheet in which no event is selected gives an empty calendar and
    counts nothing, whatever its sign-up cells hold; in particular the
    sheet filled from a scrape without prior selections does, as it is
    filled and as it is read back from the file. *)
Theorem unselected_sheet_exports_nothing :
  (∀ rows,
     (∀ r, r ∈ rows → is_continuation_row r = false → is_selected r = false) →
     create_calendar_events nd_value sha256_hexdigest rows = Some initial_state)
  ∧ (∀ l, create_calendar_events nd_value sha256_hexdigest (data_rows l ∅)
          = Some initial_state)
  ∧ (∀ l rows',
       Forall2 read_back (data_rows l ∅) rows' →
       create_calendar_events nd_value sha256_hexdigest rows' = Some initial_state).
Proof.
  assert (∀ l rows',
            Forall2 read_back (data_rows l ∅) rows' →
            create_calendar_events nd_value sha256_hexdigest rows'
            = Some initial_state) as Hback.
  { intros l rows' Hrows. apply run_unselected.
    intros r Hr _. apply list_elem_of_lookup in Hr as [i Hi].
    destruct (Forall2_lookup_r _ _ _ _ _ Hrows Hi) as (w & Hw & Hback).
    unfold data_rows in Hw. rewrite list_lookup_fmap in Hw.
    destruct (group_events_by_name l !! i) as [g|]; [|done].
    injection Hw as <-. by apply (fresh_row_unselected g). }
  split_and!; [apply run_unselected | | exact Hback].
  intros l. apply (Hback l). apply Forall2_same_length_lookup. split; [done|].
  intros i w r Hw Hr. rewrite Hw in Hr. injection Hr as <-.
  split; by left.
Qed.

End RowLoop.

Lemma export_counts_witness :
  events_created (mk_state [] 0 1 (Some (Text (lit "Zoo Besuch")))
                    (Some (lit "/event/7")))
  = length (cal (mk_state [] 0 1 (Some (Text (lit "Zoo Besuch")))
                   (Some (lit "/event/7"))))
  ∧ (events_created (mk_state [] 0 1 (Some (Text (lit "Zoo Besuch")))
                       (Some (lit "/event/7")))
     + events_skipped (mk_state [] 0 1 (Some (Text (lit "Zoo Besuch")))
                         (Some (lit "/event/7")))
     = length (filter (λ '(before, r), owned_by_selected before r = true)
                 (positions []
                    [Samples.sheet_line (Some (lit "X")) (Some (lit "Zoo Besuch"))
                       (Some (lit "Not specified"))])))%nat.
Proof.
  apply (export_counts Samples.ascii_digits Samples.plain_digest). vm_compute. reflexivity.
Defined.

Lemma unselected_sheet_exports_nothing_witness :
  create_calendar_events Samples.ascii_digits Samples.plain_digest
    [Samples.sheet_line (Some (lit " ")) (Some (lit "Zoo Besuch"))
       (Some (lit "31.12.9999"));
     Samples.sheet_line_with None (Some (lit "Ferienlager")) Samples.number_45413]
  = Some initial_state.
Proof.
  apply (proj1 (unselected_sheet_exports_nothing Samples.ascii_digits
                  Samples.plain_digest)).
  intros r Hr _. apply elem_of_cons in Hr as [->|Hr]; [reflexivity|].
  apply list_elem_of_singleton in Hr as ->. reflexivity.
Defined.

End CalendarMore.

(** ** The reminders read from the sheet *)

Module ReminderFacts.

Import Scraper Calendar CalendarFacts Notions.

Section RowLoop.

Context (nd_value : N → option N).

Lemma unreadable_cases (l : list (list sheet_row * sheet_row)) :
  Exists (λ '(b, r), unreadable nd_value b r = true) l
  ∨ Forall (λ '(b, r), unreadable nd_value b r = false) l.
Proof.
  induction l as [|[b r] l [IH|IH]].
  - right. constructor.
  - left. by right.
  - destruct (unreadable nd_value b r) eqn:Hr.
    + left. by left.
    + right. by constructor.
Qed.

(** The part of a turn of the walk that follows the update of the two
    variables, for a row under the selected event named by [current]. *)
Lemma reminder_turn reminders (current : option value) current_url r row_url :
  match parse_date_range_cell nd_value (col_sign_up r) with
  | None => None
  | Some None => Some (Reminder.mk_state reminders current current_url)
  | Some (Some (start_date, _)) =>
      Some (Reminder.mk_state
              (reminders ++
                 [ {| Reminder.title := Reminder.TITLE_PREFIX ++ cell_str current;
                      Reminder.url := row_url;
                      Reminder.sign_up_period := col_sign_up r;
                      Reminder.date :=
                        cell_stripped (Reminder.value_or_empty (col_date r));
                      Reminder.time :=
                        cell_stripped (Reminder.value_or_empty (col_time r));
                      Reminder.start_date := start_date |} ])
              current current_url)
  end
  = if bool_decide (parse_date_range_cell nd_value (col_sign_up r) = None) then None
    else Some (Reminder.mk_state
                 (reminders ++ option_list
                    ('(start_date, _) ← window nd_value r;
                     Some {| Reminder.title :=
                               Reminder.TITLE_PREFIX ++ cell_str current;
                             Reminder.url := row_url;
                             Reminder.sign_up_period := col_sign_up r;
                             Reminder.date :=
                               if cell_truthy (col_date r)
                               then cell_stripped (col_date r) else [];
                             Reminder.time :=
                               if cell_truthy (col_time r)
                               then cell_stripped (col_time r) else [];
                             Reminder.start_date := start_date |}))
                 current current_url).
Proof.
  assert (∀ c, cell_stripped (Reminder.value_or_empty c)
               = if cell_truthy c then cell_stripped c else []) as Hvalue.
  { intros c. unfold Reminder.value_or_empty. by destruct (cell_truthy c). }
  unfold window.
  destruct (parse_date_range_cell nd_value (col_sign_up r))
    as [[[start_date end_date]|]|] eqn:Hparse.
  - rewrite bool_decide_eq_false_2 by done. cbn [mbind option_bind option_list].
    by rewrite !Hvalue.
  - rewrite bool_decide_eq_false_2 by done. cbn [mbind option_bind option_list].
    by rewrite app_nil_r.
  - by rewrite bool_decide_eq_true_2.
Qed.

Ltac fields :=
  cbn [Reminder.events Reminder.current_selected_event Reminder.current_event_url].

Lemma walk_step before st r :
  walk_invariant before st →
  if unreadable nd_value before r then Reminder.step nd_value st r = None
  else ∃ st', Reminder.step nd_value st r = Some st'
    ∧ walk_invariant (before ++ [r]) st'
    ∧ Reminder.events st'
      = Reminder.events st ++ option_list (expected_reminder nd_value before r).
Proof.
  intros (Hcur & Hurl).
  destruct st as [reminders current current_url].
  simpl in Hcur, Hurl. subst current current_url.
  unfold unreadable, owned_by_selected, walk_invariant, expected_reminder.
  rewrite owner_last_primary, last_primary_snoc.
  unfold Reminder.step, entry_url. cbv zeta.
  destruct (is_continuation_row r) eqn:Hcont; cbn [negb andb].
  - fields.
    destruct (last_primary before) as [p|] eqn:Hp; cbn [mbind option_bind];
      [|eexists; split; [done|]; fields; by rewrite app_nil_r].
    pose proof (primary_truthy p (last_primary_is_primary _ _ Hp)) as Hname.
    destruct (is_selected p) eqn:Hsel; cbn [andb];
      [|eexists; split; [done|]; fields; cbn [mbind option_bind];
        by rewrite ?Hsel, ?app_nil_r].
    rewrite Hname, reminder_turn.
    destruct (bool_decide _); [done|].
    eexists. split; [done|]. fields. cbn [mbind option_bind].
    by rewrite ?Hsel.
  - pose proof (primary_truthy r Hcont) as Hname.
    destruct (is_selected r) eqn:Hsel; cbn [andb]; fields;
      [|eexists; split; [done|]; fields; cbn [mbind option_bind];
        by rewrite ?Hsel, ?app_nil_r].
    rewrite Hname, reminder_turn.
    destruct (bool_decide _); [done|].
    eexists. split; [done|]. fields. cbn [mbind option_bind].
    by rewrite ?Hsel.
Qed.

Lemma walk_spec rows : ∀ before st,
  walk_invariant before st →
  (Exists (λ '(b, r), unreadable nd_value b r = true) (positions before rows) →
   Reminder.run nd_value st rows = None)
  ∧ (Forall (λ '(b, r), unreadable nd_value b r = false) (positions before rows) →
     ∃ st', Reminder.run nd_value st rows = Some st'
       ∧ Reminder.events st'
         = Reminder.events st
           ++ omap (λ '(b, r), expected_reminder nd_value b r)
                   (positions before rows)).
Proof.
  induction rows as [|r rows IH]; intros before st Hinv.
  - split; [by intros ?%Exists_nil|]. intros _.
    exists st. simpl. by rewrite app_nil_r.
  - pose proof (walk_step before st r Hinv) as Hstep.
    cbn [Reminder.run positions]. rewrite Exists_cons, Forall_cons.
    destruct (unreadable nd_value before r) eqn:Hbad.
    + rewrite Hstep. split; [done|]. by intros [? _].
    + destruct Hstep as (st1 & -> & Hinv1 & Hev1).
      destruct (IH (before ++ [r]) st1 Hinv1) as [Hfail Hok].
      split; [by intros [?|?]; [|apply Hfail]|].
      intros [_ Hall]. destruct (Hok Hall) as (st' & Hrun & Hev).
      exists st'. split; [done|].
      rewrite Hev, Hev1, <- (assoc (++)). f_equal. cbn [omap list_omap].
      by destruct (expected_reminder nd_value before r).
Qed.

(** X20: the reminder walk raises exactly when some row of a selected
    event has a Sign-Up cell that holds a value which is not a text and is
    true (a number other than zero, a date).  When it returns, it gives,
    in row order, exactly one reminder for every row that has a sign-up
    window and whose owning row (the nearest row at or before it with a
    name of its own) is selected; the reminder is titled with the owner's
    name, starts on the first day of the window, and carries the row's own
    link on a continuation row that has one and the owner's link
    otherwise.  A row whose window does not parse gives none. *)
Theorem reminders_by_owner (rows : list sheet_row) :
  (Reminder.read_selected_events nd_value rows = None
   ↔ Exists (λ '(before, r), unreadable nd_value before r = true)
            (positions [] rows))
  ∧ (Forall (λ '(before, r), unreadable nd_value before r = false)
            (positions [] rows) →
     Reminder.read_selected_events nd_value rows
     = Some (omap (λ '(before, r), expected_reminder nd_value before r)
                  (positions [] rows))).
Proof.
  unfold Reminder.read_selected_events.
  destruct (walk_spec rows [] Reminder.initial_state ltac:(done)) as [Hfail Hok].
  split.
  - split; [|by intros ->%Hfail].
    intros Hnone. destruct (unreadable_cases (positions [] rows)) as [|Hquiet]; [done|].
    destruct (Hok Hquiet) as (st & Hrun & _). by rewrite Hrun in Hnone.
  - intros Hquiet. destruct (Hok Hquiet) as (st & -> & Hev).
    simpl. by rewrite Hev.
Qed.

Context (sha256_hexdigest : str → str).

Lemma in_step_step q st r st' :
  in_step q st →
  Calendar.step nd_value sha256_hexdigest st r = Some st' →
  ∃ q', Reminder.step nd_value q r = Some q' ∧ in_step q' st'.
Proof.
  intros (Hcur & Hurl & Hfaces).
  destruct q as [reminders qcur qurl], st as [entries created skipped current current_url].
  simpl in Hcur, Hurl, Hfaces. subst qcur qurl.
  unfold Calendar.step, Reminder.step, make_event, in_step. cbv zeta.
  assert (∀ (current : option value) current_url row_url st',
            match parse_date_range_cell nd_value (col_sign_up r) with
            | None => None
            | Some None =>
                Some (mk_state entries created (S skipped) current current_url)
            | Some (Some (start_date, end_date)) =>
                match
                  match Date.add_day end_date with
                  | Some next_day =>
                      Some {| summary := SUMMARY_PREFIX ++ cell_str current;
                              dtstart := start_date;
                              dtend := next_day;
                              uid := make_uid sha256_hexdigest (cell_str current)
                                       start_date end_date;
                              url := if truthy row_url then row_url else None;
                              valarm := mk_alarm (lit "DISPLAY") 0
                                          (SUMMARY_PREFIX ++ cell_str current) |}
                  | None => None
                  end
                with
                | Some entry =>
                    Some (mk_state (entries ++ [entry]) (S created) skipped
                                   current current_url)
                | None => None
                end
            end = Some st' →
            ∃ q',
              match parse_date_range_cell nd_value (col_sign_up r) with
              | None => None
              | Some None => Some (Reminder.mk_state reminders current current_url)
              | Some (Some (start_date, _)) =>
                  Some (Reminder.mk_state
                          (reminders ++
                             [ {| Reminder.title :=
                                    Reminder.TITLE_PREFIX ++ cell_str current;
                                  Reminder.url := row_url;
                                  Reminder.sign_up_period := col_sign_up r;
                                  Reminder.date :=
                                    cell_stripped (Reminder.value_or_empty (col_date r));
                                  Reminder.time :=
                                    cell_stripped (Reminder.value_or_empty (col_time r));
                                  Reminder.start_date := start_date |} ])
                          current current_url)
              end = Some q'
              ∧ Reminder.current_selected_event q' = current_selected_event st'
              ∧ Reminder.current_event_url q' = current_event_url st'
              ∧ reminder_face <$> Reminder.events q' = entry_face <$> cal st')
    as Hturn.
  { intros cur cur_url row_url st1.
    destruct (parse_date_range_cell nd_value (col_sign_up r))
      as [[[start_date end_date]|]|]; [| |done].
    - destruct (Date.add_day end_date) as [next_day|]; [|done].
      intros [= <-]. eexists. split; [done|]. simpl.
      split_and!; try done. rewrite !fmap_app, Hfaces. done.
    - intros [= <-]. eexists. split; [done|]. by simpl. }
  destruct (is_continuation_row r) eqn:Hcont; cbn [negb andb].
  - cbn [cal events_created events_skipped current_selected_event current_event_url
         Reminder.events Reminder.current_selected_event Reminder.current_event_url].
    destruct (cell_truthy current).
    + apply Hturn.
    + intros [= <-]. eexists. split; [done|]. by simpl.
  - destruct (is_selected r) eqn:Hsel;
      cbn [cal events_created events_skipped current_selected_event current_event_url
           Reminder.events Reminder.current_selected_event Reminder.current_event_url].
    + destruct (cell_truthy (col_event_name r)).
      * apply Hturn.
      * intros [= <-]. eexists. split; [done|]. by simpl.
    + cbn [cell_truthy]. intros [= <-]. eexists. split; [done|]. by simpl.
Qed.

Lemma in_step_run rows : ∀ q st st',
  in_step q st →
  Calendar.run nd_value sha256_hexdigest st rows = Some st' →
  ∃ q', Reminder.run nd_value q rows = Some q' ∧ in_step q' st'.
Proof.
  induction rows as [|r rows IH]; intros q st st' Hsim; simpl.
  - intros [= <-]. by exists q.
  - destruct (Calendar.step nd_value sha256_hexdigest st r) as [st1|] eqn:Hstep; [|done].
    destruct (in_step_step q st r st1 Hsim Hstep) as (q1 & -> & Hsim1).
    by apply IH.
Qed.

(** X21: whenever the calendar export of a sheet ends normally, the
    reminder walk over the same sheet returns, and the reminders match the
    calendar entries one for one and in order: the same title, the same
    first day, and the same link (an empty link counting as none). *)
Theorem reminders_match_calendar (rows : list sheet_row) (st : state) :
  create_calendar_events nd_value sha256_hexdigest rows = Some st →
  ∃ reminders,
    Reminder.read_selected_events nd_value rows = Some reminders
    ∧ reminder_face <$> reminders = entry_face <$> cal st.
Proof.
  intros Hrun.
  destruct (in_step_run rows Reminder.initial_state initial_state st) as (q & Hq & Hsim);
    [done | done |].
  exists (Reminder.events q). unfold Reminder.read_selected_events.
  rewrite Hq. split; [done | apply Hsim].
Qed.

End RowLoop.

Lemma reminders_by_owner_witness :
  Reminder.read_selected_events Samples.ascii_digits
    [Samples.sheet_line (Some (lit "X")) (Some (lit "Zoo Besuch"))
       (Some (lit "01.05.2024 - 10.05.2024"));
     Samples.sheet_line_with None (Some (lit "Ferienlager")) Samples.number_45413]
  = Some (omap (λ '(before, r), expected_reminder Samples.ascii_digits before r)
            (positions []
               [Samples.sheet_line (Some (lit "X")) (Some (lit "Zoo Besuch"))
                  (Some (lit "01.05.2024 - 10.05.2024"));
                Samples.sheet_line_with None (Some (lit "Ferienlager"))
                  Samples.number_45413])).
Proof.
  apply (proj2 (reminders_by_owner Samples.ascii_digits _)).
  simpl positions.
  repeat (apply Forall_cons; split; [vm_compute; reflexivity|]).
  apply Forall_nil_2.
Defined.

Lemma reminders_match_calendar_witness :
  ∃ reminders,
    Reminder.read_selected_events Samples.ascii_digits
      [Samples.sheet_line (Some (lit "X")) (Some (lit "Zoo Besuch"))
         (Some (lit "01.05.2024 - 10.05.2024"))] = Some reminders
    ∧ reminder_face <$> reminders
      = [(lit "Anmeldung Familienpass: Zoo Besuch", Date.mk 2024 5 1,
          Some (lit "/event/7"))].
Proof.
  destruct (reminders_match_calendar Samples.ascii_digits Samples.plain_digest
              [Samples.sheet_line (Some (lit "X")) (Some (lit "Zoo Besuch"))
                 (Some (lit "01.05.2024 - 10.05.2024"))]
              (mk_state
                 [ {| summary := lit "Anmeldung Familienpass: Zoo Besuch";
                      dtstart := Date.mk 2024 5 1;
                      dtend := Date.mk 2024 5 11;
                      uid := make_uid Samples.plain_digest (lit "Zoo Besuch")
                               (Date.mk 2024 5 1) (Date.mk 2024 5 10);
                      url := Some (lit "/event/7");
                      valarm := mk_alarm (lit "DISPLAY") 0
                                  (lit "Anmeldung Familienpass: Zoo Besuch") |} ]
                 1 0 (Some (Text (lit "Zoo Besuch"))) (Some (lit "/event/7"))))
    as (reminders & Hread & Hfaces); [vm_compute; reflexivity|].
  exists reminders. split; [exact Hread|]. rewrite Hfaces. vm_compute. reflexivity.
Defined.

End ReminderFacts.

(** ** Further properties of the sign-up window normalizer *)

Module SignUpMore.

Import SignUp PyStrFacts SignUpFacts Notions.

Lemma digits_plain w n : Forall plain (digits w n).
Proof.
  revert n. induction w as [|w IH]; intros n; cbn [digits]; [constructor|].
  apply Forall_app. split; [apply IH|]. constructor; [|constructor].
  assert (n mod 10 < 10) as Hmod by (apply N.mod_lt; lia).
  split; [|by apply is_space_digit].
  pose proof (N.le_0_l (n mod 10)). lia.
Qed.

Lemma strftime_plain d : Forall plain (strftime_dmY d).
Proof.
  unfold strftime_dmY.
  rewrite !Forall_app, !Forall_singleton.
  split_and!; try apply digits_plain; by split.
Qed.

Lemma find_sub_absent a p s : a ∉ s → find_sub (a :: p) s = None.
Proof.
  induction s as [|b s IH]; [done|].
  intros [Hab Hs]%not_elem_of_cons. cbn [find_sub starts_with].
  destruct (N.eqb_spec a b) as [->|_]; [done|]. simpl. by rewrite IH.
Qed.

Lemma find_sub_after a p s t :
  a ∉ s → find_sub (a :: p) (s ++ t) = (λ i, length s + i)%nat <$> find_sub (a :: p) t.
Proof.
  induction s as [|b s IH].
  - intros _. simpl app. by destruct (find_sub (a :: p) t).
  - intros [Hab Hs]%not_elem_of_cons. simpl app. cbn [find_sub starts_with].
    destruct (N.eqb_spec a b) as [->|_]; [done|]. simpl andb. cbv iota.
    rewrite (IH Hs). by destruct (find_sub (a :: p) t).
Qed.

Lemma plain_no_space s : Forall plain s → 32 ∉ s.
Proof.
  intros Hs Hin. rewrite Forall_forall in Hs. by destruct (Hs 32 Hin) as [_ ?].
Qed.

Lemma plain_no_d s : Forall plain s → 100 ∉ s.
Proof.
  intros Hs Hin. rewrite Forall_forall in Hs. by destruct (Hs 100 Hin) as [? _].
Qed.

Lemma plain_strip s : Forall plain s → strip s = s.
Proof.
  intros Hs. unfold strip.
  assert (lstrip s = s) as ->.
  { destruct Hs as [|c s [_ Hc] _]; [done|]. simpl. by rewrite Hc. }
  induction Hs as [|c s [_ Hc] _ IH]; [done|].
  cbn [rstrip]. rewrite IH, Hc. by destruct s.
Qed.

Section Dates.

Context (nd_value : N → option N).

Abbreviation parse_date_range := (SignUp.parse_date_range nd_value).

(** X22: for real calendar dates, a window printed as
    [dd.mm.yyyy - dd.mm.yyyy], each field padded with zeros to its width,
    is read back as the same two dates, and one date printed alone is read
    back as a window of that one day. *)
Theorem printed_window_round_trip (d1 d2 : date) :
  Date.wf d1 → Date.wf d2 →
  parse_date_range (Some (strftime_dmY d1 ++ RANGE_SEP ++ strftime_dmY d2))
    = Some (d1, d2)
  ∧ parse_date_range (Some (strftime_dmY d1)) = Some (d1, d1).
Proof.
  intros Hd1 Hd2.
  pose proof (parse_date_strftime nd_value d1 [] Hd1) as H1.
  pose proof (parse_date_strftime nd_value d2 [] Hd2) as H2.
  rewrite app_nil_r in H1, H2.
  pose proof (strftime_plain d1) as Hp1. pose proof (strftime_plain d2) as Hp2.
  split.
  - rewrite (parse_date_range_split _ _ (lstrip (strftime_dmY d1))
               (rstrip (strftime_dmY d2))).
    + by rewrite parse_date_lstrip, parse_date_rstrip, H1, H2.
    + apply parse_date_Some_nonempty in H1. by destruct (strftime_dmY d1).
    + apply range_not_specified.
    + apply contains_false, find_sub_absent.
      rewrite !not_elem_of_app. split_and!;
        [by apply plain_no_d | by apply (bool_decide_unpack _)
         | by apply plain_no_d].
    + eapply parse_date_range_parts; [done|done|].
      unfold RANGE_SEP at 1. change (lit " - ") with (32 :: lit "- ").
      rewrite find_sub_after by by apply plain_no_space.
      rewrite find_sub_here by done. simpl. f_equal; lia.
  - rewrite parse_date_range_single; [by rewrite H1 | | | |].
    + apply parse_date_Some_nonempty in H1. done.
    + intros Heq. by rewrite Heq, parse_date_not_specified in H1.
    + apply contains_false, find_sub_absent. by apply plain_no_d.
    + rewrite plain_strip by done.
      apply contains_false, find_sub_absent. by apply plain_no_space.
Qed.

(** X23: whenever a cell yields a window, the cell holds a text that is
    neither empty nor ['Not specified'] and does not contain the
    direct-registration phrase, both ends of the window are real calendar
    dates (year 1 to 9999, month 1 to 12, a day the month has), and a text
    without the range separator yields a window of a single day. *)
Theorem window_sound (c : option str) (a b : date) :
  parse_date_range c = Some (a, b) →
  ∃ s, c = Some s ∧ s ≠ [] ∧ s ≠ NOT_SPECIFIED
       ∧ contains DIRECT_PHRASE s = false
       ∧ Date.wf a ∧ Date.wf b
       ∧ (contains RANGE_SEP (strip s) = false → a = b).
Proof.
  intros Hrange. destruct (parse_date_range_wf nd_value c a b Hrange) as [Ha Hb].
  unfold SignUp.parse_date_range in Hrange. destruct c as [s|]; [|done].
  exists s.
  destruct (decide (s = [])) as [->|Hne]; [done|].
  destruct (decide (s = NOT_SPECIFIED)) as [->|Hns]; [done|].
  rewrite !bool_decide_eq_false_2 in Hrange by done. simpl in Hrange.
  destruct (contains DIRECT_PHRASE s); [done|].
  split_and!; try done.
  intros Hsep. rewrite Hsep in Hrange.
  destruct (SignUp.parse_date nd_value (strip s)); by simplify_eq.
Qed.

End Dates.

Lemma printed_window_round_trip_witness :
  SignUp.parse_date_range Samples.ascii_digits
    (Some (strftime_dmY (Date.mk 2024 5 1) ++ RANGE_SEP
           ++ strftime_dmY (Date.mk 2024 5 10)))
  = Some (Date.mk 2024 5 1, Date.mk 2024 5 10).
Proof.
  apply (proj1 (printed_window_round_trip Samples.ascii_digits
                  (Date.mk 2024 5 1) (Date.mk 2024 5 10) eq_refl eq_refl)).
Defined.

Lemma window_sound_witness :
  ∃ s, Some (lit "29.02.2024 ab 8 Uhr") = Some s ∧ s ≠ [] ∧ s ≠ NOT_SPECIFIED
       ∧ contains DIRECT_PHRASE s = false
       ∧ Date.wf (Date.mk 2024 2 29) ∧ Date.wf (Date.mk 2024 2 29)
       ∧ (contains RANGE_SEP (strip s) = false
          → Date.mk 2024 2 29 = Date.mk 2024 2 29).
Proof.
  apply (window_sound Samples.ascii_digits). vm_compute. reflexivity.
Defined.

End SignUpMore.

(** ** The listing pages *)

Module ListingFacts.

Import Listing Notions.

Lemma requests_app t1 t2 : requests (t1 ++ t2) = (requests t1 + requests t2)%nat.
Proof. unfold requests. by rewrite filter_app, length_app. Qed.

Lemma page_delays_app t1 t2 :
  page_delays (t1 ++ t2) = (page_delays t1 + page_delays t2)%nat.
Proof. unfold page_delays. by rewrite filter_app, length_app. Qed.

Lemma event_delays_app t1 t2 :
  event_delays (t1 ++ t2) = (event_delays t1 + event_delays t2)%nat.
Proof. unfold event_delays. by rewrite filter_app, length_app. Qed.

Lemma requests_calls l : requests (Call <$> l) = Retry.attempts l.
Proof.
  unfold requests, Retry.attempts.
  induction l as [|[u|s] l IH]; [done| |].
  - rewrite fmap_cons, !filter_cons_True by done. simpl. by rewrite IH.
  - rewrite fmap_cons, !filter_cons_False by done. done.
Qed.

Lemma page_delays_calls l : page_delays (Call <$> l) = 0%nat.
Proof.
  unfold page_delays. induction l as [|c l IH]; [done|].
  by rewrite fmap_cons, filter_cons_False by done.
Qed.

Lemma event_delays_calls l : event_delays (Call <$> l) = 0%nat.
Proof.
  unfold event_delays. induction l as [|c l IH]; [done|].
  by rewrite fmap_cons, filter_cons_False by done.
Qed.

(** A fetch begins with a request. *)
Lemma fetch_begins url env :
  ∃ rest, (Retry.make_request_with_retry url Config.MAX_RETRIES
             Config.INITIAL_BACKOFF env).1 = Retry.Get url :: rest.
Proof.
  unfold Retry.make_request_with_retry.
  change (Z.to_nat Config.MAX_RETRIES) with 3%nat.
  cbn [Retry.attempt_loop]. cbv zeta. cbn [fst]. eauto.
Qed.

Lemma fetch_requests url env :
  (requests (Call <$> (Retry.make_request_with_retry url Config.MAX_RETRIES
                         Config.INITIAL_BACKOFF env).1) ≤ 3)%nat
  ∧ Forall (λ a, is_request a = true → a = Call (Retry.Get url))
           (Call <$> (Retry.make_request_with_retry url Config.MAX_RETRIES
                        Config.INITIAL_BACKOFF env).1).
Proof.
  split.
  - rewrite requests_calls.
    apply (RetryFacts.attempts_bounded url Config.MAX_RETRIES).
  - apply Forall_fmap.
    eapply Forall_impl; [apply RetryMore.loop_requests|].
    intros [u|s] Hc; simpl; [|done]. intros Hr. by rewrite (Hc Hr).
Qed.

Section Pages.

Context `{Bs4Table soup table row cell link}.
Context (html_parser : str → soup) (urljoin : str → str → str).

Lemma row_entry_Some r u d :
  row_entry urljoin r = Some (u, d) ↔
  ∃ cell0 cell1 others a h,
    find_cells r = cell0 :: cell1 :: others
    ∧ find_link cell1 = Some a ∧ href a = Some h ∧ h ≠ []
    ∧ u = link_target urljoin h ∧ d = clean_text (cell_text cell0).
Proof.
  unfold row_entry, link_target. split.
  - destruct (find_cells r) as [|cell0 [|cell1 others]]; try done.
    destruct (find_link cell1) as [a|] eqn:Hl; [|done].
    destruct (href a) as [[|c h]|] eqn:Hh; try done.
    cbn [Scraper.truthy]. intros Heq.
    exists cell0, cell1, others, a, (c :: h).
    destruct (starts_with HTTP_PREFIX (c :: h)); cbn [negb] in Heq; by simplify_eq.
  - intros (cell0 & cell1 & others & a & h & -> & -> & -> & Hne & -> & ->).
    destruct h as [|c h]; [done|]. cbn [Scraper.truthy].
    by destruct (starts_with HTTP_PREFIX (c :: h)).
Qed.

(** X24: a listing page yields the entry [(u, d)] exactly when some row
    after the first of one of its event tables has at least two cells,
    the second holding a link with a non-empty [href]; [d] is the cleaned
    text of the first cell and [u] is the [href], joined to the site root
    unless it starts with [http].  The first row of a table is never
    read. *)
Theorem listing_entry_origin (html_content u d : str) :
  (u, d) ∈ parse_listing_page html_parser urljoin html_content ↔
  ∃ t i r cell0 cell1 others a h,
    t ∈ find_tables (html_parser html_content)
    ∧ find_rows t !! S i = Some r
    ∧ find_cells r = cell0 :: cell1 :: others
    ∧ find_link cell1 = Some a ∧ href a = Some h ∧ h ≠ []
    ∧ u = link_target urljoin h ∧ d = clean_text (cell_text cell0).
Proof.
  unfold parse_listing_page. cbv zeta.
  assert ((u, d) ∈ find_tables (html_parser html_content)
                   ≫= (λ t, omap (row_entry urljoin) (drop 1 (find_rows t))) ↔
          ∃ t i r cell0 cell1 others a h,
            t ∈ find_tables (html_parser html_content)
            ∧ find_rows t !! S i = Some r
            ∧ find_cells r = cell0 :: cell1 :: others
            ∧ find_link cell1 = Some a ∧ href a = Some h ∧ h ≠ []
            ∧ u = link_target urljoin h ∧ d = clean_text (cell_text cell0)) as Hbind.
  { rewrite list_elem_of_bind. split.
    - intros (t & (r & Hr & Hentry)%list_elem_of_omap & Ht).
      apply list_elem_of_lookup in Hr as [i Hi]. rewrite lookup_drop in Hi.
      apply row_entry_Some in Hentry
        as (cell0 & cell1 & others & a & h & ? & ? & ? & ? & ? & ?).
      by exists t, i, r, cell0, cell1, others, a, h.
    - intros (t & i & r & cell0 & cell1 & others & a & h & Ht & Hi & Hrest).
      exists t. split; [|done]. apply list_elem_of_omap. exists r. split.
      + apply list_elem_of_lookup. exists i. by rewrite lookup_drop.
      + apply row_entry_Some. by exists cell0, cell1, others, a, h. }
  destruct (find_tables (html_parser html_content)) as [|t0 ts] eqn:Htables; [|done].
  rewrite <- Hbind. done.
Qed.

Section Walk.

Context (base_url : str) (total_pages : Z) (env : Z → nat → Retry.outcome).

Abbreviation page_loop :=
  (Listing.page_loop html_parser urljoin base_url total_pages env).

Lemma page_loop_entries e : ∀ remaining page_num,
  e ∈ (page_loop remaining page_num).2 ↔
  ∃ p text,
    (page_num ≤ p < page_num + Z.of_nat remaining)%Z
    ∧ (fetch_page base_url env p).2 = Retry.Returned text
    ∧ e ∈ parse_listing_page html_parser urljoin text.
Proof.
  induction remaining as [|remaining IH]; intros page_num.
  - simpl. split; [by intros ?%elem_of_nil | intros (p & ? & ? & _); lia].
  - cbn [Listing.page_loop]. cbv zeta. cbn [snd].
    rewrite elem_of_app, IH. split.
    + intros [He|(p & text & Hp & Hfetch & He)].
      * destruct (fetch_page base_url env page_num).2 as [text|] eqn:Hfetch;
          [|by apply elem_of_nil in He].
        exists page_num, text. split_and!; try done; lia.
      * exists p, text. split_and!; try done; lia.
    + intros (p & text & Hp & Hfetch & He).
      destruct (decide (p = page_num)) as [->|Hne].
      * left. by rewrite Hfetch.
      * right. exists p, text. split_and!; try done; lia.
Qed.

(** X25: the walk over the listing pages returns exactly the entries of
    the pages 1 to [total_pages] whose fetch returned a page; a page whose
    fetch raised contributes nothing and does not stop the walk. *)
Theorem fetched_pages_listed (e : str * str) :
  e ∈ (get_all_event_urls html_parser urljoin base_url total_pages env).2 ↔
  ∃ page_num text,
    (1 ≤ page_num ≤ total_pages)%Z
    ∧ (fetch_page base_url env page_num).2 = Retry.Returned text
    ∧ e ∈ parse_listing_page html_parser urljoin text.
Proof.
  unfold get_all_event_urls. rewrite page_loop_entries.
  split; intros (p & text & Hp & Hrest); exists p, text; (split; [lia | done]).
Qed.

Lemma page_loop_trace : ∀ remaining page_num,
  (page_num + Z.of_nat remaining = total_pages + 1)%Z →
  let t := (page_loop remaining page_num).1 in
  page_delays t = (remaining - 1)%nat
  ∧ (requests t ≤ 3 * remaining)%nat
  ∧ Forall (λ a, is_request a = true →
                 ∃ p, (page_num ≤ p ≤ total_pages)%Z
                      ∧ a = Call (Retry.Get (page_url base_url p))) t
  ∧ last t ≠ Some PageDelay
  ∧ ((0 < remaining)%nat → t ≠ []).
Proof.
  induction remaining as [|remaining IH]; intros page_num Hsum; cbv zeta.
  - simpl. split_and!; try done. lia.
  - cbn [Listing.page_loop]. cbv zeta. cbn [fst].
    destruct (IH (page_num + 1)%Z ltac:(lia))
      as (Hdelays & Hrequests & Hurls & Hlast & Hnonempty).
    destruct (fetch_requests (page_url base_url page_num) (env page_num))
      as [Hbound Hgets].
    destruct (fetch_begins (page_url base_url page_num) (env page_num))
      as [calls Hcalls].
    fold (fetch_page base_url env page_num) in Hbound, Hgets, Hcalls.
    set (rest := (Listing.page_loop html_parser urljoin base_url total_pages env
                    remaining (page_num + 1)).1) in *.
    split_and!.
    + rewrite !page_delays_app, page_delays_calls, Hdelays.
      destruct (Z.ltb_spec page_num total_pages); simpl.
      * unfold page_delays. simpl. lia.
      * unfold page_delays. simpl. lia.
    + rewrite !requests_app.
      assert (requests (if (page_num <? total_pages)%Z then [PageDelay] else []) = 0%nat)
        as -> by by destruct (page_num <? total_pages)%Z.
      lia.
    + rewrite !Forall_app. split_and!.
      * eapply Forall_impl; [exact Hgets|]. simpl. intros a Ha Hr.
        exists page_num. split; [lia | by apply Ha].
      * destruct (page_num <? total_pages)%Z; repeat constructor; done.
      * eapply Forall_impl; [exact Hurls|]. simpl. intros a Ha Hr.
        destruct (Ha Hr) as (p & Hp & ->). exists p. split; [lia | done].
    + rewrite !last_app.
      destruct (last rest) as [a|] eqn:Hrest; [done|].
      apply last_None in Hrest.
      destruct remaining as [|remaining']; [|by destruct Hnonempty; [lia|]].
      assert ((page_num <? total_pages)%Z = false) as -> by (apply Z.ltb_ge; lia).
      cbn [last]. rewrite fmap_last. by destruct (last _).
    + intros _. rewrite Hcalls. done.
Qed.

(** X26: in the walk over [total_pages] listing pages there is a pause
    after every page but the last, the requests number no more than three
    times [total_pages], every request goes to the address of one of the
    pages 1 to [total_pages], and the walk does not end with a pause. *)
Theorem page_walk_trace :
  let t := (get_all_event_urls html_parser urljoin base_url total_pages env).1 in
  page_delays t = (Z.to_nat total_pages - 1)%nat
  ∧ (requests t ≤ 3 * Z.to_nat total_pages)%nat
  ∧ Forall (λ a, is_request a = true →
                 ∃ p, (1 ≤ p ≤ total_pages)%Z
                      ∧ a = Call (Retry.Get (page_url base_url p))) t
  ∧ last t ≠ Some PageDelay.
Proof.
  cbv zeta. unfold get_all_event_urls.
  destruct (Z.le_gt_cases 1 total_pages) as [Hpos|Hneg].
  - destruct (page_loop_trace (Z.to_nat total_pages) 1 ltac:(lia))
      as (? & ? & ? & ? & _). done.
  - assert (Z.to_nat total_pages = 0%nat) as -> by lia. simpl.
    split_and!; done.
Qed.

End Walk.

End Pages.

End ListingFacts.

(** ** The whole run *)

Module PipelineFacts.

Import Scraper Listing Pipeline Notions ListingFacts.

Section Run.

Context `{Bs4Table soup table row cell link}.
Context `{Detail.Bs4 dsoup tag node}.
Context (listing_parser : str → soup) (urljoin : str → str → str).
Context (html_parser : str → Detail.parse dsoup) (lower : str → str).
Context (page_env : Z → nat → Retry.outcome).
Context (event_env : nat → nat → Retry.outcome).
Context (accepts : value → bool) (wb_save : list sheet_row → bool).

Abbreviation listing :=
  (get_all_event_urls listing_parser urljoin BASE_URL TOTAL_PAGES page_env).
Abbreviation scrape_loop := (Pipeline.scrape_loop html_parser lower event_env).
Abbreviation main :=
  (Pipeline.main listing_parser urljoin html_parser lower page_env event_env
     accepts wb_save).

Lemma scraped_url env url listing_date :
  event_url (Detail.scrape_event_details html_parser lower env url listing_date) = url.
Proof.
  unfold Detail.scrape_event_details, Detail.parse_event_page.
  destruct (Retry.make_request_with_retry url Config.MAX_RETRIES
              Config.INITIAL_BACKOFF env).2 as [text|e]; [|done].
  destruct (html_parser text) as [s|msg]; [|done].
  by destruct (negb _ && _).
Qed.

Lemma scrape_loop_urls total event_urls : ∀ idx,
  event_url <$> (scrape_loop total idx event_urls).2 = fst <$> event_urls.
Proof.
  induction event_urls as [|[url listing_date] rest IH]; intros idx; [done|].
  cbn [Pipeline.scrape_loop]. cbv zeta. cbn [snd]. rewrite !fmap_cons, IH.
  by rewrite scraped_url.
Qed.

Lemma scrape_loop_trace total event_urls : ∀ idx,
  (idx + length event_urls = total + 1)%nat →
  let t := (scrape_loop total idx event_urls).1 in
  event_delays t = (length event_urls - 1)%nat
  ∧ page_delays t = 0%nat
  ∧ (requests t ≤ 3 * length event_urls)%nat.
Proof.
  induction event_urls as [|[url listing_date] rest IH]; intros idx Hsum; cbv zeta.
  - done.
  - cbn [Pipeline.scrape_loop]. cbv zeta. cbn [fst]. simpl length in *.
    destruct (IH (S idx) ltac:(lia)) as (Hdelays & Hpages & Hrequests).
    destruct (fetch_requests url (event_env (pred idx))) as [Hbound _].
    set (pause := if (idx <? total)%nat then [EventDelay] else []).
    assert (event_delays pause = (if (idx <? total)%nat then 1 else 0)%nat
            ∧ page_delays pause = 0%nat ∧ requests pause = 0%nat)
      as (Hpause & Hnone & Hquiet)
      by (unfold pause; by destruct (idx <? total)%nat).
    rewrite !event_delays_app, !page_delays_app, !requests_app.
    rewrite event_delays_calls, page_delays_calls, Hdelays, Hpages.
    rewrite Hpause, Hnone, Hquiet.
    destruct (Nat.ltb_spec idx total); split_and!; lia.
Qed.

Lemma walk_event_delays remaining : ∀ page_num,
  event_delays (page_loop listing_parser urljoin BASE_URL TOTAL_PAGES page_env
                  remaining page_num).1 = 0%nat.
Proof.
  induction remaining as [|remaining IH]; intros page_num; [done|].
  cbn [page_loop]. cbv zeta. cbn [fst].
  rewrite !event_delays_app, event_delays_calls, IH.
  by destruct (page_num <? TOTAL_PAGES)%Z.
Qed.

Lemma hyperlinks_written selections l :
  name_hyperlink <$> data_rows l selections ≡ₚ Some ∘ Some ∘ event_url <$> l.
Proof.
  assert (name_hyperlink <$> data_rows l selections
          = Some ∘ Some ∘ event_url <$> (shown ∘ data <$> group_events_by_name l)) as ->.
  { unfold data_rows. rewrite <- !list_fmap_compose.
    apply list_fmap_ext. intros _ g _. simpl.
    unfold write_row. by destruct (is_continuation g). }
  rewrite GrouperMore.grouping_shown_perm, <- list_fmap_compose.
  assert ((Some ∘ Some ∘ event_url) ∘ shown <$> l = Some ∘ Some ∘ event_url <$> l)
    as ->; [|done].
  by apply list_fmap_ext.
Qed.

(** X27: a run writes a sheet exactly when it finds a listing entry, the
    workbook takes every value filled into the rows, and the file write
    returns; in every other case it exits without a sheet.  A sheet that
    is written has exactly one data row for every listing entry, and the
    links of the rows are the addresses of the listing entries, each as
    often as it is listed. *)
Theorem sheet_rows_are_listing_entries (existing : option (list sheet_row)) :
  let rows := data_rows (scrape_loop (length listing.2) 1 listing.2).2
                (load_existing_selections existing) in
  (is_Some (main existing).2
   ↔ listing.2 ≠ []
     ∧ forallb (λ r, forallb accepts (assigned r)) rows = true
     ∧ wb_save rows = true)
  ∧ (∀ sheet, (main existing).2 = Some sheet →
       sheet = rows
       ∧ length sheet = length listing.2
       ∧ name_hyperlink <$> sheet ≡ₚ Some ∘ Some ∘ fst <$> listing.2).
Proof.
  cbv zeta. unfold Pipeline.main, save_to_excel. cbv zeta.
  destruct listing.2 as [|entry entries] eqn:Hlisting; cbn [snd].
  - split; [|done]. split; [by intros [? ?] | by intros [? _]].
  - set (rows := data_rows _ _).
    assert (length rows = length (entry :: entries)
            ∧ name_hyperlink <$> rows ≡ₚ Some ∘ Some ∘ fst <$> entry :: entries)
      as [Hlen Hlinks].
    { unfold rows. rewrite hyperlinks_written. unfold data_rows.
      rewrite length_fmap, GrouperFacts.group_events_by_name_length.
      rewrite <- (length_fmap event_url), list_fmap_compose, scrape_loop_urls.
      by rewrite length_fmap, <- list_fmap_compose. }
    destruct (forallb _ rows && wb_save rows) eqn:Hok.
    + apply andb_true_iff in Hok as [Haccepted Hsaved]. split.
      * split; [done | by eexists].
      * by intros sheet [= <-].
    + split; [|done]. split; [by intros [? ?]|].
      intros (_ & Haccepted & Hsaved). by rewrite Haccepted, Hsaved in Hok.
Qed.

(** X28: a run pauses after every listing page but the last and after
    every event but the last, and its requests number no more than three
    times the listing pages and the listing entries taken together. *)
Theorem run_trace (existing : option (list sheet_row)) :
  let t := (main existing).1 in
  page_delays t = (Z.to_nat TOTAL_PAGES - 1)%nat
  ∧ event_delays t = (length listing.2 - 1)%nat
  ∧ (requests t ≤ 3 * (Z.to_nat TOTAL_PAGES + length listing.2))%nat.
Proof.
  cbv zeta.
  destruct (page_loop_trace listing_parser urljoin BASE_URL TOTAL_PAGES page_env
              (Z.to_nat TOTAL_PAGES) 1 eq_refl)
    as (Hpages & Hrequests & Hurls & _).
  fold listing in Hpages, Hrequests.
  pose proof (walk_event_delays (Z.to_nat TOTAL_PAGES) 1%Z) as Hnone.
  fold listing in Hnone.
  unfold Pipeline.main. cbv zeta.
  destruct listing.2 as [|entry entries] eqn:Hlisting; cbn [fst].
  - cbn [length]. split_and!; lia.
  - destruct (scrape_loop_trace (length (entry :: entries)) (entry :: entries) 1
                ltac:(lia)) as (Hdelays & Hnopages & Hbound).
    rewrite page_delays_app, event_delays_app, requests_app.
    rewrite Hdelays, Hnopages, Hnone, Hpages. split_and!; lia.
Qed.

(** X29: when every request for every listing page fails, the run exits
    without writing a sheet; what it does is the walk over the listing
    pages and nothing more, with no more than three times [TOTAL_PAGES]
    requests. *)
Theorem failed_listing_writes_nothing (existing : option (list sheet_row)) :
  (∀ page_num i, ∃ e, page_env page_num i = Retry.Fails e) →
  (main existing).2 = None
  ∧ (main existing).1 = listing.1
  ∧ (requests (main existing).1 ≤ 3 * Z.to_nat TOTAL_PAGES)%nat.
Proof.
  intros Hfail.
  assert (listing.2 = []) as Hempty.
  { apply elem_of_nil_inv. intros e He.
    apply page_loop_entries in He as (p & text & _ & Hfetch & _).
    destruct (RetryFacts.exhaustion_raises (page_url BASE_URL p) Config.MAX_RETRIES
                Config.INITIAL_BACKOFF (page_env p) (Hfail p)) as [e' He'].
    unfold fetch_page in Hfetch. by rewrite He' in Hfetch. }
  destruct (page_loop_trace listing_parser urljoin BASE_URL TOTAL_PAGES page_env
              (Z.to_nat TOTAL_PAGES) 1 eq_refl) as (_ & Hrequests & _).
  unfold Pipeline.main. cbv zeta. by rewrite Hempty.
Qed.

End Run.

Lemma sheet_rows_are_listing_entries_witness :
  is_Some (Pipeline.main (λ _, RunSamples.listing_page) RunSamples.join_path
             (Detail.Flat.reads_as RunSamples.detail_page) Detail.Flat.ascii_lower
             (λ _ _, RunSamples.all_respond) (λ _ _, RunSamples.all_respond)
             RunSamples.no_u0001 RunSamples.written None).2.
Proof.
  apply (proj1 (sheet_rows_are_listing_entries (λ _, RunSamples.listing_page)
                  RunSamples.join_path
                  (Detail.Flat.reads_as RunSamples.detail_page)
                  Detail.Flat.ascii_lower (λ _ _, RunSamples.all_respond)
                  (λ _ _, RunSamples.all_respond)
                  RunSamples.no_u0001 RunSamples.written None)).
  split_and!; [vm_compute; discriminate | vm_compute; reflexivity | reflexivity].
Defined.

Lemma failed_listing_writes_nothing_witness :
  (Pipeline.main (λ _, RunSamples.listing_page) RunSamples.join_path
     (Detail.Flat.reads_as RunSamples.detail_page) Detail.Flat.ascii_lower
     (λ _ _, RunSamples.all_missing) (λ _ _, RunSamples.all_respond)
     RunSamples.no_u0001 RunSamples.written None).2
  = None.
Proof.
  apply (failed_listing_writes_nothing (λ _, RunSamples.listing_page)
           RunSamples.join_path (Detail.Flat.reads_as RunSamples.detail_page)
           Detail.Flat.ascii_lower (λ _ _, RunSamples.all_missing)
           (λ _ _, RunSamples.all_respond)
           RunSamples.no_u0001 RunSamples.written None).
  intros page_num i. by eexists.
Defined.

(** A title with the character U+0001, which the workbook refuses: the
    run finds its listing entries and exits without a sheet. *)
Lemma refused_title_writes_nothing :
  (Pipeline.main (λ _, RunSamples.listing_page) RunSamples.join_path
     (Detail.Flat.reads_as [(lit "h2", [70; 1; 101])]) Detail.Flat.ascii_lower
     (λ _ _, RunSamples.all_respond) (λ _ _, RunSamples.all_respond)
     RunSamples.no_u0001 RunSamples.written None).2
  = None.
Proof. vm_compute. reflexivity. Qed.

End PipelineFacts.
